(** * Giveaway pipeline: cleaner, winner draw and winner statistics

    A shallow embedding of [cleanup.py], [pick_winner.py], [stats.py] and
    [highentryrep.py].

    - A pandas frame is a list of column labels and a list of rows; a
      cell of a row is the text of its field or NaN: [read_csv] reads an
      empty field, like its other NA tokens, as NaN.  The type that
      [read_csv] gives a column is worked out where a script depends on
      it, which is for the [.str] accessor on [action_type]
      ([text_column]); the file is read in one piece.
    - A script run is a function of the file it loads (and of the random
      generator, for the draw) whose result tells an early [return], an
      uncaught exception and a run to the end apart.
    - The scripts count in [int64].  [likes_error] gives the exception
      of [.astype(int)] on a number of [2^63] or more, and the analysis
      sums with the wrap-around of [int64].  The draw is modelled on the
      exact sums, which are the sums of the script while they stay below
      [2^63] (lemma [int64_totals_exact]); the properties that need it
      assume [counts_in_range].
    - Text is a string of bytes and [\d] is read as the digits [0] to
      [9], which is what it matches in ASCII text.
    - [Series.sample] is the loop of [numpy.random.choice] over the
      variates of a generator; its cumulative distribution is computed
      with exact rationals.
    - The plots of [stats.py] and [highentryrep.py] are left out. *)

From Stdlib Require Import String Ascii.
From Stdlib Require Import List Sorted Permutation ZArith QArith Lia Bool Arith.
From Stdlib Require OrderedTypeEx.
Import ListNotations.
Open Scope string_scope.
Open Scope list_scope.
Open Scope Z_scope.

(* ================================================================== *)
(** * Part I. Definitions *)
(* ================================================================== *)

(** ** Frames *)

(** A cell of a text column: [None] is NaN. *)
Definition cell := option string.
Definition row := list cell.

Record DataFrame := mkDF { columns : list string; rows : list row }.

Definition cell_eq_dec (a b : cell) : {a = b} + {a <> b}.
Proof. decide equality; apply string_dec. Defined.

Definition row_eq_dec : forall r s : row, {r = s} + {r <> s} :=
  list_eq_dec cell_eq_dec.

(** [notna()] on one cell. *)
Definition notna (c : cell) : bool :=
  match c with Some _ => true | None => false end.

(** Position of a label among the column labels. *)
Fixpoint index_of (name : string) (cols : list string) : option nat :=
  match cols with
  | [] => None
  | c :: cols' =>
      if String.eqb name c then Some O
      else option_map S (index_of name cols')
  end.

(** ['name' in df.columns]. *)
Definition has_column (df : DataFrame) (name : string) : bool :=
  match index_of name (columns df) with Some _ => true | None => false end.

(** The cell of row [r] under column [name]; the callers test
    [has_column] first, as [df[name]] raises [KeyError] otherwise. *)
Definition get (cols : list string) (name : string) (r : row) : cell :=
  match index_of name cols with
  | Some i => nth i r None
  | None => None
  end.

(** What a script run comes to: an early [return] after a message, an
    uncaught exception, or the end of the function with its output. *)
Inductive exn :=
| ValueError
| KeyError (label : string)
| AttributeError
| OverflowError.

Inductive completion (A : Type) :=
| Returned
| Raised (e : exn)
| Finished (a : A).
Arguments Returned {A}.
Arguments Raised {A} e.
Arguments Finished {A} a.

(** ** The CSV file and [pd.read_csv] *)

Record csv := mkCsv { header : list string; records : list (list string) }.

(** The tokens [read_csv] reads as NaN when it is called with its default
    arguments; the empty field is one of them. *)
Definition default_na_values : list string :=
  [ ""; "#N/A"; "#N/A N/A"; "#NA"; "-1.#IND"; "-1.#QNAN"; "-NaN"; "-nan";
    "1.#IND"; "1.#QNAN"; "<NA>"; "N/A"; "NA"; "NULL"; "NaN"; "None"; "n/a";
    "nan"; "null" ].

Definition parse_cell (na_values : list string) (s : string) : cell :=
  if in_dec string_dec s na_values then None else Some s.

Definition read_csv (na_values : list string) (f : csv) : DataFrame :=
  {| columns := header f;
     rows := map (map (parse_cell na_values)) (records f) |}.

(** [to_csv(index=False)]: NaN is written as the empty field. *)
Definition print_cell (c : cell) : string :=
  match c with Some s => s | None => "" end.

Definition to_csv (df : DataFrame) : csv :=
  {| header := columns df; records := map (map print_cell) (rows df) |}.

(** ** [cleanup.py] *)

Definition new_column_names : list string :=
  [ "profile_url"; "profile_picture_url"; "username"; "post_comment_url";
    "time_elapsed"; "comment_text"; "mentioned_user_1_username";
    "mentioned_user_1_url"; "mentioned_user_2_username";
    "mentioned_user_2_url"; "mentioned_user_3_username";
    "mentioned_user_3_url"; "action_type"; "extra_empty_column" ].

(** [df.columns = names]: pandas raises [ValueError] unless there is one
    label per column. *)
Definition set_columns (df : DataFrame) (names : list string)
  : exn + DataFrame :=
  if Nat.eqb (length names) (length (columns df))
  then inr {| columns := names; rows := rows df |}
  else inl ValueError.

(** [df.duplicated(keep='first')]: a row is marked when an equal row was
    seen before it; NaN cells compare equal. *)
Fixpoint duplicated_from (seen : list row) (rs : list row) : list bool :=
  match rs with
  | [] => []
  | r :: rs' =>
      (if in_dec row_eq_dec r seen then true else false)
        :: duplicated_from (r :: seen) rs'
  end.

Definition duplicated (rs : list row) : list bool := duplicated_from [] rs.

(** [df[mask]] by a boolean mask. *)
Fixpoint select {A : Type} (mask : list bool) (l : list A) : list A :=
  match mask, l with
  | b :: mask', x :: l' =>
      if b then x :: select mask' l' else select mask' l'
  | _, _ => []
  end.

(** [mask.sum()]. *)
Definition mask_sum (mask : list bool) : nat :=
  length (filter (fun b => b) mask).

(** [df[~df.duplicated(keep='first')]] on the rows. *)
Definition drop_duplicate_rows (rs : list row) : list row :=
  select (map negb (duplicated rs)) rs.

(** The text cells of a column, NaN left out. *)
Fixpoint present (cs : list cell) : list string :=
  match cs with
  | [] => []
  | Some s :: cs' => s :: present cs'
  | None :: cs' => present cs'
  end.

(** [Series.nunique()]: the number of distinct values, NaN not counted. *)
Definition nunique (cs : list cell) : nat :=
  length (nodup string_dec (present cs)).

Record clean_report := mkReport {
  warned : bool;                (* "Warning: Column count mismatch ..." *)
  original_rows : nat;
  num_duplicates : nat;
  cleaned_rows : nat;
  total_rows_removed : nat;
  unique_participants : nat;
  df_cleaned : DataFrame;
  saved : csv                   (* instagram_advanced_cleaned.csv *)
}.

(** [advanced_clean_instagram_csv], from the frame that [read_csv]
    returned. *)
Definition clean_frame (df : DataFrame) : completion clean_report :=
  let original_rows := length (rows df) in
  let n := length (columns df) in
  let matches := Nat.eqb n (length new_column_names) in
  let renamed :=
    if matches then set_columns df new_column_names
    else set_columns df (firstn n new_column_names) in
  match renamed with
  | inl e => Raised e
  | inr df =>
      let duplicates_mask := duplicated (rows df) in
      let cleaned :=
        {| columns := columns df;
           rows := select (map negb duplicates_mask) (rows df) |} in
      let cleaned_rows := length (rows cleaned) in
      if has_column cleaned "username" then
        Finished
          {| warned := negb matches;
             original_rows := original_rows;
             num_duplicates := mask_sum duplicates_mask;
             cleaned_rows := cleaned_rows;
             total_rows_removed := (original_rows - cleaned_rows)%nat;
             unique_participants :=
               nunique (map (get (columns cleaned) "username")
                            (rows cleaned));
             df_cleaned := cleaned;
             saved := to_csv cleaned |}
      else Raised (KeyError "username")
  end.

(** The whole function: [file] is [None] when [read_csv] raised (file not
    found, or any other error), which the function reports and returns. *)
Definition advanced_clean_instagram_csv
    (na_values : list string) (file : option csv)
  : completion clean_report :=
  match file with
  | None => Returned
  | Some f => clean_frame (read_csv na_values f)
  end.

(** ** [pick_winner.py]: likes, valid entries, total weights *)

(** A decimal digit, [0] to [9]: text is a string of bytes, and the
    pattern [\d] is read on them. *)
Definition is_digit (c : ascii) : bool :=
  let n := nat_of_ascii c in ((48 <=? n) && (n <=? 57))%nat.

(** The digits at the head of a string, as far as they go. *)
Fixpoint take_digits (s : string) : string :=
  match s with
  | String c s' => if is_digit c then String c (take_digits s') else ""
  | EmptyString => ""
  end.

(** The group of the leftmost match of the pattern [(\d+)], which is
    greedy; [None] when nothing matches. *)
Fixpoint search_digits (s : string) : option string :=
  match s with
  | EmptyString => None
  | String c s' =>
      if is_digit c then Some (String c (take_digits s'))
      else search_digits s'
  end.

(** [Series.str.extract('(\d+)')] on one cell: NaN stays NaN, and a text
    with no match gives NaN. *)
Definition str_extract (c : cell) : cell :=
  match c with
  | Some s => search_digits s
  | None => None
  end.

Definition digit_value (c : ascii) : Z := Z.of_nat (nat_of_ascii c) - 48.

(** [int] of a string of digits. *)
Fixpoint int_of_digits (acc : Z) (s : string) : Z :=
  match s with
  | EmptyString => acc
  | String c s' => int_of_digits (10 * acc + digit_value c) s'
  end.

(** [.fillna(0).astype(int)] on one extracted cell, for a number that
    [int64] holds; on a larger one [astype] raises ([likes_error]). *)
Definition fillna0_astype_int (c : cell) : Z :=
  match c with
  | Some d => int_of_digits 0 d
  | None => 0
  end.

(** A row of the frame with the column [comment_likes] added to it. *)
Record scored := mkScored { s_row : row; comment_likes : Z }.

(** Lines 31-37: the [comment_likes] column, when line 33 does not
    raise ([likes_error] below). *)
Definition add_comment_likes (df : DataFrame) : list scored :=
  if has_column df "action_type" then
    map (fun r =>
           mkScored r
             (fillna0_astype_int
                (str_extract (get (columns df) "action_type" r))))
        (rows df)
  else map (fun r => mkScored r 0) (rows df).

(** *** The exceptions of line 33

    [df['action_type'].str] raises [AttributeError] unless the column
    holds text.  [read_csv] turns a column into numbers when every field
    of it that is not NaN reads as a number, and into booleans when
    every such field is one of the words for true and false; a column
    with no field at all in it is a column of numbers too.  What is left
    is a column of text.  A frame without rows has columns of no type,
    which the accessor lets through. *)

Definition is_space (c : ascii) : bool :=
  let n := nat_of_ascii c in
  ((n =? 32) || ((9 <=? n) && (n <=? 13)))%nat.

Fixpoint skip_spaces (s : string) : string :=
  match s with
  | String c s' => if is_space c then skip_spaces s' else s
  | EmptyString => ""
  end.

Fixpoint drop_digits (s : string) : string :=
  match s with
  | String c s' => if is_digit c then drop_digits s' else s
  | EmptyString => ""
  end.

Definition is_char (c : ascii) (n : nat) : bool :=
  Nat.eqb (nat_of_ascii c) n.

(** An optional sign, [+] or [-]. *)
Definition skip_sign (s : string) : string :=
  match s with
  | String c s' => if is_char c 43 || is_char c 45 then s' else s
  | EmptyString => ""
  end.

(** The fraction after the digits before the point: [(digits, rest)]. *)
Definition split_fraction (s : string) : string * string :=
  match s with
  | String c s' =>
      if is_char c 46 then (take_digits s', drop_digits s') else ("", s)
  | EmptyString => ("", s)
  end.

(** An exponent, [e] or [E] with an optional sign and digits; without
    digits it is not read. *)
Definition skip_exponent (s : string) : string :=
  match s with
  | String c s' =>
      if is_char c 101 || is_char c 69 then
        match take_digits (skip_sign s') with
        | EmptyString => s
        | String _ _ => drop_digits (skip_sign s')
        end
      else s
  | EmptyString => s
  end.

(** The parser's reading of a field as a number: spaces, a sign, digits
    with an optional point, one digit at least, an exponent, spaces. *)
Definition float_token (s : string) : bool :=
  let s1 := skip_sign (skip_spaces s) in
  let whole := take_digits s1 in
  let '(frac, s3) := split_fraction (drop_digits s1) in
  if (String.length whole + String.length frac =? 0)%nat then false
  else
    match skip_spaces (skip_exponent s3) with
    | EmptyString => true
    | String _ _ => false
    end.

Definition to_lower (c : ascii) : ascii :=
  let n := nat_of_ascii c in
  if ((65 <=? n) && (n <=? 90))%nat then ascii_of_nat (n + 32) else c.

Fixpoint lower (s : string) : string :=
  match s with
  | String c s' => String (to_lower c) (lower s')
  | EmptyString => ""
  end.

(** The words for infinity, in any case. *)
Definition inf_token (s : string) : bool :=
  if in_dec string_dec (lower s)
       [ "inf"; "infinity"; "+inf"; "+infinity"; "-inf"; "-infinity" ]
  then true else false.

(** The words for true and false. *)
Definition bool_token (s : string) : bool :=
  if in_dec string_dec s
       [ "True"; "TRUE"; "true"; "False"; "FALSE"; "false" ]
  then true else false.

Definition numeric_cell (c : cell) : bool :=
  match c with
  | Some s => float_token s || inf_token s
  | None => true
  end.

Definition bool_cell (c : cell) : bool :=
  match c with
  | Some s => bool_token s
  | None => true
  end.

(** Whether the [.str] accessor takes the column. *)
Definition text_column (cells : list cell) : bool :=
  match cells with
  | [] => true
  | _ :: _ =>
      negb (forallb numeric_cell cells) && negb (forallb bool_cell cells)
  end.

(** The cells of the [action_type] column. *)
Definition action_cells (df : DataFrame) : list cell :=
  map (get (columns df) "action_type") (rows df).

(** [.astype(int)] raises [OverflowError] on a number that [int64] does
    not hold. *)
Definition too_large (c : cell) : bool :=
  2 ^ 63 <=? fillna0_astype_int (str_extract c).

(** The exception that line 33 raises, if any. *)
Definition likes_error (df : DataFrame) : option exn :=
  if has_column df "action_type" then
    if negb (text_column (action_cells df)) then Some AttributeError
    else if existsb too_large (action_cells df) then Some OverflowError
    else None
  else None.

Definition mention_columns : list string :=
  [ "mentioned_user_1_username"; "mentioned_user_2_username";
    "mentioned_user_3_username" ].

(** The three [notna()] masks joined by [&]. *)
Definition all_mentions_notna (cols : list string) (r : row) : bool :=
  notna (get cols "mentioned_user_1_username" r)
  && notna (get cols "mentioned_user_2_username" r)
  && notna (get cols "mentioned_user_3_username" r).

(** The first of [names] that is not a column of the frame, which is
    what [df[name]] raises [KeyError] on. *)
Fixpoint first_missing (df : DataFrame) (names : list string)
  : option string :=
  match names with
  | [] => None
  | n :: names' =>
      if has_column df n then first_missing df names' else Some n
  end.

(** Lines 43-47: [valid_entries]. *)
Definition valid_entries (df : DataFrame) (scored_rows : list scored)
  : list scored :=
  filter (fun e => all_mentions_notna (columns df) (s_row e)) scored_rows.

(** Line 57: the [weight] column, in exact integers. *)
Definition weight (e : scored) : Z := comment_likes e + 1.

Definition username_of (cols : list string) (e : scored) : cell :=
  get cols "username" (s_row e).

(** The entries of one user: [valid_entries[valid_entries['username'] ==
    u]]. *)
Definition entries_of (cols : list string) (u : string) (es : list scored)
  : list scored :=
  filter (fun e => if cell_eq_dec (username_of cols e) (Some u)
                   then true else false) es.

Definition sum_Z (l : list Z) : Z := fold_right Z.add 0 l.

(** Group keys come out sorted. *)
Fixpoint insert_sorted (u : string) (l : list string) : list string :=
  match l with
  | [] => [u]
  | v :: l' => if String.leb u v then u :: l else v :: insert_sorted u l'
  end.

Definition sort_strings (l : list string) : list string :=
  fold_right insert_sorted [] l.

(** [groupby('username')]: the distinct user names of the entries, NaN
    dropped, in sorted order. *)
Definition group_keys (cols : list string) (es : list scored)
  : list string :=
  sort_strings (nodup string_dec (present (map (username_of cols) es))).

(** Line 60: [valid_entries.groupby('username')['weight'].sum()], a series
    of total weights indexed by user name, in exact integers. *)
Definition user_total_weights (cols : list string) (es : list scored)
  : list (string * Z) :=
  map (fun u => (u, sum_Z (map weight (entries_of cols u es))))
      (group_keys cols es).

(** *** The same in [int64]

    The columns [comment_likes] and [weight] are [int64] columns: a sum
    that leaves the range [-2^63 .. 2^63 - 1] wraps around. *)

Definition wrap64 (z : Z) : Z := (z + 2 ^ 63) mod 2 ^ 64 - 2 ^ 63.

Definition add64 (a b : Z) : Z := wrap64 (a + b).

(** [Series.sum()] of an [int64] column. *)
Definition sum64 (l : list Z) : Z := fold_right add64 0 l.

(** Line 57 as it is computed. *)
Definition weight64 (e : scored) : Z := add64 (comment_likes e) 1.

(** Line 60 as it is computed. *)
Definition user_total_weights64 (cols : list string) (es : list scored)
  : list (string * Z) :=
  map (fun u => (u, sum64 (map weight64 (entries_of cols u es))))
      (group_keys cols es).

(** ** [Series.sample(n, weights, replace=False)]

    pandas checks the weights, scales them to sum to one and hands them
    to [numpy.random.choice(len, size=n, replace=False, p=weights)].
    numpy draws the missing number of uniform variates in one batch,
    looks each one up in the cumulative distribution of the weights that
    are still in the pool, keeps the positions that are new, in the order
    they came up, and goes round again while winners are missing.

    The source of randomness is [rand]: [rand t] is the [t]-th variate
    the generator hands out, a number of the interval [0, 1).  Scaling
    by the sum cancels between pandas and numpy in exact arithmetic, so
    the weights are kept as they are. *)

Fixpoint cumsum_from (acc : Z) (p : list Z) : list Z :=
  match p with
  | [] => []
  | w :: p' => (acc + w) :: cumsum_from (acc + w) p'
  end.

(** [np.cumsum(p)]. *)
Definition cumsum (p : list Z) : list Z := cumsum_from 0 p.

(** [cdf = np.cumsum(p); cdf /= cdf[-1]]. *)
Definition cdf (p : list Z) : list Q :=
  let c := cumsum p in
  let total := last c 0 in
  map (fun ci => (inject_Z ci / inject_Z total)%Q) c.

(** [a.searchsorted(x, side='right')] on a non-decreasing array: the
    number of entries at the front that are at most [x]. *)
Fixpoint searchsorted_right (a : list Q) (x : Q) : nat :=
  match a with
  | [] => O
  | c :: a' => if Qle_bool c x then S (searchsorted_right a' x) else O
  end.

(** [p[found] = 0], from position [i] on. *)
Fixpoint zero_from (i : nat) (found : list nat) (p : list Z) : list Z :=
  match p with
  | [] => []
  | w :: p' =>
      (if in_dec Nat.eq_dec i found then 0 else w)
        :: zero_from (S i) found p'
  end.

Definition zero_at (found : list nat) (p : list Z) : list Z :=
  zero_from 0 found p.

(** [np.unique(new, return_index=True)], the indices sorted, [take]: the
    distinct values in the order of their first occurrence. *)
Fixpoint unique_from (seen : list nat) (l : list nat) : list nat :=
  match l with
  | [] => []
  | i :: l' =>
      if in_dec Nat.eq_dec i seen then unique_from seen l'
      else i :: unique_from (i :: seen) l'
  end.

Definition unique_first (l : list nat) : list nat := unique_from [] l.

(** The state of a draw: the positions found so far, the number of
    variates used, and (a ghost of the proofs) every position that a
    variate came up with, in the order of the draws. *)
Record draw_state := mkDraw {
  found : list nat;
  used : nat;
  drawn : list nat
}.

(** One batch of [size - n_uniq] variates. *)
Definition choice_round (rand : nat -> Q) (p : list Z) (size : nat)
    (st : draw_state) : draw_state :=
  let m := (size - length (found st))%nat in
  let x := map rand (seq (used st) m) in
  let new := map (searchsorted_right (cdf (zero_at (found st) p))) x in
  {| found := found st ++ unique_first new;
     used := (used st + m)%nat;
     drawn := drawn st ++ new |}.

(** [while n_uniq < size: ...]; [None] when [fuel] rounds were not
    enough. *)
Fixpoint choice_loop (fuel : nat) (rand : nat -> Q) (p : list Z)
    (size : nat) (st : draw_state) : option draw_state :=
  if (size <=? length (found st))%nat then Some st
  else match fuel with
       | O => None
       | S fuel' => choice_loop fuel' rand p size (choice_round rand p size st)
       end.

Definition count_positive (p : list Z) : nat :=
  length (filter (fun w => 0 <? w) p).

(** The checks of pandas and numpy, then the loop.  Every round finds at
    least one new position, so [n] rounds are enough (lemma
    [sample_terminates]). *)
Definition sample_state (weights : list Z) (n : nat) (rand : nat -> Q)
  : option (exn + draw_state) :=
  if existsb (fun w => w <? 0) weights then Some (inl ValueError)
  else if sum_Z weights =? 0 then Some (inl ValueError)
  else if (length weights <? n)%nat then Some (inl ValueError)
  else if (count_positive weights <? n)%nat then Some (inl ValueError)
  else option_map inr (choice_loop n rand weights n (mkDraw [] 0 [])).

(** The positions sampled, in the order numpy returns them. *)
Definition sample (weights : list Z) (n : nat) (rand : nat -> Q)
  : option (exn + list nat) :=
  match sample_state weights n rand with
  | Some (inr st) => Some (inr (found st))
  | Some (inl e) => Some (inl e)
  | None => None
  end.

(** ** The draw as a program over a source of positions

    [choice_round] and [choice_loop] once more, written against an
    abstract source [position] that hands out one position of a pool per
    variate.  Read with the generator [rand] the program is the draw
    above (lemma [loop_variates]); read with the weighted distribution of
    one position it is the distribution of the draw. *)

Section Choice.

Variable M : Type -> Type.
Variable mret : forall A : Type, A -> M A.
Variable mbind : forall A B : Type, M A -> (A -> M B) -> M B.
Variable position : list Z -> M nat.

Fixpoint batch (m : nat) (q : list Z) : M (list nat) :=
  match m with
  | O => mret _ []
  | S m' =>
      mbind _ _ (position q) (fun i =>
      mbind _ _ (batch m' q) (fun l => mret _ (i :: l)))
  end.

Definition round (p : list Z) (size : nat) (fnd : list nat)
  : M (list nat) :=
  mbind _ _ (batch (size - length fnd) (zero_at fnd p))
    (fun new => mret _ (fnd ++ unique_first new)).

Fixpoint loop (fuel : nat) (p : list Z) (size : nat) (fnd : list nat)
  : M (option (list nat)) :=
  if (size <=? length fnd)%nat then mret _ (Some fnd)
  else match fuel with
       | O => mret _ None
       | S fuel' => mbind _ _ (round p size fnd) (loop fuel' p size)
       end.

End Choice.

(** *** Read with a generator: the number of variates used is the state *)

Definition variates (A : Type) : Type := nat -> A * nat.

Definition vret (A : Type) (a : A) : variates A := fun t => (a, t).

Definition vbind (A B : Type) (c : variates A) (f : A -> variates B)
  : variates B :=
  fun t => let (a, t') := c t in f a t'.

Definition vposition (rand : nat -> Q) (q : list Z) : variates nat :=
  fun t => (searchsorted_right (cdf q) (rand t), S t).

(** *** Read as a distribution

    A finite distribution is a list of outcomes with their rational
    probabilities. *)

Definition dist (A : Type) : Type := list (A * Q).

Definition dret (A : Type) (a : A) : dist A := [(a, 1%Q)].

Definition dscale {A : Type} (q : Q) (d : dist A) : dist A :=
  map (fun ar => (fst ar, (q * snd ar)%Q)) d.

Definition dbind (A B : Type) (d : dist A) (f : A -> dist B) : dist B :=
  flat_map (fun ar => dscale (snd ar) (f (fst ar))) d.

(** The expectation of [g]; the probability of an event is the
    expectation of its indicator. *)
Definition expect {A : Type} (d : dist A) (g : A -> Q) : Q :=
  fold_right (fun ar acc => (snd ar * g (fst ar) + acc)%Q) 0%Q d.

Definition prob {A : Type} (d : dist A) (event : A -> bool) : Q :=
  expect d (fun a => if event a then 1%Q else 0%Q).

(** The positions of a pool that carry weight, with their weights. *)
Fixpoint weighted_positions (i : nat) (q : list Z) : list (nat * Z) :=
  match q with
  | [] => []
  | w :: q' =>
      if 0 <? w then (i, w) :: weighted_positions (S i) q'
      else weighted_positions (S i) q'
  end.

(** One variate looked up in the cumulative distribution of the pool
    [q]: the variate is uniform on the unit interval, and it gives
    position [i] when it falls in an interval whose length is the share
    of [i] in the weight of the pool (lemma [variate_position]). *)
Definition dposition (q : list Z) : dist nat :=
  map (fun iw => (fst iw, (inject_Z (snd iw) / inject_Z (sum_Z q))%Q))
      (weighted_positions 0 q).

(** The distribution of the positions that [numpy.random.choice] finds. *)
Definition choice_dist (p : list Z) (size : nat) : dist (option (list nat)) :=
  loop dist dret dbind dposition size p size [].

(** *** The distribution that the specification describes

    [k] draws one after the other: each takes a position of the pool
    with the share of its weight in the weight of the pool, and the
    position leaves the pool before the next draw. *)
Fixpoint sequential_dist (k : nat) (p : list Z) (fnd : list nat)
  : dist (list nat) :=
  match k with
  | O => dret _ fnd
  | S k' =>
      dbind _ _ (dposition (zero_at fnd p))
        (fun i => sequential_dist k' p (fnd ++ [i]))
  end.

(** A result of the loop seen by a function of the positions found; a
    loop out of fuel counts for nothing. *)
Definition on_found (g : list nat -> Q) (r : option (list nat)) : Q :=
  match r with Some l => g l | None => 0%Q end.

Definition is_positions (l : list nat) (r : list nat) : bool :=
  if list_eq_dec Nat.eq_dec l r then true else false.

(** The event that the loop finds the positions [l], in this order. *)
Definition finds (l : list nat) (r : option (list nat)) : bool :=
  match r with Some l' => is_positions l l' | None => false end.

(** ** [pick_giveaway_winners] *)

(** The rows kept by [drop_duplicates(subset=['username'])]: the first
    row of each user name. *)
Fixpoint first_per_username (cols : list string) (seen : list cell)
    (rs : list row) : list row :=
  match rs with
  | [] => []
  | r :: rs' =>
      let u := get cols "username" r in
      if in_dec cell_eq_dec u seen then first_per_username cols seen rs'
      else r :: first_per_username cols (u :: seen) rs'
  end.

(** [Series.isin(names)] on one cell; NaN is in no list of names. *)
Definition isin (names : list string) (c : cell) : bool :=
  match c with
  | Some u => if in_dec string_dec u names then true else false
  | None => false
  end.

(** Line 89: [df[df['username'].isin(names)].drop_duplicates(subset=
    ['username']).set_index('username')['profile_url']], a series of
    profile cells indexed by user name. *)
Definition winner_profiles_of (df : DataFrame) (names : list string)
  : list (cell * cell) :=
  map (fun r => (get (columns df) "username" r,
                 get (columns df) "profile_url" r))
      (first_per_username (columns df) []
         (filter (fun r => isin names (get (columns df) "username" r))
                 (rows df))).

(** [series.get(username, "Profile URL not found")]. *)
Fixpoint series_get (s : list (cell * cell)) (u : string) : cell :=
  match s with
  | [] => Some "Profile URL not found"
  | (k, v) :: s' =>
      if cell_eq_dec k (Some u) then v else series_get s' u
  end.

(** What the function announces: whether the warning of lines 67-68 was
    printed, the number of winners picked, and each winner with the
    profile printed under the name, in the order of the announcement. *)
Record announcement := mkAnnouncement {
  fewer_warning : bool;
  num_winners_to_pick : nat;
  winning_usernames : list string;
  winners : list (string * cell)
}.

(** What a run of the script comes to: it returns early with one of its
    three messages, it raises, or it announces winners. *)
Inductive pick_result :=
| NotLoaded                      (* lines 22-28 *)
| NoValidEntries                 (* lines 49-52 *)
| NoEligibleParticipants         (* lines 71-73 *)
| PickRaised (e : exn)
| Announced (a : announcement).

(** [pick_giveaway_winners] from line 39 on, the [comment_likes] column
    being there; [None] stands for a draw loop that does not come to an
    end.  The total weights are the exact sums. *)
Definition pick_after_likes (df : DataFrame) (rand : nat -> Q)
  : option pick_result :=
  let scored_rows := add_comment_likes df in
  match first_missing df mention_columns with
  | Some n => Some (PickRaised (KeyError n))
  | None =>
      let valid := valid_entries df scored_rows in
      match valid with
      | [] => Some NoValidEntries
      | _ :: _ =>
          if negb (has_column df "username")
          then Some (PickRaised (KeyError "username"))
          else
            let totals := user_total_weights (columns df) valid in
            let fewer := (length totals <? 10)%nat in
            let num := if fewer then length totals else 10%nat in
            if Nat.eqb num 0 then Some NoEligibleParticipants
            else
              match sample (map snd totals) num rand with
              | None => None
              | Some (inl e) => Some (PickRaised e)
              | Some (inr positions) =>
                  let names :=
                    map (fun i => nth i (map fst totals) "") positions in
                  if negb (has_column df "profile_url")
                  then Some (PickRaised (KeyError "profile_url"))
                  else
                    let profiles := winner_profiles_of df names in
                    Some (Announced
                      {| fewer_warning := fewer;
                         num_winners_to_pick := num;
                         winning_usernames := names;
                         winners :=
                           map (fun u => (u, series_get profiles u))
                               names |})
              end
      end
  end.

(** [pick_giveaway_winners] from line 30 on. *)
Definition pick_from_frame (df : DataFrame) (rand : nat -> Q)
  : option pick_result :=
  match likes_error df with
  | Some e => Some (PickRaised e)
  | None => pick_after_likes df rand
  end.

Definition pick_giveaway_winners (na_values : list string)
    (file : option csv) (rand : nat -> Q) : option pick_result :=
  match file with
  | None => Some NotLoaded
  | Some f => pick_from_frame (read_csv na_values f) rand
  end.

(** ** [analyze_giveaway_results] ([stats.py], [highentryrep.py])

    The two scripts share their sections 1 to 4, which is what is
    embedded here: the groups, the statistics of each listed winner and
    the summary of the other participants. *)

(** [user_total_weights.get(username, 0)]. *)
Fixpoint weights_get (totals : list (string * Z)) (u : string) : Z :=
  match totals with
  | [] => 0
  | (k, v) :: totals' =>
      if string_dec k u then v else weights_get totals' u
  end.

Definition mem (u : string) (l : list string) : bool :=
  if in_dec string_dec u l then true else false.

Record winner_stat := mkWinnerStat {
  ws_username : string;
  ws_profile : cell;
  winner_stats : list scored;     (* the winner's valid entries *)
  total_valid_comments : nat;
  total_likes : Z;
  total_score : Z
}.

Record non_winner_summary := mkSummary {
  total_non_winners : nat;
  total_entries : nat;
  non_winner_likes : Z
}.

Record analysis := mkAnalysis {
  all_participants : list string;
  valid_winners : list string;
  non_winners : list string;
  winner_details : list winner_stat;
  excluded_note : bool;           (* "Note: Some usernames ..." *)
  non_winner_stats : list scored; (* the non-winners' valid entries *)
  summary : option non_winner_summary
}.

(** From line 37 on, the [comment_likes] column being there; the sums
    are the [int64] sums of the script. *)
Definition analyze_after_likes (df : DataFrame)
    (winner_usernames : list string) : completion analysis :=
  let cols := columns df in
  let scored_rows := add_comment_likes df in
  match first_missing df mention_columns with
  | Some n => Raised (KeyError n)
  | None =>
      let valid := valid_entries df scored_rows in
      match valid with
      | [] => Returned
      | _ :: _ =>
          if negb (has_column df "username")
          then Raised (KeyError "username")
          else
            let totals := user_total_weights64 cols valid in
            let all_participants := map fst totals in
            let valid_winners :=
              filter (fun user => mem user all_participants)
                     winner_usernames in
            let non_winners :=
              filter (fun user => negb (mem user winner_usernames))
                     all_participants in
            if negb (has_column df "profile_url")
            then Raised (KeyError "profile_url")
            else
              let winner_profiles := winner_profiles_of df valid_winners in
              let non_winner_stats :=
                filter (fun e => isin non_winners (username_of cols e))
                       valid in
              Finished
                {| all_participants := all_participants;
                   valid_winners := valid_winners;
                   non_winners := non_winners;
                   winner_details :=
                     map (fun username =>
                            let winner_stats :=
                              entries_of cols username valid in
                            {| ws_username := username;
                               ws_profile :=
                                 series_get winner_profiles username;
                               winner_stats := winner_stats;
                               total_valid_comments := length winner_stats;
                               total_likes :=
                                 sum64 (map comment_likes winner_stats);
                               total_score := weights_get totals username |})
                         valid_winners;
                   excluded_note :=
                     (length valid_winners <? length winner_usernames)%nat;
                   non_winner_stats := non_winner_stats;
                   summary :=
                     match non_winners with
                     | [] => None
                     | _ :: _ =>
                         Some {| total_non_winners := length non_winners;
                                 total_entries := length non_winner_stats;
                                 non_winner_likes :=
                                   sum64 (map comment_likes
                                              non_winner_stats) |}
                     end |}
      end
  end.

(** From line 32 on. *)
Definition analyze_frame (df : DataFrame) (winner_usernames : list string)
  : completion analysis :=
  match likes_error df with
  | Some e => Raised e
  | None => analyze_after_likes df winner_usernames
  end.

Definition analyze_giveaway_results (na_values : list string)
    (file : option csv) (winner_usernames : list string)
  : completion analysis :=
  match file with
  | None => Returned
  | Some f => analyze_frame (read_csv na_values f) winner_usernames
  end.

(** ** Notions used to state the properties *)

(** The positions of a mask that hold [true], counted from [i]. *)
Fixpoint true_positions (i : nat) (mask : list bool) : list nat :=
  match mask with
  | [] => []
  | b :: mask' =>
      if b then i :: true_positions (S i) mask'
      else true_positions (S i) mask'
  end.

(** The positions of the rows that [drop_duplicate_rows] keeps. *)
Definition kept_positions (rs : list row) : list nat :=
  true_positions 0 (map negb (duplicated rs)).

(** The digit run that the validator is specified by: [run] is the
    first maximal run of decimal digits of [s] when no digit comes before
    it and no digit follows it. *)
Fixpoint string_forall (P : ascii -> bool) (s : string) : bool :=
  match s with
  | EmptyString => true
  | String c s' => P c && string_forall P s'
  end.

Definition all_digits (s : string) : Prop :=
  string_forall is_digit s = true.

Definition no_digit (s : string) : Prop :=
  string_forall (fun c => negb (is_digit c)) s = true.

Definition first_maximal_run (s run : string) : Prop :=
  run <> "" /\ all_digits run /\
  exists pre post,
    s = (pre ++ run ++ post)%string /\ no_digit pre /\
    (post = "" \/
     exists c post', post = String c post' /\ is_digit c = false).

(** The number a run of digits reads as, digit by power of ten. *)
Fixpoint decimal (s : string) : Z :=
  match s with
  | EmptyString => 0
  | String c s' =>
      digit_value c * 10 ^ Z.of_nat (String.length s') + decimal s'
  end.

(** The likes the specification reads off an engagement field. *)
Inductive parsed_likes : option string -> Z -> Prop :=
| likes_missing : parsed_likes None 0
| likes_no_digit s : no_digit s -> parsed_likes (Some s) 0
| likes_run s run :
    first_maximal_run s run -> parsed_likes (Some s) (decimal run).

(** The engagement field of a row: missing when the frame has no
    [action_type] column or the cell is NaN. *)
Definition engagement_raw (df : DataFrame) (r : row) : option string :=
  if has_column df "action_type"
  then get (columns df) "action_type" r
  else None.

(** Text within ASCII. *)
Definition ascii_text (s : string) : bool :=
  string_forall (fun c => (nat_of_ascii c <? 128)%nat) s.

(** A first run of digits with eighteen digits at most, or none. *)
Definition short_run (s : string) : bool :=
  match search_digits s with
  | Some run => (String.length run <=? 18)%nat
  | None => true
  end.

Definition plain_cell (c : cell) : bool :=
  match c with
  | Some s => ascii_text s && short_run s
  | None => true
  end.

(** The counts of the frame are in range: the [action_type] fields are
    ASCII text, the number of likes of each has eighteen digits at
    most, and the weights of the valid entries add up to less than
    [2^63].  On such a frame the digits that the pattern matches are
    the digits [0] to [9], [.astype(int)] does not raise, and no [int64]
    sum of the scripts wraps around. *)
Definition counts_in_range (df : DataFrame) : bool :=
  forallb plain_cell (action_cells df)
  && (sum_Z (map weight (valid_entries df (add_comment_likes df)))
      <? 2 ^ 63).

(** The share of the weight [c] in the weight [T]. *)
Definition share (c T : Z) : Q := (inject_Z c / inject_Z T)%Q.

(** The variates of a generator lie in the unit interval. *)
Definition unit_variates (rand : nat -> Q) : Prop :=
  forall t, (0 <= rand t < 1)%Q.

(** The weight in front of position [i]. *)
Definition prefix_sum (i : nat) (p : list Z) : Z := sum_Z (firstn i p).

(** What holds of a draw between two rounds: the positions found are
    distinct positions of the array that carry weight, they are the
    positions drawn so far in the order they first came up, and there
    are at most [size] of them. *)
Definition draw_invariant (p : list Z) (size : nat) (st : draw_state)
  : Prop :=
  NoDup (found st) /\
  (forall i, In i (found st) -> (i < length p)%nat /\ 0 < nth i p 0) /\
  found st = unique_first (drawn st) /\
  (length (found st) <= size)%nat.

(** The log of a draw is in the order of the variates: it has one
    position per variate used, and the position at place [t] is what the
    variate [rand t] came up with in the pool of its round. *)
Definition chronological (rand : nat -> Q) (p : list Z) (st : draw_state)
  : Prop :=
  length (drawn st) = used st /\
  forall t, (t < used st)%nat ->
    exists fnd,
      nth t (drawn st) O
      = searchsorted_right (cdf (zero_at fnd p)) (rand t).

(** The profile cell of the first valid entry of a user, which is
    where the specification takes the profile reference from. *)
Definition first_valid_profile (df : DataFrame) (u : string)
  : option cell :=
  option_map (fun e => get (columns df) "profile_url" (s_row e))
    (find (fun e => if cell_eq_dec (username_of (columns df) e) (Some u)
                    then true else false)
          (valid_entries df (add_comment_likes df))).

Definition profiles_from_first_valid_entry (df : DataFrame)
    (reported : list (string * cell)) : Prop :=
  forall u p, In (u, p) reported -> first_valid_profile df u = Some p.

(** [p] is the profile cell of the first row of the frame, valid entry
    or not, whose user name is [u]. *)
Definition first_record_profile (df : DataFrame) (u : string) (p : cell)
  : Prop :=
  exists i r,
    nth_error (rows df) i = Some r /\
    get (columns df) "username" r = Some u /\
    p = get (columns df) "profile_url" r /\
    forall j r', (j < i)%nat -> nth_error (rows df) j = Some r' ->
                 get (columns df) "username" r' <> Some u.

(** The rows of user [u]. *)
Definition is_user (cols : list string) (u : string) (r : row) : bool :=
  if cell_eq_dec (get cols "username" r) (Some u) then true else false.

(** The sum of [h] over the positions of a pool, each position
    counted with its weight. *)
Fixpoint wsum (i : nat) (q : list Z) (h : nat -> Q) : Q :=
  match q with
  | [] => 0%Q
  | w :: q' => (inject_Z w * h i + wsum (S i) q' h)%Q
  end.

(** What [k] draws one after the other are worth to [g], from the
    positions [l] on, when [size] positions are wanted in all. *)
Definition value (g : list nat -> Q) (p : list Z) (size : nat)
    (l : list nat) : Q :=
  expect (sequential_dist (size - length l) p l) g.

(** ** Sample inputs *)

(** The labels of the scraped file, which the cleaner replaces. *)
Definition raw_header : list string :=
  [ "c1"; "c2"; "c3"; "c4"; "c5"; "c6"; "c7"; "c8"; "c9"; "c10"; "c11";
    "c12"; "c13"; "c14" ].

(** One scraped comment: the columns that the scripts do not read are
    left empty. *)
Definition comment_record (profile username m1 m2 m3 action : string)
  : list string :=
  [ profile; ""; username; ""; ""; ""; m1; ""; m2; ""; m3; ""; action; "" ].

(** Five scraped comments: the fourth repeats the second, and the fifth
    tags two users only. *)
Definition scenario : csv :=
  {| header := raw_header;
     records :=
       [ comment_record "ig/u1" "u1" "a" "b" "c" "Reply";
         comment_record "ig/u1" "u1" "d" "e" "f" "2 likes";
         comment_record "ig/u2" "u2" "a" "b" "c" "1 like";
         comment_record "ig/u1" "u1" "d" "e" "f" "2 likes";
         comment_record "ig/u3" "u3" "a" "b" "" "7 likes" ] |}.

(** The file that the cleaner saves for [scenario] (lemma
    [scenario_cleaned]), which the other scripts read. *)
Definition cleaned_scenario : csv :=
  {| header := new_column_names;
     records :=
       [ comment_record "ig/u1" "u1" "a" "b" "c" "Reply";
         comment_record "ig/u1" "u1" "d" "e" "f" "2 likes";
         comment_record "ig/u2" "u2" "a" "b" "c" "1 like";
         comment_record "ig/u3" "u3" "a" "b" "" "7 likes" ] |}.

(** A scraped file with one column more than the fourteen expected. *)
Definition wide_scrape : csv :=
  {| header := raw_header ++ ["c15"];
     records :=
       [ comment_record "ig/u1" "u1" "a" "b" "c" "Reply" ++ ["extra"] ] |}.

(** A generator whose first variate is 5/6 and whose other variates are
    0. *)
Definition high_then_low (t : nat) : Q :=
  match t with O => 5 # 6 | S _ => 0 end.

(** A cleaned file in which the first comment of [u1] tags two users
    only and carries another profile link than the second. *)
Definition profile_drift : csv :=
  {| header := new_column_names;
     records :=
       [ comment_record "ig/old" "u1" "a" "b" "" "3 likes";
         comment_record "ig/new" "u1" "a" "b" "c" "Reply" ] |}.

(** The total weights of the participants of [cleaned_scenario]: 4 for
    [u1], 2 for [u2]. *)
Definition scenario_weights : list Z := [4; 2].

(** ** [highentryrep.py]: the summary table and the users with many
    entries *)

(** The distinct values of a list in the order of their first
    appearance. *)
Fixpoint distinct_from (seen : list string) (l : list string)
  : list string :=
  match l with
  | [] => []
  | u :: l' =>
      if in_dec string_dec u seen then distinct_from seen l'
      else u :: distinct_from (u :: seen) l'
  end.

Definition HIGH_ENTRY_THRESHOLD : nat := 50.

(** A count goes in front of the counts that are not above it. *)
Fixpoint insert_count (uc : string * nat) (l : list (string * nat))
  : list (string * nat) :=
  match l with
  | [] => [uc]
  | vc :: l' =>
      if (snd vc <=? snd uc)%nat then uc :: l
      else vc :: insert_count uc l'
  end.

(** [valid_entries['username'].value_counts()]: the number of entries
    of each user name, NaN left out, the largest count first (equal
    counts are kept here in the order of first appearance; nothing
    below depends on it). *)
Definition value_counts (cols : list string) (es : list scored)
  : list (string * nat) :=
  fold_right insert_count []
    (map (fun u => (u, length (entries_of cols u es)))
         (distinct_from [] (present (map (username_of cols) es)))).

(** One line of the report: the time, the three tags and the comment,
    ["[No Text]"] standing for a comment that is NaN. *)
Record report_line := mkLine {
  rl_time : cell;
  rl_tags : cell * cell * cell;
  rl_comment : string
}.

Definition report_line_of (cols : list string) (e : scored) : report_line :=
  {| rl_time := get cols "time_elapsed" (s_row e);
     rl_tags := (get cols "mentioned_user_1_username" (s_row e),
                 get cols "mentioned_user_2_username" (s_row e),
                 get cols "mentioned_user_3_username" (s_row e));
     rl_comment :=
       match get cols "comment_text" (s_row e) with
       | Some text => text
       | None => "[No Text]"
       end |}.

Record high_volume_user := mkHighVolume {
  hv_username : string;
  hv_count : nat;
  hv_sample : list report_line      (* [.head(10)] of the user's entries *)
}.

Record high_entry_analysis := mkHighEntry {
  base : analysis;                  (* sections 1 to 4 *)
  summary_saved : bool;             (* winner_stats_summary.csv *)
  user_entry_counts : list (string * nat);
  high_volume_users : list high_volume_user;
  report_saved : bool               (* high_entry_user_report.txt *)
}.

(** [analyze_giveaway_results] of [highentryrep.py] up to its section
    4.5.  The lines of the report read [entry['time_elapsed']] and
    [entry['comment_text']], which raise [KeyError] on a frame without
    these columns as soon as there is a line to write. *)
Definition analyze_high_entries (df : DataFrame)
    (winner_usernames : list string) : completion high_entry_analysis :=
  match analyze_frame df winner_usernames with
  | Returned => Returned
  | Raised e => Raised e
  | Finished an =>
      let cols := columns df in
      let valid := valid_entries df (add_comment_likes df) in
      let user_entry_counts := value_counts cols valid in
      let high :=
        filter (fun uc => (HIGH_ENTRY_THRESHOLD <? snd uc)%nat)
               user_entry_counts in
      let summary_saved :=
        match winner_details an with [] => false | _ :: _ => true end in
      match high with
      | [] =>
          Finished {| base := an;
                      summary_saved := summary_saved;
                      user_entry_counts := user_entry_counts;
                      high_volume_users := [];
                      report_saved := false |}
      | _ :: _ =>
          if negb (has_column df "time_elapsed")
          then Raised (KeyError "time_elapsed")
          else if negb (has_column df "comment_text")
          then Raised (KeyError "comment_text")
          else
            Finished
              {| base := an;
                 summary_saved := summary_saved;
                 user_entry_counts := user_entry_counts;
                 high_volume_users :=
                   map (fun uc =>
                          {| hv_username := fst uc;
                             hv_count := snd uc;
                             hv_sample :=
                               map (report_line_of cols)
                                   (firstn 10
                                      (entries_of cols (fst uc) valid)) |})
                       high;
                 report_saved := true |}
      end
  end.

(** ** Further notions *)

(** The rows of [rs] that are neither in [seen] nor repeats. *)
Definition keep_new (seen rs : list row) : list row :=
  select (map negb (duplicated_from seen rs)) rs.

(** The entries that carry a user name. *)
Definition named (cols : list string) (es : list scored) : list scored :=
  filter (fun e => notna (username_of cols e)) es.

(** The sum of [f] over the entries of the users [us]. *)
Definition sum_over_users (cols : list string) (f : scored -> Z)
    (us : list string) (es : list scored) : Z :=
  sum_Z (map (fun u => sum_Z (map f (entries_of cols u es))) us).

(** The most variates a draw of [n] positions takes: [n] in the first
    round, and one fewer in each further round. *)
Definition variates_bound (n : nat) : nat := (n * (n + 1) / 2)%nat.

(** The order of the group keys. *)
Definition leb_string (a b : string) : Prop := String.leb a b = true.

(** A result without the profile links: what is left says who won. *)
Definition without_profiles (res : pick_result) : pick_result :=
  match res with
  | Announced a =>
      Announced {| fewer_warning := fewer_warning a;
                   num_winners_to_pick := num_winners_to_pick a;
                   winning_usernames := winning_usernames a;
                   winners :=
                     map (fun u => (u, None)) (winning_usernames a) |}
  | _ => res
  end.

(** ** Further sample inputs *)

(** A cleaned file with eleven participants, one comment each. *)
Definition crowd : csv :=
  {| header := new_column_names;
     records :=
       map (fun u => comment_record ("ig/" ++ u)%string u "a" "b" "c" "Reply")
           [ "u01"; "u02"; "u03"; "u04"; "u05"; "u06"; "u07"; "u08"; "u09";
             "u10"; "u11" ] |}.

Fixpoint tag (i : nat) : string :=
  match i with
  | O => "t"
  | S i' => String "x" (tag i')
  end.

(** A cleaned file in which [fan] has fifty-one valid entries, each
    with another third tag, and [u2] has one. *)
Definition busy_fan : csv :=
  {| header := new_column_names;
     records :=
       map (fun i => comment_record "ig/fan" "fan" "a" "b" (tag i) "Reply")
           (seq 0 51)
       ++ [ comment_record "ig/u2" "u2" "a" "b" "c" "1 like" ] |}.

(** A frame of twelve columns, the first twelve labels: it has the
    mention columns and no [action_type]. *)
Definition no_action_type : DataFrame :=
  {| columns := firstn 12 new_column_names;
     rows :=
       [ map Some [ "ig/u1"; "p"; "u1"; "c"; "1h"; "hi"; "a"; "x"; "b"; "y";
                    "c"; "z" ];
         map Some [ "ig/u1"; "p"; "u1"; "c"; "2h"; "ho"; "d"; "x"; "e"; "y";
                    "f"; "z" ] ] |}.

(** A cleaned file with one comment that tags three users; the
    [action_type] field is empty on every row. *)
Definition blank_likes : csv :=
  {| header := new_column_names;
     records := [ comment_record "ig/u1" "u1" "a" "b" "c" "" ] |}.

(** A cleaned file with one comment that tags three users and has no
    user name. *)
Definition nameless : csv :=
  {| header := new_column_names;
     records := [ comment_record "ig/x" "" "a" "b" "c" "Reply" ] |}.

(** A cleaned file whose [action_type] fields are bare numbers. *)
Definition bare_numbers : csv :=
  {| header := new_column_names;
     records :=
       [ comment_record "ig/u1" "u1" "a" "b" "c" "5";
         comment_record "ig/u2" "u2" "a" "b" "c" "12" ] |}.

(** A cleaned file with a comment of [2^63 - 1] likes. *)
Definition most_likes : csv :=
  {| header := new_column_names;
     records :=
       [ comment_record "ig/u1" "u1" "a" "b" "c" "9223372036854775807 likes";
         comment_record "ig/u2" "u2" "a" "b" "c" "1 like" ] |}.

(** The rows of [busy_fan] under labels that lack [time_elapsed]. *)
Definition no_time_column : DataFrame :=
  {| columns :=
       map (fun c => if String.eqb c "time_elapsed" then "when" else c)
           new_column_names;
     rows := rows (read_csv default_na_values busy_fan) |}.

(** A cleaned file in which a user is called [null]. *)
Definition null_user : csv :=
  {| header := new_column_names;
     records :=
       [ comment_record "ig/null" "null" "a" "b" "c" "9 likes";
         comment_record "ig/u2" "u2" "a" "b" "c" "1 like" ] |}.

(* ================================================================== *)
(** * Part II. Properties *)
(* ================================================================== *)

(** ** The cleaner: duplicate rows *)

Lemma duplicated_from_length seen rs :
  length (duplicated_from seen rs) = length rs.
Proof.
  revert seen; induction rs as [|r rs IH]; intros seen; simpl; auto.
Qed.

Lemma duplicated_from_nth rs : forall seen i r,
  nth_error rs i = Some r ->
  nth_error (duplicated_from seen rs) i
  = Some (if in_dec row_eq_dec r (rev (firstn i rs) ++ seen)
          then true else false).
Proof.
  induction rs as [|r0 rs IH]; intros seen i r H.
  - destruct i; discriminate.
  - destruct i as [|i]; simpl in *.
    + injection H as ->. reflexivity.
    + rewrite (IH (r0 :: seen) i r H). f_equal.
      rewrite <- app_assoc. simpl.
      reflexivity.
Qed.

Lemma in_firstn_nth_error {A} (l : list A) i x :
  In x (firstn i l) <-> exists j, (j < i)%nat /\ nth_error l j = Some x.
Proof.
  revert i; induction l as [|a l IH]; intros i.
  - rewrite firstn_nil. split; [intros []|].
    intros (j & _ & H). destruct j; discriminate.
  - destruct i as [|i]; simpl.
    + split; [intros []|]. intros (j & H & _). lia.
    + rewrite IH. split.
      * intros [->|(j & Hj & H)].
        -- exists O. split; [lia|reflexivity].
        -- exists (S j). split; [lia|exact H].
      * intros (j & Hj & H). destruct j as [|j]; simpl in H.
        -- left. congruence.
        -- right. exists j. split; [lia|exact H].
Qed.

Lemma duplicated_nth rs i r :
  nth_error rs i = Some r ->
  (nth_error (duplicated rs) i = Some true <->
   exists j, (j < i)%nat /\ nth_error rs j = Some r).
Proof.
  intros H. unfold duplicated.
  rewrite (duplicated_from_nth rs [] i r H), app_nil_r.
  rewrite <- in_firstn_nth_error, (in_rev (firstn i rs)).
  destruct (in_dec row_eq_dec r (rev (firstn i rs))); split; intros; auto;
    try discriminate; contradiction.
Qed.

Lemma true_positions_spec mask : forall i k,
  In k (true_positions i mask) <->
  (i <= k)%nat /\ nth_error mask (k - i) = Some true.
Proof.
  induction mask as [|b mask IH]; intros i k; simpl.
  - split; [intros []|]. intros [_ H]. destruct (k - i)%nat; discriminate.
  - assert (Hrec : In k (true_positions (S i) mask) <->
                   (i < k)%nat /\ nth_error mask (k - S i) = Some true).
    { rewrite IH. split; intros [? ?]; split; auto; lia. }
    destruct b; simpl; rewrite Hrec; split.
    + intros [<-|[Hk H]].
      * split; [lia|]. replace (i - i)%nat with O by lia. reflexivity.
      * split; [lia|]. replace (k - i)%nat with (S (k - S i)) by lia.
        exact H.
    + intros [Hk H]. destruct (Nat.eq_dec i k) as [|Hne]; [left; auto|].
      right. split; [lia|].
      replace (k - i)%nat with (S (k - S i)) in H by lia. exact H.
    + intros [Hk H]. split; [lia|].
      replace (k - i)%nat with (S (k - S i)) by lia. exact H.
    + intros [Hk H]. destruct (Nat.eq_dec i k) as [->|Hne].
      * replace (k - k)%nat with O in H by lia. discriminate.
      * split; [lia|].
        replace (k - i)%nat with (S (k - S i)) in H by lia. exact H.
Qed.

Lemma true_positions_sorted mask : forall i,
  StronglySorted lt (true_positions i mask).
Proof.
  induction mask as [|b mask IH]; intros i; simpl.
  - constructor.
  - destruct b; [|apply IH]. constructor; [apply IH|].
    apply Forall_forall. intros k Hk.
    apply true_positions_spec in Hk. lia.
Qed.

Lemma select_true_positions {A} (mask : list bool) : forall (pre l : list A),
  length mask = length l ->
  map (nth_error (pre ++ l)) (true_positions (length pre) mask)
  = map Some (select mask l).
Proof.
  induction mask as [|b mask IH]; intros pre l Hlen; simpl; [reflexivity|].
  destruct l as [|x l]; [discriminate|]. simpl in Hlen.
  specialize (IH (pre ++ [x]) l ltac:(lia)).
  rewrite <- app_assoc, length_app in IH. simpl in IH.
  rewrite Nat.add_1_r in IH.
  destruct b; simpl; rewrite IH; [|reflexivity].
  f_equal. rewrite nth_error_app2 by lia.
  rewrite Nat.sub_diag. reflexivity.
Qed.

Lemma nth_error_Some_lt {A} (l : list A) i x :
  nth_error l i = Some x -> (i < length l)%nat.
Proof. intros H. apply nth_error_Some. congruence. Qed.

Lemma kept_positions_spec rs i :
  In i (kept_positions rs) <->
  (i < length rs)%nat /\
  ~ exists j, (j < i)%nat /\ nth_error rs j = nth_error rs i.
Proof.
  unfold kept_positions. rewrite true_positions_spec, Nat.sub_0_r.
  rewrite nth_error_map. split.
  - intros [_ H].
    destruct (nth_error (duplicated rs) i) as [b|] eqn:Hb; [|discriminate].
    simpl in H. injection H as H. apply negb_true_iff in H. subst b.
    assert (Hi : (i < length rs)%nat).
    { apply nth_error_Some_lt in Hb. unfold duplicated in Hb.
      rewrite duplicated_from_length in Hb. exact Hb. }
    split; [exact Hi|]. intros (j & Hj & E).
    destruct (nth_error rs i) as [r|] eqn:Hr.
    + assert (D : nth_error (duplicated rs) i = Some true).
      { apply (duplicated_nth rs i r Hr). exists j. split; assumption. }
      congruence.
    + apply nth_error_None in Hr. lia.
  - intros [Hi Hno]. split; [lia|].
    destruct (nth_error rs i) as [r|] eqn:Hr.
    2:{ apply nth_error_None in Hr. lia. }
    destruct (nth_error (duplicated rs) i) as [b|] eqn:Hb.
    + destruct b; [|reflexivity]. exfalso. apply Hno.
      apply (duplicated_nth rs i r Hr) in Hb.
      destruct Hb as (j & Hj & E). exists j. split; [exact Hj|exact E].
    + apply nth_error_None in Hb. unfold duplicated in Hb.
      rewrite duplicated_from_length in Hb. lia.
Qed.

Lemma kept_positions_rows rs :
  map (nth_error rs) (kept_positions rs)
  = map Some (drop_duplicate_rows rs).
Proof.
  unfold kept_positions, drop_duplicate_rows.
  apply (select_true_positions (map negb (duplicated rs)) [] rs).
  rewrite length_map. apply duplicated_from_length.
Qed.

Lemma drop_from_in seen rs : forall r,
  In r (select (map negb (duplicated_from seen rs)) rs) ->
  In r rs /\ ~ In r seen.
Proof.
  revert seen; induction rs as [|r0 rs IH]; intros seen r; simpl.
  - intros [].
  - destruct (in_dec row_eq_dec r0 seen) as [Hin|Hout]; simpl.
    + intros H. apply IH in H. destruct H as [H1 H2]. split; [right; exact H1|].
      intros C. apply H2. right. exact C.
    + intros [<-|H]; [split; [left; reflexivity|exact Hout]|].
      apply IH in H. destruct H as [H1 H2]. split; [right; exact H1|].
      intros C. apply H2. right. exact C.
Qed.

Lemma drop_from_NoDup seen rs :
  NoDup (select (map negb (duplicated_from seen rs)) rs).
Proof.
  revert seen; induction rs as [|r0 rs IH]; intros seen; simpl.
  - constructor.
  - destruct (in_dec row_eq_dec r0 seen); simpl; [apply IH|].
    constructor; [|apply IH].
    intros C. apply drop_from_in in C. apply (proj2 C). left. reflexivity.
Qed.

Lemma duplicated_from_fresh rs : forall seen,
  NoDup rs -> (forall r, In r rs -> ~ In r seen) ->
  duplicated_from seen rs = repeat false (length rs).
Proof.
  induction rs as [|r0 rs IH]; intros seen Hnd Hfresh; simpl; [reflexivity|].
  inversion Hnd as [|? ? Hnotin Hnd']; subst.
  destruct (in_dec row_eq_dec r0 seen) as [Hin|_].
  - exfalso. apply (Hfresh r0); [left; reflexivity|exact Hin].
  - f_equal. apply IH; [exact Hnd'|].
    intros r Hr [<-|C]; [contradiction|].
    apply (Hfresh r); [right; exact Hr|exact C].
Qed.

Lemma select_all {A} (l : list A) :
  select (map negb (repeat false (length l))) l = l.
Proof. induction l as [|x l IH]; simpl; [reflexivity|]. now rewrite IH. Qed.

Lemma mask_sum_none n : mask_sum (repeat false n) = O.
Proof. induction n; simpl; auto. Qed.

Lemma duplicated_NoDup rs :
  NoDup rs -> duplicated rs = repeat false (length rs).
Proof. intros H. apply duplicated_from_fresh; [exact H|]. intros ? ? []. Qed.

Lemma drop_duplicate_rows_NoDup rs : NoDup (drop_duplicate_rows rs).
Proof. apply drop_from_NoDup. Qed.

Lemma drop_duplicate_rows_fixed rs :
  NoDup rs -> drop_duplicate_rows rs = rs.
Proof.
  intros H. unfold drop_duplicate_rows.
  rewrite (duplicated_NoDup rs H). apply select_all.
Qed.

Lemma drop_duplicate_rows_idempotent rs :
  drop_duplicate_rows (drop_duplicate_rows rs) = drop_duplicate_rows rs.
Proof. apply drop_duplicate_rows_fixed, drop_duplicate_rows_NoDup. Qed.

(** ** The cleaner: what a finished run did *)

Lemma clean_frame_finished df rep :
  clean_frame df = Finished rep ->
  (length (columns df) <= 14)%nat /\
  warned rep = negb (Nat.eqb (length (columns df)) 14) /\
  columns (df_cleaned rep)
  = firstn (length (columns df)) new_column_names /\
  rows (df_cleaned rep) = drop_duplicate_rows (rows df) /\
  num_duplicates rep = mask_sum (duplicated (rows df)) /\
  original_rows rep = length (rows df) /\
  cleaned_rows rep = length (rows (df_cleaned rep)) /\
  total_rows_removed rep = (original_rows rep - cleaned_rows rep)%nat /\
  saved rep = to_csv (df_cleaned rep).
Proof.
  unfold clean_frame, set_columns.
  change (length new_column_names) with 14%nat.
  destruct (Nat.eqb (length (columns df)) 14) eqn:E14.
  - apply Nat.eqb_eq in E14.
    rewrite E14. simpl. intros H. injection H as <-. simpl.
    repeat split; try reflexivity; lia.
  - rewrite length_firstn.
    change (length new_column_names) with 14%nat.
    destruct (Nat.eqb (Nat.min (length (columns df)) 14)
                      (length (columns df))) eqn:Emin; [|discriminate].
    apply Nat.eqb_eq in Emin. simpl rows. simpl columns.
    destruct (has_column _ _); [|discriminate].
    intros H. injection H as <-. simpl.
    repeat split; try reflexivity; lia.
Qed.

Lemma clean_frame_too_many_columns df :
  (14 < length (columns df))%nat -> clean_frame df = Raised ValueError.
Proof.
  intros H. unfold clean_frame, set_columns.
  change (length new_column_names) with 14%nat.
  destruct (Nat.eqb (length (columns df)) 14) eqn:E14.
  - apply Nat.eqb_eq in E14. lia.
  - rewrite length_firstn.
    change (length new_column_names) with 14%nat.
    destruct (Nat.eqb (Nat.min (length (columns df)) 14)
                      (length (columns df))) eqn:Emin; [|reflexivity].
    apply Nat.eqb_eq in Emin. lia.
Qed.

Lemma index_of_firstn_username n :
  (3 <= n)%nat ->
  index_of "username" (firstn n new_column_names) = Some 2%nat.
Proof.
  intros H. do 3 (destruct n as [|n]; [lia|]). reflexivity.
Qed.

Lemma clean_frame_fewer_columns df :
  (3 <= length (columns df) < 14)%nat ->
  exists rep, clean_frame df = Finished rep /\ warned rep = true.
Proof.
  intros H. unfold clean_frame, set_columns.
  change (length new_column_names) with 14%nat.
  destruct (Nat.eqb (length (columns df)) 14) eqn:E14.
  - apply Nat.eqb_eq in E14. lia.
  - rewrite length_firstn.
    change (length new_column_names) with 14%nat.
    replace (Nat.min (length (columns df)) 14) with (length (columns df))
      by lia.
    rewrite Nat.eqb_refl. unfold has_column. simpl columns.
    rewrite index_of_firstn_username by lia.
    eexists. split; reflexivity.
Qed.

Lemma clean_frame_no_username_column df :
  (length (columns df) < 3)%nat ->
  clean_frame df = Raised (KeyError "username").
Proof.
  intros H. unfold clean_frame, set_columns.
  change (length new_column_names) with 14%nat.
  destruct (columns df) as [|c1 [|c2 [|c3 cs]]]; simpl in *;
    try reflexivity; lia.
Qed.

(** ** The cleaner run on its own output *)

Lemma parse_print_cell na c :
  In "" na ->
  (forall s, c = Some s -> ~ In s na) ->
  parse_cell na (print_cell c) = c.
Proof.
  intros Hempty Hc. unfold parse_cell. destruct c as [s|]; simpl.
  - destruct (in_dec string_dec s na) as [Hin|_]; [|reflexivity].
    exfalso. exact (Hc s eq_refl Hin).
  - destruct (in_dec string_dec "" na); [reflexivity|contradiction].
Qed.

Lemma parse_cell_not_na na s t : parse_cell na s = Some t -> ~ In t na.
Proof.
  unfold parse_cell. destruct (in_dec string_dec s na); [discriminate|].
  intros H. injection H as <-. assumption.
Qed.

(** Every text cell of a frame that was read is not an NA token. *)
Definition no_na_token (na : list string) (r : row) : Prop :=
  forall c s, In c r -> c = Some s -> ~ In s na.

Lemma read_csv_no_na_token na f r :
  In r (rows (read_csv na f)) -> no_na_token na r.
Proof.
  simpl. intros H. apply in_map_iff in H. destruct H as (raw & <- & _).
  intros c s Hc ->. apply in_map_iff in Hc. destruct Hc as (t & Ht & _).
  exact (parse_cell_not_na na t s Ht).
Qed.

Lemma read_to_csv na df :
  In "" na ->
  (forall r, In r (rows df) -> no_na_token na r) ->
  read_csv na (to_csv df) = df.
Proof.
  intros Hempty H. destruct df as [cols rs]. unfold read_csv, to_csv.
  simpl in *. f_equal. rewrite map_map.
  rewrite <- (map_id rs) at 2. apply map_ext_in. intros r Hr.
  rewrite map_map. rewrite <- (map_id r) at 2. apply map_ext_in.
  intros c Hc. apply parse_print_cell; [exact Hempty|].
  intros s Hs. exact (H r Hr c s Hc Hs).
Qed.

Lemma clean_frame_again df rep :
  clean_frame df = Finished rep ->
  exists rep',
    clean_frame (df_cleaned rep) = Finished rep' /\
    df_cleaned rep' = df_cleaned rep /\
    saved rep' = saved rep /\
    num_duplicates rep' = O /\
    total_rows_removed rep' = O.
Proof.
  intros H. pose proof (clean_frame_finished df rep H)
    as (Hn & _ & Hcols & Hrows & _ & _ & _ & _ & Hsaved).
  assert (Hhas : has_column (df_cleaned rep) "username" = true).
  { revert H. unfold clean_frame.
    destruct (if Nat.eqb _ _ then _ else _) as [e|df']; [discriminate|].
    match goal with |- context [has_column ?c _] => set (cl := c) end.
    destruct (has_column cl "username") eqn:E; [|discriminate].
    intros H. injection H as <-. exact E. }
  destruct (df_cleaned rep) as [cols rs] eqn:Ecl. simpl in Hcols, Hrows.
  assert (Hlen : length cols = length (columns df)).
  { rewrite Hcols, length_firstn.
    change (length new_column_names) with 14%nat. lia. }
  assert (Hnd : NoDup rs) by (rewrite Hrows; apply drop_duplicate_rows_NoDup).
  assert (Hren :
    (if Nat.eqb (length cols) (length new_column_names)
     then set_columns (mkDF cols rs) new_column_names
     else set_columns (mkDF cols rs)
            (firstn (length cols) new_column_names))
    = inr (mkDF cols rs)).
  { unfold set_columns. simpl columns. simpl rows.
    change (length new_column_names) with 14%nat.
    destruct (Nat.eqb (length cols) 14) eqn:E14.
    - apply Nat.eqb_eq in E14.
      assert (cols = new_column_names) as ->.
      { rewrite Hcols, <- Hlen, E14. reflexivity. }
      reflexivity.
    - rewrite Hlen, <- Hcols, Hlen, Nat.eqb_refl. reflexivity. }
  unfold clean_frame. simpl columns. simpl rows. rewrite Hren.
  simpl columns. simpl rows.
  rewrite (duplicated_NoDup rs Hnd), select_all.
  rewrite Hhas. eexists. split; [reflexivity|]. simpl.
  rewrite mask_sum_none, Nat.sub_diag.
  repeat split. rewrite Hsaved. reflexivity.
Qed.

(** ** Claims on the cleaner *)

(** C6.  The cleaner removes a row of the loaded frame exactly when an
    earlier row has the same cells, compared as they are (rows are equal
    when each cell of one is the corresponding cell of the other, NaN
    with NaN and a text with the very same text).  The rows it keeps are the
    rows at the positions [ks] that no equal row precedes, so the first
    occurrence of each content, and [ks] is increasing: the kept rows
    are in the order of the input. *)
Theorem cleaner_removes_exact_repeats (df : DataFrame) (rep : clean_report) :
  clean_frame df = Finished rep ->
  let rs := rows df in
  (forall i r, nth_error rs i = Some r ->
     (nth_error (duplicated rs) i = Some true <->
      exists j, (j < i)%nat /\ nth_error rs j = Some r)) /\
  exists ks : list nat,
    StronglySorted lt ks /\
    (forall i, In i ks <->
       (i < length rs)%nat /\
       ~ exists j, (j < i)%nat /\ nth_error rs j = nth_error rs i) /\
    map (nth_error rs) ks = map Some (rows (df_cleaned rep)) /\
    num_duplicates rep = (length rs - length ks)%nat.
Proof.
  intros H rs. subst rs. set (rs := rows df) in *.
  pose proof (clean_frame_finished df rep H)
    as (_ & _ & _ & Hrows & Hnum & _). fold rs in Hrows, Hnum.
  split; [intros i r; apply duplicated_nth|].
  exists (kept_positions rs). split; [apply true_positions_sorted|].
  split; [apply kept_positions_spec|]. split.
  - rewrite Hrows. apply kept_positions_rows.
  - rewrite Hnum. unfold kept_positions, mask_sum.
    assert (G : forall i mask,
      length (filter (fun b : bool => b) mask)
      = (length mask - length (true_positions i (map negb mask)))%nat
      /\ (length (true_positions i (map negb mask)) <= length mask)%nat).
    { intros i mask; revert i.
      induction mask as [|b mask IH]; intros i; [simpl; split; lia|].
      destruct (IH (S i)) as [IH1 IH2].
      destruct b; cbn [filter map negb true_positions length];
        split; lia. }
    rewrite (proj1 (G O (duplicated rs))). unfold duplicated.
    rewrite duplicated_from_length. reflexivity.
Qed.

Lemma cleaner_removes_exact_repeats_witness :
  exists rep,
    clean_frame (read_csv default_na_values scenario) = Finished rep /\
    rows (df_cleaned rep)
    = map (map (parse_cell default_na_values))
          [ comment_record "ig/u1" "u1" "a" "b" "c" "Reply";
            comment_record "ig/u1" "u1" "d" "e" "f" "2 likes";
            comment_record "ig/u2" "u2" "a" "b" "c" "1 like";
            comment_record "ig/u3" "u3" "a" "b" "" "7 likes" ] /\
    exists ks : list nat,
      StronglySorted lt ks /\
      (forall i, In i ks <->
         (i < 5)%nat /\
         ~ exists j, (j < i)%nat /\
             nth_error (rows (read_csv default_na_values scenario)) j
             = nth_error (rows (read_csv default_na_values scenario)) i) /\
      map (nth_error (rows (read_csv default_na_values scenario))) ks
      = map Some (rows (df_cleaned rep)) /\
      num_duplicates rep = (5 - length ks)%nat.
Proof.
  eexists. split; [vm_compute; reflexivity|].
  split; [vm_compute; reflexivity|].
  exact (proj2 (cleaner_removes_exact_repeats
                  (read_csv default_na_values scenario) _ eq_refl)).
Defined.

Lemma scenario_cleaned :
  exists rep,
    advanced_clean_instagram_csv default_na_values (Some scenario)
    = Finished rep /\
    saved rep = cleaned_scenario /\ warned rep = false /\
    num_duplicates rep = 1%nat /\ unique_participants rep = 3%nat.
Proof. eexists. split; [reflexivity|]. repeat split. Qed.

(** Rows that differ by a space or by the case of a letter are not
    duplicates of each other. *)
Example near_duplicates_are_kept :
  drop_duplicate_rows [[Some "u1"; Some "nice"]; [Some "u1"; Some "nice "];
                       [Some "U1"; Some "nice"]; [Some "u1"; None]]
  = [[Some "u1"; Some "nice"]; [Some "u1"; Some "nice "];
     [Some "U1"; Some "nice"]; [Some "u1"; None]].
Proof. reflexivity. Qed.

(** C7.  Duplicate removal applied to its own output removes nothing:
    on the rows, and for the script run on the file it saved. *)
Theorem normalizer_idempotent :
  (forall rs : list row,
     drop_duplicate_rows (drop_duplicate_rows rs) = drop_duplicate_rows rs /\
     mask_sum (duplicated (drop_duplicate_rows rs)) = O) /\
  (forall na f rep,
     In "" na ->
     advanced_clean_instagram_csv na (Some f) = Finished rep ->
     exists rep',
       advanced_clean_instagram_csv na (Some (saved rep)) = Finished rep' /\
       saved rep' = saved rep /\
       df_cleaned rep' = df_cleaned rep /\
       num_duplicates rep' = O /\
       total_rows_removed rep' = O).
Proof.
  split.
  - intros rs. split; [apply drop_duplicate_rows_idempotent|].
    rewrite (duplicated_NoDup _ (drop_duplicate_rows_NoDup rs)).
    apply mask_sum_none.
  - intros na f rep Hempty H. simpl in H.
    destruct (clean_frame_again _ _ H) as (rep' & H' & Hdf & Hsaved & Hn & Ht).
    exists rep'. simpl.
    pose proof (clean_frame_finished _ _ H)
      as (_ & _ & _ & Hrows & _ & _ & _ & _ & Hs).
    rewrite Hs, read_to_csv; [rewrite <- Hs; auto|exact Hempty|].
    intros r Hr. rewrite Hrows in Hr. apply drop_from_in in Hr.
    exact (read_csv_no_na_token na f r (proj1 Hr)).
Qed.

Lemma normalizer_idempotent_witness :
  exists rep rep',
    advanced_clean_instagram_csv default_na_values (Some scenario)
    = Finished rep /\
    num_duplicates rep = 1%nat /\
    advanced_clean_instagram_csv default_na_values (Some (saved rep))
    = Finished rep' /\
    saved rep' = saved rep /\
    num_duplicates rep' = O.
Proof.
  eexists.
  destruct (proj2 normalizer_idempotent default_na_values scenario _
              (or_introl eq_refl) eq_refl)
    as (rep' & H1 & H2 & _ & H3 & _).
  exists rep'. split; [reflexivity|]. split; [reflexivity|].
  split; [exact H1|]. split; [exact H2|exact H3].
Defined.

(** C8.  A frame with more columns than the fourteen names makes the
    assignment of the truncated name list raise [ValueError]: the run
    neither drops the columns in excess nor goes on. *)
Theorem column_excess_raises (na : list string) (f : csv) :
  (14 < length (header f))%nat ->
  advanced_clean_instagram_csv na (Some f) = Raised ValueError.
Proof. intros H. simpl. apply clean_frame_too_many_columns. exact H. Qed.

Lemma column_excess_raises_witness :
  (14 < length (header wide_scrape))%nat /\
  advanced_clean_instagram_csv default_na_values (Some wide_scrape)
  = Raised ValueError.
Proof.
  split; [simpl; lia|].
  apply (column_excess_raises default_na_values wide_scrape). simpl. lia.
Defined.

(** With three to thirteen columns the run warns and finishes, under the
    first names of the list; with fewer than three it has no [username]
    column to count and raises [KeyError]. *)
Lemma column_shortage (df : DataFrame) :
  ((3 <= length (columns df) < 14)%nat ->
   exists rep, clean_frame df = Finished rep /\ warned rep = true /\
     columns (df_cleaned rep)
     = firstn (length (columns df)) new_column_names) /\
  ((length (columns df) < 3)%nat ->
   clean_frame df = Raised (KeyError "username")).
Proof.
  split; [|apply clean_frame_no_username_column].
  intros H. destruct (clean_frame_fewer_columns df H) as (rep & Hr & Hw).
  exists rep. split; [exact Hr|]. split; [exact Hw|].
  apply (clean_frame_finished df rep Hr).
Qed.

(** ** The validator: likes and weights *)

Lemma take_digits_all s : all_digits (take_digits s).
Proof.
  unfold all_digits. induction s as [|c s IH]; simpl; [reflexivity|].
  destruct (is_digit c) eqn:E; simpl; [|reflexivity]. now rewrite E.
Qed.

Lemma take_digits_split s :
  exists post,
    s = (take_digits s ++ post)%string /\
    (post = "" \/ exists c post', post = String c post' /\ is_digit c = false).
Proof.
  induction s as [|c s (post & Hs & Hpost)]; simpl.
  - exists "". split; [reflexivity|left; reflexivity].
  - destruct (is_digit c) eqn:E.
    + exists post. simpl. split; [now rewrite <- Hs|exact Hpost].
    + exists (String c s). split; [reflexivity|].
      right. exists c, s. split; [reflexivity|exact E].
Qed.

Lemma take_digits_run run post :
  all_digits run ->
  (post = "" \/ exists c post', post = String c post' /\ is_digit c = false) ->
  take_digits (run ++ post)%string = run.
Proof.
  unfold all_digits. induction run as [|c run IH]; simpl; intros Hd Hpost.
  - destruct Hpost as [->|(c & post' & -> & E)]; simpl; [reflexivity|].
    now rewrite E.
  - apply andb_true_iff in Hd. destruct Hd as [Hc Hd].
    rewrite Hc. f_equal. apply IH; assumption.
Qed.

Lemma search_digits_none s : search_digits s = None <-> no_digit s.
Proof.
  unfold no_digit. induction s as [|c s IH]; simpl.
  - split; reflexivity.
  - destruct (is_digit c); simpl; [split; discriminate|exact IH].
Qed.

Lemma search_digits_run s run :
  search_digits s = Some run <-> first_maximal_run s run.
Proof.
  split.
  - revert run. induction s as [|c s IH]; simpl; intros run H; [discriminate|].
    destruct (is_digit c) eqn:E.
    + injection H as <-. split; [discriminate|]. split.
      * unfold all_digits. simpl. rewrite E. apply take_digits_all.
      * destruct (take_digits_split s) as (post & Hs & Hpost).
        exists "", post. simpl. split; [now rewrite <- Hs|].
        split; [reflexivity|exact Hpost].
    + destruct (IH run H) as (Hne & Hd & pre & post & Hs & Hpre & Hpost).
      split; [exact Hne|]. split; [exact Hd|].
      exists (String c pre), post. simpl. split; [now rewrite Hs|].
      split; [|exact Hpost]. unfold no_digit in *. simpl. now rewrite E.
  - intros (Hne & Hd & pre & post & -> & Hpre & Hpost).
    unfold no_digit in Hpre. induction pre as [|c pre IH]; simpl.
    + destruct run as [|c run]; [contradiction|]. simpl.
      unfold all_digits in Hd. simpl in Hd.
      apply andb_true_iff in Hd. destruct Hd as [Hc Hd].
      rewrite Hc. now rewrite take_digits_run.
    + simpl in Hpre. apply andb_true_iff in Hpre. destruct Hpre as [Hc Hpre].
      apply negb_true_iff in Hc. rewrite Hc. apply IH. exact Hpre.
Qed.

Lemma int_of_digits_decimal s : forall acc,
  int_of_digits acc s = acc * 10 ^ Z.of_nat (String.length s) + decimal s.
Proof.
  induction s as [|c s IH]; intros acc; simpl String.length.
  - simpl. lia.
  - cbn [int_of_digits decimal]. rewrite IH.
    rewrite Nat2Z.inj_succ, Z.pow_succ_r by lia. ring.
Qed.

Lemma is_digit_value c : is_digit c = true -> 0 <= digit_value c <= 9.
Proof.
  unfold is_digit, digit_value. intros H.
  apply andb_true_iff in H. destruct H as [H1 H2].
  apply Nat.leb_le in H1, H2. lia.
Qed.

Lemma decimal_nonneg s : all_digits s -> 0 <= decimal s.
Proof.
  unfold all_digits. induction s as [|c s IH]; simpl; intros H; [lia|].
  apply andb_true_iff in H. destruct H as [Hc Hs].
  pose proof (is_digit_value c Hc). specialize (IH Hs).
  assert (0 <= 10 ^ Z.of_nat (String.length s)) by (apply Z.pow_nonneg; lia).
  nia.
Qed.

(** The likes of a cell are the likes that the specification reads off
    it, and no other number is. *)
Lemma likes_of_cell_spec (c : cell) :
  parsed_likes c (fillna0_astype_int (str_extract c)) /\
  (forall n, parsed_likes c n -> n = fillna0_astype_int (str_extract c)) /\
  0 <= fillna0_astype_int (str_extract c).
Proof.
  destruct c as [s|]; simpl.
  2:{ split; [constructor|]. split; [|lia]. intros n H. now inversion H. }
  destruct (search_digits s) as [run|] eqn:E; simpl.
  - pose proof (proj1 (search_digits_run s run) E) as Hrun.
    rewrite int_of_digits_decimal. simpl (0 * _ + _).
    split; [now constructor|]. split.
    + intros n H. inversion H as [|? Hno|? run' Hrun']; subst.
      * apply search_digits_none in Hno. congruence.
      * apply search_digits_run in Hrun'. congruence.
    + apply decimal_nonneg. apply Hrun.
  - pose proof (proj1 (search_digits_none s) E) as Hno.
    split; [now constructor|]. split; [|lia].
    intros n H. inversion H as [|? _|? run' Hrun']; subst; [reflexivity|].
    apply search_digits_run in Hrun'. congruence.
Qed.

Lemma add_comment_likes_spec df e :
  In e (add_comment_likes df) ->
  In (s_row e) (rows df) /\
  comment_likes e
  = fillna0_astype_int (str_extract (engagement_raw df (s_row e))).
Proof.
  unfold add_comment_likes, engagement_raw.
  destruct (has_column df "action_type"); intros H;
    apply in_map_iff in H; destruct H as (r & <- & Hr); simpl; auto.
Qed.

Lemma valid_entries_spec df es e :
  In e (valid_entries df es) <->
  In e es /\ all_mentions_notna (columns df) (s_row e) = true.
Proof. unfold valid_entries. apply filter_In. Qed.

(** The sample fields of the specification. *)
Example likes_of_sample_fields :
  map (fun c => fillna0_astype_int (str_extract c))
      [ Some "Liked by 5 people"; Some "No likes text"; None;
        Some "12 and 34"; Some ""; Some "007" ]
  = [5; 0; 0; 12; 0; 7].
Proof. reflexivity. Qed.

(** ** The validator: three mentions *)

Lemma nth_Some_in (r : row) i s : nth i r None = Some s -> In (Some s) r.
Proof.
  intros H. destruct (nth_in_or_default i r None) as [Hin|Hd];
    [rewrite H in Hin; exact Hin|congruence].
Qed.

Lemma get_Some_in cols name (r : row) s :
  get cols name r = Some s -> In (Some s) r.
Proof.
  unfold get. destruct (index_of name cols); [apply nth_Some_in|discriminate].
Qed.

Lemma get_parsed na cols name raw i :
  index_of name cols = Some i ->
  get cols name (map (parse_cell na) raw)
  = match nth_error raw i with
    | Some t => parse_cell na t
    | None => None
    end.
Proof.
  intros H. unfold get. rewrite H. clear H. revert i.
  induction raw as [|t raw IH]; intros [|i]; simpl; auto.
Qed.

Lemma all_mentions_notna_spec cols r :
  all_mentions_notna cols r = true <->
  forall m, In m mention_columns -> exists s, get cols m r = Some s.
Proof.
  unfold all_mentions_notna, mention_columns. split.
  - intros H. apply andb_true_iff in H. destruct H as [H H3].
    apply andb_true_iff in H. destruct H as [H1 H2].
    intros m [<-|[<-|[<-|[]]]];
      match goal with
      | |- exists _, ?c = _ =>
          destruct c as [s|]; [exists s; reflexivity|discriminate]
      end.
  - intros H.
    destruct (H "mentioned_user_1_username") as [s1 ->]; [simpl; auto|].
    destruct (H "mentioned_user_2_username") as [s2 ->]; [simpl; auto|].
    destruct (H "mentioned_user_3_username") as [s3 ->]; [simpl; auto|].
    reflexivity.
Qed.

(** C4.  A row of the loaded frame is a valid entry exactly when each of
    its three mention cells holds a text, and such a text is never
    empty: [read_csv] reads an empty field as NaN, so a row with a
    missing mention and a row with a blank mention are both rejected. *)
Theorem valid_iff_three_mentions_nonempty
    (na : list string) (f : csv) (e : scored) :
  In "" na ->
  In e (add_comment_likes (read_csv na f)) ->
  let df := read_csv na f in
  let valid := valid_entries df (add_comment_likes df) in
  (In e valid <->
   forall m, In m mention_columns ->
     exists s, get (columns df) m (s_row e) = Some s /\ s <> "") /\
  (forall m, In m mention_columns ->
     get (columns df) m (s_row e) = None -> ~ In e valid) /\
  (forall m i raw, In m mention_columns ->
     index_of m (header f) = Some i ->
     nth_error raw i = Some "" ->
     s_row e = map (parse_cell na) raw -> ~ In e valid).
Proof.
  intros Hempty He df valid.
  assert (Hiff : In e valid <->
                 forall m, In m mention_columns ->
                   exists s, get (columns df) m (s_row e) = Some s).
  { unfold valid. rewrite valid_entries_spec, all_mentions_notna_spec.
    tauto. }
  assert (Hnone : forall m, In m mention_columns ->
                    get (columns df) m (s_row e) = None -> ~ In e valid).
  { intros m Hm Hnone Hin. destruct (proj1 Hiff Hin m Hm) as [s Hs].
    congruence. }
  split; [|split].
  - rewrite Hiff. split.
    + intros H m Hm. destruct (H m Hm) as [s Hs]. exists s.
      split; [exact Hs|]. intros ->.
      apply add_comment_likes_spec in He. destruct He as [Hr _].
      apply (read_csv_no_na_token na f (s_row e) Hr (Some "") "");
        [exact (get_Some_in _ _ _ _ Hs)|reflexivity|exact Hempty].
    + intros H m Hm. destruct (H m Hm) as (s & Hs & _). exists s. exact Hs.
  - exact Hnone.
  - intros m i raw Hm Hi Hraw Hrow. apply (Hnone m Hm).
    rewrite Hrow. unfold df. simpl columns.
    rewrite (get_parsed na (header f) m raw i Hi), Hraw.
    unfold parse_cell.
    destruct (in_dec string_dec "" na); [reflexivity|contradiction].
Qed.

Lemma valid_iff_three_mentions_nonempty_witness :
  let na := default_na_values in
  let df := read_csv na cleaned_scenario in
  let valid := valid_entries df (add_comment_likes df) in
  let full := mkScored (map (parse_cell na)
                (comment_record "ig/u2" "u2" "a" "b" "c" "1 like")) 1 in
  let blank := mkScored (map (parse_cell na)
                (comment_record "ig/u3" "u3" "a" "b" "" "7 likes")) 7 in
  In full valid /\ ~ In blank valid.
Proof.
  intros na df valid full blank. split.
  - apply (proj1 (valid_iff_three_mentions_nonempty na cleaned_scenario full
                    (or_introl eq_refl)
                    (or_intror (or_intror (or_introl eq_refl))))).
    intros m [<-|[<-|[<-|[]]]]; eexists; (split; [reflexivity|discriminate]).
  - apply (proj2 (proj2 (valid_iff_three_mentions_nonempty na
                    cleaned_scenario blank
                    (or_introl eq_refl)
                    (or_intror (or_intror (or_intror (or_introl eq_refl))))))
             "mentioned_user_3_username" 10%nat
             (comment_record "ig/u3" "u3" "a" "b" "" "7 likes"));
      [simpl; auto|reflexivity|reflexivity|reflexivity].
Defined.

(** The test looks at the presence of a cell only: a mention made of
    spaces is a text like any other. *)
Example mention_of_spaces_is_accepted :
  let df := read_csv default_na_values
              {| header := new_column_names;
                 records := [comment_record "ig/u1" "u1" "a" " " "c" ""] |} in
  length (valid_entries df (add_comment_likes df)) = 1%nat.
Proof. reflexivity. Qed.

(** ** The sampler: one variate *)

Lemma cdf_entry_le (c total : Z) (x : Q) :
  0 < total ->
  (Qle_bool (inject_Z c / inject_Z total) x = true <->
   c * QDen x <= Qnum x * total).
Proof.
  intros Ht. rewrite Qle_bool_iff.
  destruct total as [|t|t]; try lia.
  unfold Qle, Qdiv, Qmult, Qinv, inject_Z. simpl.
  rewrite Z.mul_1_r. reflexivity.
Qed.

Lemma unit_interval (x : Q) :
  (0 <= x < 1)%Q <-> 0 <= Qnum x < QDen x.
Proof. unfold Qle, Qlt. simpl. rewrite !Z.mul_1_r. lia. Qed.

Lemma last_cumsum_from p : forall acc d,
  p <> [] -> last (cumsum_from acc p) d = acc + sum_Z p.
Proof.
  induction p as [|w p IH]; intros acc d Hne; [contradiction|].
  destruct p as [|w' p].
  - simpl. lia.
  - change (last (cumsum_from acc (w :: w' :: p)) d)
      with (last (cumsum_from (acc + w) (w' :: p)) d).
    rewrite IH by discriminate. simpl. lia.
Qed.

Lemma sum_Z_nonneg p : Forall (fun w => 0 <= w) p -> 0 <= sum_Z p.
Proof. induction 1; simpl; lia. Qed.

Lemma sum_Z_cons w p : sum_Z (w :: p) = w + sum_Z p.
Proof. reflexivity. Qed.

Lemma prefix_sum_S i p :
  (i < length p)%nat -> prefix_sum (S i) p = prefix_sum i p + nth i p 0.
Proof.
  unfold prefix_sum. revert i. induction p as [|w p IH]; intros i H.
  - simpl in H. lia.
  - destruct i as [|i]; [simpl; lia|].
    simpl in H. specialize (IH i ltac:(lia)).
    rewrite !firstn_cons, !sum_Z_cons, IH. simpl nth. lia.
Qed.

Lemma prefix_sum_nonneg p i :
  Forall (fun w => 0 <= w) p -> 0 <= prefix_sum i p.
Proof.
  intros Hp. apply sum_Z_nonneg. apply Forall_forall. intros w Hw.
  apply in_firstn_nth_error in Hw. destruct Hw as (j & _ & Hj).
  apply nth_error_In in Hj. exact (proj1 (Forall_forall _ _) Hp w Hj).
Qed.

Lemma prefix_sum_mono p : forall i j,
  Forall (fun w => 0 <= w) p ->
  (i <= j)%nat -> prefix_sum i p <= prefix_sum j p.
Proof.
  induction p as [|w p IH]; intros i j Hp Hij.
  - unfold prefix_sum. rewrite !firstn_nil. lia.
  - destruct i as [|i].
    + apply (prefix_sum_nonneg (w :: p) j Hp).
    + destruct j as [|j]; [lia|]. inversion Hp; subst.
      unfold prefix_sum in *. rewrite !firstn_cons, !sum_Z_cons.
      specialize (IH i j ltac:(assumption) ltac:(lia)). lia.
Qed.

Lemma searchsorted_scan p : forall acc total x,
  0 < total -> Forall (fun w => 0 <= w) p ->
  acc * QDen x <= Qnum x * total ->
  Qnum x * total < (acc + sum_Z p) * QDen x ->
  let i :=
    searchsorted_right
      (map (fun ci => (inject_Z ci / inject_Z total)%Q) (cumsum_from acc p))
      x in
  (i < length p)%nat /\
  (acc + prefix_sum i p) * QDen x <= Qnum x * total /\
  Qnum x * total < (acc + prefix_sum (S i) p) * QDen x.
Proof.
  induction p as [|w p IH]; intros acc total x Ht Hp Hlo Hhi.
  - simpl in Hhi. lia.
  - inversion Hp as [|? ? Hw Hp']; subst. simpl cumsum_from. simpl map.
    simpl searchsorted_right.
    destruct (Qle_bool (inject_Z (acc + w) / inject_Z total) x) eqn:E.
    + apply (cdf_entry_le _ _ _ Ht) in E.
      destruct (IH (acc + w) total x Ht Hp' E) as (H1 & H2 & H3).
      { simpl in Hhi. rewrite <- Z.add_assoc. exact Hhi. }
      cbv zeta. split; [simpl; lia|].
      unfold prefix_sum in *. simpl firstn in *. simpl sum_Z.
      rewrite !Z.add_assoc. split; assumption.
    + assert (E' : ~ (acc + w) * QDen x <= Qnum x * total).
      { intros C. apply (cdf_entry_le _ _ _ Ht) in C. congruence. }
      cbv zeta. split; [simpl; lia|].
      unfold prefix_sum. simpl. rewrite Z.add_0_r. split; lia.
Qed.

(** A variate of the unit interval falls on a position of the array,
    between the cumulated weight in front of the position and the
    cumulated weight with it; the position carries weight. *)
Lemma searchsorted_cdf p x :
  Forall (fun w => 0 <= w) p -> 0 < sum_Z p -> (0 <= x < 1)%Q ->
  let i := searchsorted_right (cdf p) x in
  (i < length p)%nat /\
  prefix_sum i p * QDen x <= Qnum x * sum_Z p /\
  Qnum x * sum_Z p < prefix_sum (S i) p * QDen x /\
  0 < nth i p 0.
Proof.
  intros Hp Hsum Hx. apply unit_interval in Hx.
  assert (Hne : p <> []) by (intros ->; simpl in Hsum; lia).
  unfold cdf, cumsum. rewrite (last_cumsum_from p 0 0 Hne). simpl (0 + _).
  destruct (searchsorted_scan p 0 (sum_Z p) x Hsum Hp) as (H1 & H2 & H3);
    [lia|nia|].
  cbv zeta. simpl (0 + _) in *.
  split; [exact H1|]. split; [exact H2|]. split; [exact H3|].
  rewrite (prefix_sum_S _ _ H1) in H3.
  assert (0 < QDen x) by lia. nia.
Qed.

(** ** The sampler: the pool and the new positions of a round *)

Lemma zero_from_length found p : forall i,
  length (zero_from i found p) = length p.
Proof. induction p as [|w p IH]; intros i; simpl; auto. Qed.

Lemma zero_from_nth found p : forall i k,
  nth k (zero_from i found p) 0
  = if in_dec Nat.eq_dec (i + k)%nat found then 0 else nth k p 0.
Proof.
  induction p as [|w p IH]; intros i k; simpl.
  - destruct k; destruct (in_dec _ _ _); reflexivity.
  - destruct k as [|k].
    + rewrite Nat.add_0_r. reflexivity.
    + rewrite IH. replace (S i + k)%nat with (i + S k)%nat by lia.
      reflexivity.
Qed.

Lemma zero_from_nonneg found p : forall i,
  Forall (fun w => 0 <= w) p ->
  Forall (fun w => 0 <= w) (zero_from i found p).
Proof.
  induction p as [|w p IH]; intros i Hp; simpl; [constructor|].
  inversion Hp; subst. constructor; [|auto].
  destruct (in_dec _ _ _); lia.
Qed.

Lemma sum_Z_pos_nth q k :
  Forall (fun w => 0 <= w) q -> 0 < nth k q 0 -> 0 < sum_Z q.
Proof.
  intros Hq. revert k. induction Hq as [|w q Hw Hq IH]; intros k Hk.
  - destruct k; simpl in Hk; lia.
  - rewrite sum_Z_cons. pose proof (sum_Z_nonneg q Hq).
    destruct k as [|k]; simpl in Hk; [lia|].
    specialize (IH k Hk). lia.
Qed.

Lemma zero_at_pos found p k :
  Forall (fun w => 0 <= w) p ->
  ~ In k found -> 0 < nth k p 0 ->
  0 < sum_Z (zero_at found p).
Proof.
  intros Hp Hk Hw. apply (sum_Z_pos_nth _ k).
  - apply zero_from_nonneg. exact Hp.
  - unfold zero_at. rewrite zero_from_nth. simpl.
    destruct (in_dec Nat.eq_dec k found); [contradiction|exact Hw].
Qed.

Lemma count_positive_covered p : forall i fnd,
  (forall k, (k < length p)%nat -> 0 < nth k p 0 -> In (i + k)%nat fnd) ->
  (count_positive p <= length fnd)%nat.
Proof.
  unfold count_positive.
  induction p as [|w p IH]; intros i fnd H; simpl; [lia|].
  assert (Hrest : forall fnd',
            (forall k, (k < length p)%nat -> 0 < nth k p 0 ->
                       In (S i + k)%nat fnd') ->
            (length (filter (fun w => (0 <? w)%Z) p) <= length fnd')%nat)
    by (intros fnd'; apply IH).
  destruct (0 <? w) eqn:E.
  - apply Z.ltb_lt in E.
    assert (Hi : In i fnd).
    { specialize (H O). rewrite Nat.add_0_r in H. apply H; simpl; lia. }
    pose proof (remove_length_lt Nat.eq_dec fnd i Hi) as Hlt.
    specialize (Hrest (remove Nat.eq_dec i fnd)). simpl.
    enough (length (filter (fun w => (0 <? w)%Z) p)
            <= length (remove Nat.eq_dec i fnd))%nat by lia.
    apply Hrest. intros k Hk Hw. apply in_in_remove; [lia|].
    replace (S i + k)%nat with (i + S k)%nat by lia.
    apply H; simpl; [lia|exact Hw].
  - apply Hrest. intros k Hk Hw.
    replace (S i + k)%nat with (i + S k)%nat by lia.
    apply H; simpl; [lia|exact Hw].
Qed.

Lemma bounded_search (P : nat -> Prop) (dec : forall k, {P k} + {~ P k}) n :
  (exists k, (k < n)%nat /\ P k) \/ (forall k, (k < n)%nat -> ~ P k).
Proof.
  induction n as [|n [(k & Hk & HP)|IH]].
  - right. intros k Hk. lia.
  - left. exists k. split; [lia|exact HP].
  - destruct (dec n) as [HP|HP].
    + left. exists n. split; [lia|exact HP].
    + right. intros k Hk. destruct (Nat.eq_dec k n) as [->|]; [exact HP|].
      apply IH. lia.
Qed.

(** While fewer positions are found than carry weight, one that carries
    weight is still in the pool. *)
Lemma fresh_positive p fnd :
  (length fnd < count_positive p)%nat ->
  exists k, (k < length p)%nat /\ ~ In k fnd /\ 0 < nth k p 0.
Proof.
  intros Hlt.
  destruct (bounded_search (fun k => ~ In k fnd /\ 0 < nth k p 0)) with
    (n := length p) as [(k & Hk & H1 & H2)|Hnone].
  - intros k. destruct (in_dec Nat.eq_dec k fnd) as [Hin|Hout].
    + right. tauto.
    + destruct (Z_lt_dec 0 (nth k p 0)); [left|right]; tauto.
  - exists k. auto.
  - exfalso. pose proof (count_positive_covered p O fnd) as Hc.
    assert (count_positive p <= length fnd)%nat; [|lia].
    apply Hc. intros k Hk Hw. simpl.
    destruct (in_dec Nat.eq_dec k fnd) as [Hin|Hout]; [exact Hin|].
    exfalso. exact (Hnone k Hk (conj Hout Hw)).
Qed.

Lemma unique_from_in l : forall seen i,
  In i (unique_from seen l) <-> In i l /\ ~ In i seen.
Proof.
  induction l as [|j l IH]; intros seen i; simpl; [tauto|].
  destruct (in_dec Nat.eq_dec j seen) as [Hin|Hout]; simpl; rewrite IH.
  - split; [tauto|]. intros [[<-|H] Hs]; [contradiction|tauto].
  - simpl. split.
    + intros [<-|[H Hs]]; [tauto|]. split; [tauto|]. intros C. apply Hs. tauto.
    + intros [[<-|H] Hs]; [tauto|].
      destruct (Nat.eq_dec j i) as [->|Hne]; [tauto|].
      right. split; [exact H|]. intros [C|C]; [congruence|contradiction].
Qed.

Lemma unique_from_NoDup l : forall seen, NoDup (unique_from seen l).
Proof.
  induction l as [|j l IH]; intros seen; simpl; [constructor|].
  destruct (in_dec Nat.eq_dec j seen); [apply IH|].
  constructor; [|apply IH]. rewrite unique_from_in. simpl. tauto.
Qed.

Lemma unique_from_length l : forall seen,
  (length (unique_from seen l) <= length l)%nat.
Proof.
  induction l as [|j l IH]; intros seen; simpl; [lia|].
  destruct (in_dec Nat.eq_dec j seen); simpl.
  - specialize (IH seen). lia.
  - specialize (IH (j :: seen)). lia.
Qed.

Lemma unique_from_ext l : forall seen seen',
  (forall i, In i seen <-> In i seen') ->
  unique_from seen l = unique_from seen' l.
Proof.
  induction l as [|j l IH]; intros seen seen' H; simpl; [reflexivity|].
  destruct (in_dec Nat.eq_dec j seen) as [Hin|Hout];
    destruct (in_dec Nat.eq_dec j seen') as [Hin'|Hout'].
  - apply IH. exact H.
  - exfalso. apply Hout'. apply H. exact Hin.
  - exfalso. apply Hout. apply H. exact Hin'.
  - f_equal. apply IH. intros i. simpl. rewrite H. tauto.
Qed.

Lemma unique_from_app l1 : forall seen l2,
  unique_from seen (l1 ++ l2)
  = unique_from seen l1 ++ unique_from (l1 ++ seen) l2.
Proof.
  induction l1 as [|j l1 IH]; intros seen l2; simpl; [reflexivity|].
  destruct (in_dec Nat.eq_dec j seen) as [Hin|Hout].
  - rewrite IH. f_equal. apply unique_from_ext. intros i. simpl.
    rewrite !in_app_iff. split; [tauto|].
    intros [<-|[H|H]]; tauto.
  - simpl. f_equal. rewrite IH. f_equal. apply unique_from_ext.
    intros i. simpl. rewrite !in_app_iff. simpl. tauto.
Qed.

Lemma unique_from_fresh l : forall seen extra,
  (forall i, In i l -> ~ In i extra) ->
  unique_from (extra ++ seen) l = unique_from seen l.
Proof.
  induction l as [|j l IH]; intros seen extra H; simpl; [reflexivity|].
  assert (Hj : ~ In j extra) by (apply H; left; reflexivity).
  assert (Hl : forall i, In i l -> ~ In i extra)
    by (intros i Hi; apply H; right; exact Hi).
  destruct (in_dec Nat.eq_dec j (extra ++ seen)) as [Hin|Hout];
    destruct (in_dec Nat.eq_dec j seen) as [Hin'|Hout'].
  - apply IH. exact Hl.
  - apply in_app_iff in Hin. tauto.
  - exfalso. apply Hout. apply in_app_iff. tauto.
  - f_equal. rewrite <- (IH (j :: seen) extra Hl).
    apply unique_from_ext. intros i. simpl. rewrite !in_app_iff. simpl. tauto.
Qed.

(** ** The sampler: rounds and termination *)

Lemma round_positions rand p size st :
  unit_variates rand ->
  Forall (fun w => 0 <= w) p ->
  (length (found st) < count_positive p)%nat ->
  forall i,
    In i (map (searchsorted_right (cdf (zero_at (found st) p)))
              (map rand (seq (used st) (size - length (found st))))) ->
    (i < length p)%nat /\ ~ In i (found st) /\ 0 < nth i p 0.
Proof.
  intros Hrand Hp Hfresh i Hi.
  apply in_map_iff in Hi. destruct Hi as (x & <- & Hx).
  apply in_map_iff in Hx. destruct Hx as (t & <- & _).
  destruct (fresh_positive p (found st) Hfresh) as (k & _ & Hk & Hw).
  destruct (searchsorted_cdf (zero_at (found st) p) (rand t))
    as (H1 & _ & _ & H4).
  - apply zero_from_nonneg. exact Hp.
  - exact (zero_at_pos _ _ k Hp Hk Hw).
  - apply Hrand.
  - unfold zero_at in H1 at 2. rewrite zero_from_length in H1.
    split; [exact H1|].
    unfold zero_at in H4 at 2. rewrite zero_from_nth in H4. simpl in H4.
    destruct (in_dec Nat.eq_dec _ (found st)); [lia|]. split; assumption.
Qed.

Lemma choice_round_invariant rand p size st :
  unit_variates rand ->
  Forall (fun w => 0 <= w) p ->
  (size <= count_positive p)%nat ->
  draw_invariant p size st ->
  (length (found st) < size)%nat ->
  draw_invariant p size (choice_round rand p size st) /\
  (length (found st) < length (found (choice_round rand p size st)))%nat.
Proof.
  intros Hrand Hp Hsize (Hnd & Hin & Hlog & Hlen) Hlt.
  pose proof (round_positions rand p size st Hrand Hp ltac:(lia)) as Hnew.
  unfold draw_invariant, choice_round. cbn [found drawn used].
  set (new := map (searchsorted_right (cdf (zero_at (found st) p)))
                  (map rand (seq (used st) (size - length (found st)))))
    in *.
  assert (Hnewlen : length new = (size - length (found st))%nat).
  { unfold new. rewrite !length_map, length_seq. reflexivity. }
  split; [split; [|split; [|split]]|].
  - apply NoDup_app; [exact Hnd|apply unique_from_NoDup|].
    intros a Ha C. apply unique_from_in in C. destruct C as [C _].
    apply Hnew in C. tauto.
  - intros i Hi. apply in_app_iff in Hi. destruct Hi as [Hi|Hi].
    + apply Hin. exact Hi.
    + apply unique_from_in in Hi. destruct Hi as [Hi _].
      apply Hnew in Hi. tauto.
  - unfold unique_first in *. rewrite unique_from_app, <- Hlog.
    f_equal. symmetry. apply unique_from_fresh.
    intros i Hi C. apply Hnew in Hi. destruct Hi as (_ & Hi & _).
    apply Hi. rewrite Hlog. apply unique_from_in. split; [exact C|].
    intros [].
  - rewrite length_app.
    pose proof (unique_from_length new []) as Hu.
    unfold unique_first. lia.
  - rewrite length_app. unfold unique_first.
    destruct new as [|i new']; [simpl in Hnewlen; lia|].
    simpl. lia.
Qed.

Lemma choice_loop_terminates rand p size :
  unit_variates rand ->
  Forall (fun w => 0 <= w) p ->
  (size <= count_positive p)%nat ->
  forall fuel st,
    draw_invariant p size st ->
    (size - length (found st) <= fuel)%nat ->
    exists st',
      choice_loop fuel rand p size st = Some st' /\
      draw_invariant p size st' /\ length (found st') = size.
Proof.
  intros Hrand Hp Hsize. induction fuel as [|fuel IH]; intros st Hinv Hfuel.
  - simpl. destruct (size <=? length (found st))%nat eqn:E.
    + apply Nat.leb_le in E. exists st.
      pose proof Hinv as (_ & _ & _ & Hle).
      split; [reflexivity|]. split; [exact Hinv|lia].
    + apply Nat.leb_gt in E. lia.
  - simpl. destruct (size <=? length (found st))%nat eqn:E.
    + apply Nat.leb_le in E. exists st.
      pose proof Hinv as (_ & _ & _ & Hle).
      split; [reflexivity|]. split; [exact Hinv|lia].
    + apply Nat.leb_gt in E.
      destruct (choice_round_invariant rand p size st Hrand Hp Hsize Hinv E)
        as [Hinv' Hgrow].
      apply IH; [exact Hinv'|lia].
Qed.

Lemma count_positive_le_length p : (count_positive p <= length p)%nat.
Proof. unfold count_positive. apply filter_length_le. Qed.

Lemma existsb_negative_false p :
  Forall (fun w => 0 <= w) p -> existsb (fun w => w <? 0) p = false.
Proof.
  induction 1 as [|w p Hw Hp IH]; simpl; [reflexivity|].
  rewrite IH. destruct (w <? 0) eqn:E; [apply Z.ltb_lt in E; lia|reflexivity].
Qed.

(** The draw comes to an end, within as many rounds as winners asked
    for, with distinct positions that carry weight. *)
Lemma sample_terminates weights n rand :
  unit_variates rand ->
  Forall (fun w => 0 <= w) weights ->
  0 < sum_Z weights ->
  (n <= count_positive weights)%nat ->
  exists st,
    sample_state weights n rand = Some (inr st) /\
    draw_invariant weights n st /\ length (found st) = n.
Proof.
  intros Hrand Hp Hsum Hn. unfold sample_state.
  rewrite (existsb_negative_false _ Hp).
  destruct (sum_Z weights =? 0) eqn:E0; [apply Z.eqb_eq in E0; lia|].
  pose proof (count_positive_le_length weights) as Hc.
  destruct (length weights <? n)%nat eqn:E1; [apply Nat.ltb_lt in E1; lia|].
  destruct (count_positive weights <? n)%nat eqn:E2;
    [apply Nat.ltb_lt in E2; lia|].
  destruct (choice_loop_terminates rand weights n Hrand Hp Hn n
              (mkDraw [] 0 []))
    as (st & Hst & Hinv & Hlen).
  - split; [constructor|]. split; [intros i []|].
    split; [reflexivity|simpl; lia].
  - simpl. lia.
  - exists st. rewrite Hst. simpl. auto.
Qed.

Lemma choice_round_chronological rand p size st :
  chronological rand p st ->
  chronological rand p (choice_round rand p size st).
Proof.
  intros [Hlen Hlog]. unfold chronological, choice_round.
  cbn [drawn used]. split.
  - rewrite length_app, !length_map, length_seq. lia.
  - intros t Ht. destruct (Nat.lt_ge_cases t (used st)) as [Hold|Hnew].
    + rewrite app_nth1 by lia. apply Hlog. exact Hold.
    + exists (found st). rewrite app_nth2 by lia. rewrite Hlen.
      rewrite map_map.
      set (f := fun x => searchsorted_right (cdf (zero_at (found st) p))
                           (rand x)).
      rewrite (nth_indep _ O (f O)) by (rewrite length_map, length_seq; lia).
      rewrite map_nth, seq_nth by lia. unfold f. f_equal. f_equal. lia.
Qed.

Lemma choice_loop_chronological rand p size : forall fuel st st',
  choice_loop fuel rand p size st = Some st' ->
  chronological rand p st -> chronological rand p st'.
Proof.
  induction fuel as [|fuel IH]; intros st st' H Hst; simpl in H;
    destruct (size <=? length (found st))%nat; try congruence.
  apply (IH _ _ H). apply choice_round_chronological. exact Hst.
Qed.

Lemma sample_state_chronological weights n rand st :
  sample_state weights n rand = Some (inr st) ->
  chronological rand weights st.
Proof.
  unfold sample_state.
  repeat match goal with
         | |- context [if ?b then _ else _] => destruct b; try discriminate
         end.
  destruct (choice_loop n rand weights n (mkDraw [] 0 [])) as [st0|] eqn:E;
    [|discriminate].
  simpl. intros H. injection H as <-.
  apply (choice_loop_chronological rand weights n n _ _ E).
  split; [reflexivity|]. simpl. intros t Ht. lia.
Qed.

(** ** The aggregator *)

Lemma insert_sorted_perm u l : Permutation (insert_sorted u l) (u :: l).
Proof.
  induction l as [|v l IH]; simpl; [reflexivity|].
  destruct (String.leb u v); [reflexivity|].
  rewrite IH. apply perm_swap.
Qed.

Lemma sort_strings_perm l : Permutation (sort_strings l) l.
Proof.
  induction l as [|u l IH]; simpl; [reflexivity|].
  rewrite insert_sorted_perm. now constructor.
Qed.

Lemma present_in cs s : In s (present cs) <-> In (Some s) cs.
Proof.
  induction cs as [|[t|] cs IH]; simpl; [tauto| |].
  - rewrite IH. split; intros [H|H]; auto; left; congruence.
  - rewrite IH. split; [tauto|]. intros [H|H]; [discriminate|exact H].
Qed.

Lemma group_keys_in cols es u :
  In u (group_keys cols es) <->
  exists e, In e es /\ username_of cols e = Some u.
Proof.
  unfold group_keys. split.
  - intros H. apply (Permutation_in _ (sort_strings_perm _)) in H.
    apply nodup_In, present_in, in_map_iff in H.
    destruct H as (e & He & Hin). exists e. auto.
  - intros (e & Hin & He).
    apply (Permutation_in _ (Permutation_sym (sort_strings_perm _))).
    apply nodup_In, present_in, in_map_iff. exists e. auto.
Qed.

Lemma group_keys_NoDup cols es : NoDup (group_keys cols es).
Proof.
  unfold group_keys.
  apply (Permutation_NoDup (Permutation_sym (sort_strings_perm _))).
  apply NoDup_nodup.
Qed.

Lemma totals_keys cols es :
  map fst (user_total_weights cols es) = group_keys cols es.
Proof.
  unfold user_total_weights. rewrite map_map. simpl. apply map_id.
Qed.

Lemma entries_of_in cols u es e :
  In e (entries_of cols u es) <-> In e es /\ username_of cols e = Some u.
Proof.
  unfold entries_of. rewrite filter_In.
  destruct (cell_eq_dec (username_of cols e) (Some u)); split;
    intros [? ?]; split; auto; discriminate.
Qed.

Lemma sum_weights_ge_length es :
  (forall e, In e es -> 1 <= weight e) ->
  Z.of_nat (length es) <= sum_Z (map weight es).
Proof.
  induction es as [|e es IH]; intros H; [simpl; lia|].
  cbn [map length]. rewrite sum_Z_cons, Nat2Z.inj_succ.
  assert (1 <= weight e) by (apply H; left; reflexivity).
  assert (Z.of_nat (length es) <= sum_Z (map weight es)); [|lia].
  apply IH. intros e' He'. apply H. right. exact He'.
Qed.

(** A total weight is the sum of the weights of the user's entries; it
    is at least the number of these entries when no weight is below
    one. *)
Lemma totals_in cols es u w :
  In (u, w) (user_total_weights cols es) <->
  In u (group_keys cols es) /\
  w = sum_Z (map weight (entries_of cols u es)).
Proof.
  unfold user_total_weights. rewrite in_map_iff. split.
  - intros (v & Hv & Hin). injection Hv as <- <-. auto.
  - intros [Hin ->]. exists u. auto.
Qed.

Lemma totals_positive cols es u w :
  (forall e, In e es -> 1 <= weight e) ->
  In (u, w) (user_total_weights cols es) -> 1 <= w.
Proof.
  intros Hes H. apply totals_in in H. destruct H as [Hu ->].
  apply group_keys_in in Hu. destruct Hu as (e & Hin & He).
  pose proof (sum_weights_ge_length (entries_of cols u es)) as Hge.
  assert (In e (entries_of cols u es)) as Hent
    by (apply entries_of_in; auto).
  assert (1 <= Z.of_nat (length (entries_of cols u es))).
  { destruct (entries_of cols u es); [contradiction|]. simpl length. lia. }
  assert (Z.of_nat (length (entries_of cols u es))
          <= sum_Z (map weight (entries_of cols u es))); [|lia].
  apply Hge. intros e' He'. apply entries_of_in in He'. apply Hes. tauto.
Qed.

Lemma weights_get_in totals u w :
  NoDup (map fst totals) -> In (u, w) totals -> weights_get totals u = w.
Proof.
  induction totals as [|[k v] totals IH]; intros Hnd Hin; [contradiction|].
  simpl in *. inversion Hnd as [|? ? Hk Hnd']; subst.
  destruct (string_dec k u) as [->|Hne].
  - destruct Hin as [Hin|Hin]; [congruence|].
    exfalso. apply Hk. apply in_map_iff. exists (u, w). auto.
  - destruct Hin as [Hin|Hin]; [congruence|]. apply IH; assumption.
Qed.

Lemma valid_weight_floor df e :
  In e (valid_entries df (add_comment_likes df)) -> 1 <= weight e.
Proof.
  intros H. apply valid_entries_spec in H. destruct H as [H _].
  apply add_comment_likes_spec in H. destruct H as [_ H].
  unfold weight. rewrite H.
  pose proof (likes_of_cell_spec (engagement_raw df (s_row e))). lia.
Qed.

Lemma totals_all_positive df :
  Forall (fun w => 1 <= w)
    (map snd (user_total_weights (columns df)
                (valid_entries df (add_comment_likes df)))).
Proof.
  apply Forall_forall. intros w Hw. apply in_map_iff in Hw.
  destruct Hw as ([u w'] & <- & Hin). simpl.
  apply (totals_positive _ _ u w' (valid_weight_floor df) Hin).
Qed.

Lemma count_positive_all p :
  Forall (fun w => 1 <= w) p -> count_positive p = length p.
Proof.
  unfold count_positive. induction 1 as [|w p Hw Hp IH]; simpl; [reflexivity|].
  destruct (0 <? w) eqn:E; [simpl; now rewrite IH|].
  apply Z.ltb_ge in E. lia.
Qed.

Lemma sum_Z_all_positive p :
  Forall (fun w => 1 <= w) p -> p <> [] -> 0 < sum_Z p.
Proof.
  intros Hp Hne. destruct Hp as [|w p Hw Hp]; [contradiction|].
  rewrite sum_Z_cons.
  assert (0 <= sum_Z p); [|lia]. apply sum_Z_nonneg.
  apply (Forall_impl _ (P := fun w => 1 <= w)); [intros; lia|exact Hp].
Qed.

(** ** The winner draw: what a run comes to *)

(** The draw of [pick_giveaway_winners] on the total weights: it comes to
    an end with as many distinct positions as winners asked for. *)
Lemma draw_on_totals df rand :
  unit_variates rand ->
  let totals := user_total_weights (columns df)
                  (valid_entries df (add_comment_likes df)) in
  let num := if (length totals <? 10)%nat then length totals else 10%nat in
  totals <> [] ->
  exists st,
    sample_state (map snd totals) num rand = Some (inr st) /\
    sample (map snd totals) num rand = Some (inr (found st)) /\
    draw_invariant (map snd totals) num st /\
    length (found st) = num.
Proof.
  intros Hrand totals num Hne.
  pose proof (totals_all_positive df) as Hpos. fold totals in Hpos.
  destruct (sample_terminates (map snd totals) num rand Hrand)
    as (st & Hst & Hinv & Hlen).
  - apply (Forall_impl _ (P := fun w => 1 <= w)); [intros; lia|exact Hpos].
  - apply sum_Z_all_positive; [exact Hpos|].
    destruct totals; [contradiction|discriminate].
  - rewrite (count_positive_all _ Hpos), length_map. unfold num.
    destruct (length totals <? 10)%nat eqn:E; [lia|].
    apply Nat.ltb_ge in E. lia.
  - exists st. unfold sample. rewrite Hst. auto.
Qed.

(** ** The sums in [int64] *)

Lemma wrap64_small z : - 2 ^ 63 <= z < 2 ^ 63 -> wrap64 z = z.
Proof.
  intros H. unfold wrap64. rewrite Z.mod_small; lia.
Qed.

Lemma sum64_exact l :
  Forall (fun w => 0 <= w) l -> sum_Z l < 2 ^ 63 -> sum64 l = sum_Z l.
Proof.
  induction 1 as [|w l Hw Hl IH]; intros Hb; [reflexivity|].
  rewrite sum_Z_cons in Hb. pose proof (sum_Z_nonneg l Hl) as Hs.
  cbn [sum64 fold_right]. fold (sum64 l). rewrite IH by lia.
  rewrite sum_Z_cons. unfold add64. apply wrap64_small. lia.
Qed.

Lemma sum_Z_filter_le {A} (k : A -> Z) (f : A -> bool) (l : list A) :
  (forall x, In x l -> 0 <= k x) ->
  0 <= sum_Z (map k (filter f l)) <= sum_Z (map k l).
Proof.
  induction l as [|x l IH]; intros H; [simpl; lia|].
  specialize (IH (fun y Hy => H y (or_intror Hy))).
  pose proof (H x (or_introl eq_refl)).
  cbn [filter map]. destruct (f x); cbn [map]; rewrite ?sum_Z_cons; lia.
Qed.

Lemma sum_Z_member_le {A} (k : A -> Z) (l : list A) x :
  (forall y, In y l -> 0 <= k y) -> In x l -> k x <= sum_Z (map k l).
Proof.
  induction l as [|y l IH]; intros H Hin; [contradiction|].
  cbn [map]. rewrite sum_Z_cons.
  pose proof (H y (or_introl eq_refl)).
  assert (0 <= sum_Z (map k l)).
  { apply sum_Z_nonneg. apply Forall_forall. intros z Hz.
    apply in_map_iff in Hz. destruct Hz as (t & <- & Ht).
    apply H. right. exact Ht. }
  destruct Hin as [<-|Hin]; [lia|].
  specialize (IH (fun z Hz => H z (or_intror Hz)) Hin). lia.
Qed.

(** Below [2^63] the [int64] sum of a part of the entries is the exact
    sum. *)
Lemma sum64_part_exact (k : scored -> Z) (f : scored -> bool) es :
  (forall e, In e es -> 0 <= k e) ->
  sum_Z (map k es) < 2 ^ 63 ->
  sum64 (map k (filter f es)) = sum_Z (map k (filter f es)).
Proof.
  intros Hk Hb. pose proof (sum_Z_filter_le k f es Hk).
  apply sum64_exact; [|lia].
  apply Forall_forall. intros z Hz. apply in_map_iff in Hz.
  destruct Hz as (e & <- & He). apply filter_In in He. apply Hk. tauto.
Qed.

Lemma weight64_exact es e :
  (forall x, In x es -> 0 <= comment_likes x) ->
  sum_Z (map weight es) < 2 ^ 63 ->
  In e es -> weight64 e = weight e.
Proof.
  intros Hk Hb He. unfold weight64, add64. fold (weight e).
  assert (Hw : forall x, In x es -> 0 <= weight x)
    by (intros x Hx; pose proof (Hk x Hx); unfold weight; lia).
  pose proof (sum_Z_member_le weight es e Hw He).
  pose proof (Hw e He). apply wrap64_small. lia.
Qed.

Lemma int64_totals_exact cols es :
  (forall e, In e es -> 0 <= comment_likes e) ->
  sum_Z (map weight es) < 2 ^ 63 ->
  user_total_weights64 cols es = user_total_weights cols es.
Proof.
  intros Hk Hb. unfold user_total_weights64, user_total_weights.
  apply map_ext. intros u. f_equal.
  assert (Hw : forall x, In x es -> 0 <= weight x)
    by (intros x Hx; pose proof (Hk x Hx); unfold weight; lia).
  assert (E : map weight64 (entries_of cols u es)
              = map weight (entries_of cols u es)).
  { apply map_ext_in. intros e He. apply entries_of_in in He.
    apply (weight64_exact es); tauto. }
  rewrite E. unfold entries_of. apply sum64_part_exact; assumption.
Qed.

Lemma valid_likes_nonneg df e :
  In e (valid_entries df (add_comment_likes df)) -> 0 <= comment_likes e.
Proof.
  intros H. pose proof (valid_weight_floor df e H). unfold weight in *. lia.
Qed.

Lemma counts_in_range_sum df :
  counts_in_range df = true ->
  sum_Z (map weight (valid_entries df (add_comment_likes df))) < 2 ^ 63.
Proof.
  unfold counts_in_range. intros H. apply andb_true_iff in H.
  destruct H as [_ H]. apply Z.ltb_lt in H. exact H.
Qed.

(** On a frame whose counts are in range the total weights that the
    script computes are the exact sums. *)
Lemma int64_totals_of_frame df :
  counts_in_range df = true ->
  user_total_weights64 (columns df)
    (valid_entries df (add_comment_likes df))
  = user_total_weights (columns df)
      (valid_entries df (add_comment_likes df)).
Proof.
  intros H. apply int64_totals_exact.
  - apply valid_likes_nonneg.
  - apply counts_in_range_sum. exact H.
Qed.

Lemma totals64_keys cols es :
  map fst (user_total_weights64 cols es) = group_keys cols es.
Proof.
  unfold user_total_weights64. rewrite map_map. apply map_id.
Qed.

(** ** Claim on the weight of an entry *)

(** C5.  The weight of an entry is not one plus its likes on every
    file.  When the [action_type] column is there and holds no text,
    as when the field is empty on every row, line 33 raises
    [AttributeError] in the picker and in the analysis, and no entry
    gets a weight.  When line 33 raises nothing and the counts are in
    range, the weight that the script computes for a valid entry is one
    more than the number read off the first maximal run of decimal
    digits of its engagement field, zero standing in when the field is
    missing or holds no digit, and it is at least one. *)
Theorem likes_need_a_text_column (df : DataFrame) :
  (has_column df "action_type" = true ->
   text_column (action_cells df) = false ->
   (forall rand,
      pick_from_frame df rand = Some (PickRaised AttributeError)) /\
   (forall names, analyze_frame df names = Raised AttributeError)) /\
  (likes_error df = None ->
   counts_in_range df = true ->
   forall e, In e (valid_entries df (add_comment_likes df)) ->
     exists likes : Z,
       parsed_likes (engagement_raw df (s_row e)) likes /\
       (forall n, parsed_likes (engagement_raw df (s_row e)) n ->
          n = likes) /\
       0 <= likes /\
       weight64 e = likes + 1 /\
       1 <= weight64 e).
Proof.
  split.
  - intros Hc Ht.
    assert (E : likes_error df = Some AttributeError)
      by (unfold likes_error; rewrite Hc, Ht; reflexivity).
    split; [intros rand; unfold pick_from_frame
           |intros names; unfold analyze_frame]; rewrite E; reflexivity.
  - intros _ Hr e He.
    assert (Hw : weight64 e = weight e).
    { apply (weight64_exact (valid_entries df (add_comment_likes df))).
      - apply valid_likes_nonneg.
      - apply counts_in_range_sum. exact Hr.
      - exact He. }
    apply valid_entries_spec in He. destruct He as [He _].
    apply add_comment_likes_spec in He. destruct He as [_ Hlikes].
    destruct (likes_of_cell_spec (engagement_raw df (s_row e)))
      as (H1 & H2 & H3).
    exists (comment_likes e). rewrite Hw. unfold weight. rewrite Hlikes.
    repeat split; auto; lia.
Qed.

Lemma likes_need_a_text_column_witness :
  (let df := read_csv default_na_values blank_likes in
   valid_entries df (add_comment_likes df) <> [] /\
   (forall rand,
      pick_from_frame df rand = Some (PickRaised AttributeError)) /\
   (forall names, analyze_frame df names = Raised AttributeError)) /\
  (let df := read_csv default_na_values cleaned_scenario in
   let e := mkScored (map (parse_cell default_na_values)
                          (comment_record "ig/u1" "u1" "d" "e" "f"
                             "2 likes"))
                     2 in
   In e (valid_entries df (add_comment_likes df)) /\
   exists likes : Z,
     parsed_likes (engagement_raw df (s_row e)) likes /\
     (forall n, parsed_likes (engagement_raw df (s_row e)) n ->
        n = likes) /\
     0 <= likes /\
     weight64 e = likes + 1 /\
     1 <= weight64 e).
Proof.
  split.
  - intros df. split; [vm_compute; discriminate|].
    exact (proj1 (likes_need_a_text_column df) eq_refl eq_refl).
  - intros df e.
    assert (H : In e (valid_entries df (add_comment_likes df))).
    { vm_compute. right. left. reflexivity. }
    split; [exact H|].
    exact (proj2 (likes_need_a_text_column df) eq_refl eq_refl e H).
Defined.

(** The other fields that hold no text, and the count that [int64]
    does not hold once one is added to it: the weight wraps around to
    [-2^63], and the sampler refuses the negative weight. *)
Example likes_outside_the_text_column :
  likes_error (read_csv default_na_values bare_numbers)
  = Some AttributeError /\
  (let df := read_csv default_na_values most_likes in
   likes_error df = None /\
   counts_in_range df = false /\
   user_total_weights64 (columns df)
     (valid_entries df (add_comment_likes df))
   = [("u1", - 2 ^ 63); ("u2", 2)] /\
   forall rand,
     sample (map snd (user_total_weights64 (columns df)
                        (valid_entries df (add_comment_likes df))))
            2 rand
     = Some (inl ValueError)).
Proof.
  split; [reflexivity|]. intros df.
  split; [vm_compute; reflexivity|]. split; [vm_compute; reflexivity|].
  split; [vm_compute; reflexivity|].
  intros rand. reflexivity.
Qed.

Lemma pick_from_frame_likes df rand :
  likes_error df = None ->
  pick_from_frame df rand = pick_after_likes df rand.
Proof. intros H. unfold pick_from_frame. rewrite H. reflexivity. Qed.

Lemma pick_from_frame_cases df rand :
  unit_variates rand ->
  likes_error df = None ->
  first_missing df mention_columns = None ->
  has_column df "username" = true ->
  has_column df "profile_url" = true ->
  let valid := valid_entries df (add_comment_likes df) in
  let totals := user_total_weights (columns df) valid in
  let num := if (length totals <? 10)%nat then length totals else 10%nat in
  (valid = [] /\ pick_from_frame df rand = Some NoValidEntries) \/
  (valid <> [] /\ totals = [] /\
   pick_from_frame df rand = Some NoEligibleParticipants) \/
  (totals <> [] /\
   exists st,
     sample_state (map snd totals) num rand = Some (inr st) /\
     draw_invariant (map snd totals) num st /\
     length (found st) = num /\
     let names := map (fun i => nth i (map fst totals) "") (found st) in
     pick_from_frame df rand
     = Some (Announced
               {| fewer_warning := (length totals <? 10)%nat;
                  num_winners_to_pick := num;
                  winning_usernames := names;
                  winners :=
                    map (fun u =>
                           (u, series_get (winner_profiles_of df names) u))
                        names |})).
Proof.
  intros Hrand Hl Hm Hu Hp valid totals num.
  rewrite (pick_from_frame_likes df rand Hl). unfold pick_after_likes.
  rewrite Hm, Hu, Hp. fold valid. simpl negb. cbv iota.
  destruct valid as [|e0 valid'] eqn:Ev; [left; auto|].
  right. fold totals. fold num.
  destruct totals as [|t0 totals'] eqn:Et.
  - left. split; [discriminate|]. split; [reflexivity|]. reflexivity.
  - right. split; [discriminate|].
    destruct (draw_on_totals df rand Hrand) as (st & Hst & Hs & Hinv & Hlen).
    { fold valid. rewrite Ev. fold totals. rewrite Et. discriminate. }
    fold valid in Hst, Hs, Hinv, Hlen. rewrite Ev in Hst, Hs, Hinv, Hlen.
    fold totals in Hst, Hs, Hinv, Hlen. rewrite Et in Hst, Hs, Hinv, Hlen.
    fold num in Hst, Hs, Hinv, Hlen.
    exists st. split; [exact Hst|]. split; [exact Hinv|].
    split; [exact Hlen|]. cbv zeta.
    assert (Hnum : Nat.eqb num 0 = false).
    { apply Nat.eqb_neq. unfold num. simpl length.
      destruct (S (length totals') <? 10)%nat; lia. }
    rewrite Hnum, Hs. reflexivity.
Qed.

Lemma pick_from_frame_columns df rand a :
  pick_from_frame df rand = Some (Announced a) ->
  likes_error df = None /\
  first_missing df mention_columns = None /\
  has_column df "username" = true /\
  has_column df "profile_url" = true.
Proof.
  unfold pick_from_frame.
  destruct (likes_error df); [discriminate|]. unfold pick_after_likes.
  destruct (first_missing df mention_columns); [discriminate|].
  destruct (valid_entries df (add_comment_likes df)); [discriminate|].
  destruct (has_column df "username"); [|discriminate]. simpl negb. cbv iota.
  destruct (Nat.eqb _ 0); [discriminate|].
  destruct (sample _ _ rand) as [[e|positions]|]; try discriminate.
  destruct (has_column df "profile_url"); [|discriminate]. auto.
Qed.

Lemma unit_variates_zero : unit_variates (fun _ => 0%Q).
Proof. intros t. split; [apply Qle_refl|reflexivity]. Qed.

Lemma unit_variates_high_then_low : unit_variates high_then_low.
Proof.
  intros [|t]; simpl; split; try reflexivity; try apply Qle_refl.
  unfold Qle. simpl. lia.
Qed.

Lemma names_NoDup (labels : list string) (positions : list nat) :
  NoDup labels -> NoDup positions ->
  (forall i, In i positions -> (i < length labels)%nat) ->
  NoDup (map (fun i => nth i labels "") positions).
Proof.
  intros Hl Hp. induction Hp as [|i positions Hi Hp IH]; intros Hr; simpl.
  - constructor.
  - constructor.
    + intros C. apply in_map_iff in C. destruct C as (j & Hj & Hin).
      assert (i = j).
      { apply (proj1 (NoDup_nth labels "") Hl); auto using in_eq, in_cons. }
      subst. contradiction.
    + apply IH. intros j Hj. apply Hr. right. exact Hj.
Qed.

Lemma all_positions_found (positions : list nat) n :
  NoDup positions -> length positions = n ->
  (forall i, In i positions -> (i < n)%nat) ->
  forall i, (i < n)%nat -> In i positions.
Proof.
  intros Hnd Hlen Hr i Hi.
  apply (NoDup_length_incl Hnd (l' := seq 0 n)).
  - rewrite length_seq. lia.
  - intros j Hj. apply in_seq. specialize (Hr j Hj). lia.
  - apply in_seq. lia.
Qed.

(** The total weights of the scenario: [u1] has the weights 1 and 3,
    [u2] the weight 2; the comment that tags two users counts for
    nothing. *)
Example scenario_totals :
  let df := read_csv default_na_values cleaned_scenario in
  map weight (valid_entries df (add_comment_likes df)) = [1; 3; 2] /\
  user_total_weights (columns df) (valid_entries df (add_comment_likes df))
  = [("u1", 4); ("u2", 2)] /\
  map snd (user_total_weights (columns df)
             (valid_entries df (add_comment_likes df)))
  = scenario_weights.
Proof. repeat split. Qed.

(** ** Claims on the winner draw *)

(** C2.  In an announcement no user name comes twice, every winner has
    a total weight above zero, and the winners stand in the order of
    the draws: the log [drawn] holds the position of each variate in the
    order of the variates, and the winners are the users at the
    positions of the log, each at the place of its first occurrence. *)
Theorem winners_distinct_weighted_in_draw_order
    (df : DataFrame) (rand : nat -> Q) (a : announcement) :
  unit_variates rand ->
  pick_from_frame df rand = Some (Announced a) ->
  let totals := user_total_weights (columns df)
                  (valid_entries df (add_comment_likes df)) in
  NoDup (winning_usernames a) /\
  map fst (winners a) = winning_usernames a /\
  (forall u, In u (winning_usernames a) ->
     In u (map fst totals) /\ 0 < weights_get totals u) /\
  exists st,
    sample_state (map snd totals) (num_winners_to_pick a) rand
    = Some (inr st) /\
    chronological rand (map snd totals) st /\
    winning_usernames a
    = map (fun i => nth i (map fst totals) "") (unique_first (drawn st)).
Proof.
  intros Hrand H totals.
  destruct (pick_from_frame_columns df rand a H) as (Hl & Hm & Hu & Hp).
  destruct (pick_from_frame_cases df rand Hrand Hl Hm Hu Hp)
    as [[_ E]|[(_ & _ & E)|(Hne & st & Hst & Hinv & Hlen & E)]];
    try congruence.
  fold totals in Hne, Hst, Hinv, Hlen, E. cbv zeta in E.
  rewrite E in H. injection H as <-. cbn [winning_usernames winners
    num_winners_to_pick].
  destruct Hinv as (Hnd & Hin & Hlog & _).
  assert (Hrange : forall i, In i (found st) ->
                     (i < length (map fst totals))%nat).
  { intros i Hi. apply Hin in Hi. rewrite length_map in *. tauto. }
  assert (Hkeys : NoDup (map fst totals)).
  { unfold totals. rewrite totals_keys. apply group_keys_NoDup. }
  split; [apply names_NoDup; assumption|].
  split; [rewrite map_map; simpl; apply map_id|].
  split.
  - intros u Hu'. apply in_map_iff in Hu'. destruct Hu' as (i & <- & Hi).
    assert (Hlbl : In (nth i (map fst totals) "") (map fst totals))
      by (apply nth_In, Hrange, Hi).
    split; [exact Hlbl|].
    apply in_map_iff in Hlbl. destruct Hlbl as ([u w] & Hfst & Huw).
    simpl in Hfst. rewrite <- Hfst.
    rewrite (weights_get_in totals u w Hkeys Huw).
    pose proof (totals_positive _ _ u w (valid_weight_floor df) Huw). lia.
  - exists st. split; [exact Hst|].
    split; [exact (sample_state_chronological _ _ _ _ Hst)|].
    rewrite <- Hlog. reflexivity.
Qed.

Lemma winners_distinct_weighted_in_draw_order_witness :
  exists a,
    pick_giveaway_winners default_na_values (Some cleaned_scenario)
      high_then_low = Some (Announced a) /\
    winning_usernames a = ["u2"; "u1"] /\
    NoDup (winning_usernames a) /\
    exists st,
      sample_state [4; 2] 2 high_then_low = Some (inr st) /\
      drawn st = [1%nat; 0%nat] /\
      winning_usernames a
      = map (fun i => nth i ["u1"; "u2"] "") (unique_first (drawn st)).
Proof.
  eexists. split; [vm_compute; reflexivity|].
  split; [reflexivity|].
  pose proof (winners_distinct_weighted_in_draw_order
                (read_csv default_na_values cleaned_scenario)
                high_then_low _ unit_variates_high_then_low eq_refl)
    as (Hnd & _ & _ & st & Hst & _ & Hnames).
  split; [exact Hnd|].
  exists st. split; [exact Hst|]. split; [|exact Hnames].
  vm_compute in Hst. injection Hst as <-. reflexivity.
Defined.

Lemma filter_all_true {A} (f : A -> bool) (l : list A) :
  (forall x, In x l -> f x = true) -> filter f l = l.
Proof.
  induction l as [|x l IH]; intros H; simpl; [reflexivity|].
  rewrite (H x (or_introl eq_refl)). f_equal. apply IH.
  intros y Hy. apply H. right. exact Hy.
Qed.

(** C3.  On a frame whose likes are read without an exception and whose
    counts are in range, the total weights of the script are the exact
    sums; when the participants with a total weight above zero are
    fewer than ten, a run that finds some of them prints the warning and
    announces every one of them, each once; a run that finds none
    returns with one of its two messages.  No such run raises. *)
Theorem population_clamp (df : DataFrame) (rand : nat -> Q) :
  unit_variates rand ->
  likes_error df = None ->
  counts_in_range df = true ->
  first_missing df mention_columns = None ->
  has_column df "username" = true ->
  has_column df "profile_url" = true ->
  let totals := user_total_weights (columns df)
                  (valid_entries df (add_comment_likes df)) in
  let eligible := map fst (filter (fun t => 0 <? snd t) totals) in
  let m := length eligible in
  (m < 10)%nat ->
  user_total_weights64 (columns df)
    (valid_entries df (add_comment_likes df)) = totals /\
  (m = O ->
   pick_from_frame df rand = Some NoValidEntries \/
   pick_from_frame df rand = Some NoEligibleParticipants) /\
  ((0 < m)%nat ->
   exists a,
     pick_from_frame df rand = Some (Announced a) /\
     fewer_warning a = true /\
     num_winners_to_pick a = m /\
     length (winning_usernames a) = m /\
     NoDup (winning_usernames a) /\
     forall u, In u eligible <-> In u (winning_usernames a)).
Proof.
  intros Hrand Hl Hrange64 Hm Hu Hp totals eligible m Hlt.
  split; [apply int64_totals_of_frame; exact Hrange64|].
  assert (Hall : filter (fun t => 0 <? snd t) totals = totals).
  { apply filter_all_true. intros [u w] Huw. simpl. apply Z.ltb_lt.
    pose proof (totals_positive _ _ u w (valid_weight_floor df) Huw). lia. }
  assert (Hel : eligible = map fst totals)
    by (unfold eligible; now rewrite Hall).
  assert (Hmlen : m = length totals)
    by (unfold m; rewrite Hel; apply length_map).
  assert (Hkeys : NoDup (map fst totals)).
  { unfold totals. rewrite totals_keys. apply group_keys_NoDup. }
  destruct (pick_from_frame_cases df rand Hrand Hl Hm Hu Hp)
    as [[_ E]|[(_ & Het & E)|(Hne & st & Hst & Hinv & Hlen & E)]].
  - split; [auto|]. intros Hpos. exfalso.
    rewrite (pick_from_frame_likes df rand Hl) in E.
    unfold pick_after_likes in E. rewrite Hm in E.
    fold totals in Hmlen. revert Hmlen Hpos. unfold totals.
    destruct (valid_entries df (add_comment_likes df)); [simpl; lia|].
    rewrite Hu in E. simpl negb in E. cbv iota in E.
    destruct (Nat.eqb _ 0); [discriminate|].
    destruct (sample _ _ rand) as [[e|positions]|]; try discriminate.
    rewrite Hp in E. discriminate.
  - split; [auto|]. fold totals in Het. rewrite Het in Hmlen.
    simpl in Hmlen. lia.
  - fold totals in Hne, Hst, Hinv, Hlen, E. cbv zeta in E.
    split; [intros H0; rewrite H0 in Hmlen; destruct totals;
            [contradiction|discriminate]|].
    intros _. eexists. split; [exact E|].
    assert (Hfew : (length totals <? 10)%nat = true)
      by (apply Nat.ltb_lt; lia).
    rewrite Hfew in *. cbn [fewer_warning num_winners_to_pick
      winning_usernames].
    destruct Hinv as (Hnd & Hin & _ & _).
    assert (Hrange : forall i, In i (found st) -> (i < length totals)%nat).
    { intros i Hi. apply Hin in Hi. rewrite length_map in Hi. tauto. }
    split; [reflexivity|]. split; [lia|].
    split; [rewrite length_map; lia|].
    split.
    + apply names_NoDup; [exact Hkeys|exact Hnd|].
      intros i Hi. rewrite length_map. apply Hrange. exact Hi.
    + intros u. rewrite Hel. split.
      * intros Hin'. apply (In_nth _ _ "") in Hin'.
        destruct Hin' as (i & Hi & <-). rewrite length_map in Hi.
        apply in_map_iff. exists i. split; [reflexivity|].
        apply (all_positions_found (found st) (length totals)); auto.
      * intros Hin'. apply in_map_iff in Hin'.
        destruct Hin' as (i & <- & Hi). apply nth_In.
        rewrite length_map. apply Hrange. exact Hi.
Qed.

Lemma population_clamp_witness :
  exists a,
    pick_giveaway_winners default_na_values (Some cleaned_scenario)
      (fun _ => 0%Q) = Some (Announced a) /\
    fewer_warning a = true /\
    num_winners_to_pick a = 2%nat /\
    length (winning_usernames a) = 2%nat /\
    NoDup (winning_usernames a) /\
    forall u, In u ["u1"; "u2"] <-> In u (winning_usernames a).
Proof.
  exact (proj2 (proj2 (population_clamp
                  (read_csv default_na_values cleaned_scenario)
                  (fun _ => 0%Q) unit_variates_zero eq_refl eq_refl
                  eq_refl eq_refl eq_refl
                  ltac:(vm_compute; lia)))
               ltac:(vm_compute; lia)).
Defined.

(** ** The profile printed for a winner *)

Lemma find_first_index {A} (P : A -> bool) (l : list A) (x : A) :
  find P l = Some x ->
  exists i,
    nth_error l i = Some x /\ P x = true /\
    forall j y, (j < i)%nat -> nth_error l j = Some y -> P y = false.
Proof.
  induction l as [|a l IH]; simpl; [discriminate|].
  destruct (P a) eqn:E.
  - intros H. injection H as <-. exists O. split; [reflexivity|].
    split; [exact E|]. intros j y Hj. lia.
  - intros H. destruct (IH H) as (i & Hi & HP & Hbefore).
    exists (S i). split; [exact Hi|]. split; [exact HP|].
    intros [|j] y Hj Hy; simpl in Hy.
    + injection Hy as <-. exact E.
    + apply (Hbefore j y); [lia|exact Hy].
Qed.

Lemma find_filter {A} (P Q : A -> bool) (l : list A) :
  (forall x, P x = true -> Q x = true) ->
  find P (filter Q l) = find P l.
Proof.
  intros H. induction l as [|a l IH]; simpl; [reflexivity|].
  destruct (Q a) eqn:EQ; simpl.
  - now rewrite IH.
  - destruct (P a) eqn:EP; [|exact IH].
    rewrite (H a EP) in EQ. discriminate.
Qed.

Lemma series_get_first cols u : forall rs seen,
  ~ In (Some u) seen ->
  series_get
    (map (fun r => (get cols "username" r, get cols "profile_url" r))
         (first_per_username cols seen rs)) u
  = match find (is_user cols u) rs with
    | Some r => get cols "profile_url" r
    | None => Some "Profile URL not found"
    end.
Proof.
  induction rs as [|r rs IH]; intros seen Hseen; simpl; [reflexivity|].
  unfold is_user at 1.
  destruct (in_dec cell_eq_dec (get cols "username" r) seen) as [Hin|Hout].
  - destruct (cell_eq_dec (get cols "username" r) (Some u)) as [E|_].
    + rewrite E in Hin. contradiction.
    + apply IH. exact Hseen.
  - simpl.
    destruct (cell_eq_dec (get cols "username" r) (Some u)) as [E|Hne];
      [reflexivity|].
    apply IH. intros [C|C]; [congruence|contradiction].
Qed.

Lemma winner_profile_first_record df names u :
  In u names ->
  (exists r, In r (rows df) /\ get (columns df) "username" r = Some u) ->
  first_record_profile df u (series_get (winner_profiles_of df names) u).
Proof.
  intros Hu (r0 & Hr0 & Hu0). unfold winner_profiles_of.
  rewrite series_get_first by (intros []).
  rewrite find_filter.
  2:{ intros r Hr. unfold is_user in Hr.
      destruct (cell_eq_dec _ _) as [E|]; [|discriminate].
      rewrite E. simpl. destruct (in_dec string_dec u names); tauto. }
  destruct (find (is_user (columns df) u) (rows df)) as [r|] eqn:Ef.
  - destruct (find_first_index _ _ _ Ef) as (i & Hi & HP & Hbefore).
    exists i, r. split; [exact Hi|]. unfold is_user in HP.
    destruct (cell_eq_dec (get (columns df) "username" r) (Some u))
      as [E|]; [|discriminate].
    split; [exact E|]. split; [reflexivity|].
    intros j r' Hj Hr' C. specialize (Hbefore j r' Hj Hr').
    unfold is_user in Hbefore. rewrite C in Hbefore.
    destruct (cell_eq_dec (Some u) (Some u)); [discriminate|congruence].
  - exfalso. apply (find_none _ _ Ef) in Hr0. unfold is_user in Hr0.
    rewrite Hu0 in Hr0.
    destruct (cell_eq_dec (Some u) (Some u)); [discriminate|congruence].
Qed.

Lemma participant_has_row df u :
  In u (map fst (user_total_weights (columns df)
                   (valid_entries df (add_comment_likes df)))) ->
  exists r, In r (rows df) /\ get (columns df) "username" r = Some u.
Proof.
  rewrite totals_keys. intros H. apply group_keys_in in H.
  destruct H as (e & He & Hu). apply valid_entries_spec in He.
  destruct He as [He _]. apply add_comment_likes_spec in He.
  exists (s_row e). split; [tauto|exact Hu].
Qed.

Lemma announced_winners df rand a :
  unit_variates rand ->
  pick_from_frame df rand = Some (Announced a) ->
  winners a
  = map (fun u => (u, series_get (winner_profiles_of df
                                    (winning_usernames a)) u))
        (winning_usernames a) /\
  forall u, In u (winning_usernames a) ->
    In u (map fst (user_total_weights (columns df)
                     (valid_entries df (add_comment_likes df)))).
Proof.
  intros Hrand H.
  destruct (pick_from_frame_columns df rand a H) as (Hl & Hm & Hu & Hp).
  destruct (pick_from_frame_cases df rand Hrand Hl Hm Hu Hp)
    as [[_ E]|[(_ & _ & E)|(Hne & st & Hst & Hinv & Hlen & E)]];
    try congruence.
  cbv zeta in E. rewrite E in H. injection H as <-.
  cbn [winning_usernames winners]. split; [reflexivity|].
  intros u Hin. apply in_map_iff in Hin. destruct Hin as (i & <- & Hi).
  apply nth_In. destruct Hinv as (_ & Hin & _).
  apply Hin in Hi. rewrite !length_map in *. tauto.
Qed.

Lemma analyze_frame_finished df winner_usernames an :
  analyze_frame df winner_usernames = Finished an ->
  let cols := columns df in
  let valid := valid_entries df (add_comment_likes df) in
  let totals := user_total_weights cols valid in
  all_participants an = map fst totals /\
  valid_winners an
  = filter (fun user => mem user (map fst totals)) winner_usernames /\
  non_winners an
  = filter (fun user => negb (mem user winner_usernames)) (map fst totals) /\
  winner_details an
  = map (fun username =>
           {| ws_username := username;
              ws_profile :=
                series_get (winner_profiles_of df (valid_winners an))
                           username;
              winner_stats := entries_of cols username valid;
              total_valid_comments :=
                length (entries_of cols username valid);
              total_likes :=
                sum64 (map comment_likes (entries_of cols username valid));
              total_score :=
                weights_get (user_total_weights64 cols valid) username |})
        (valid_winners an) /\
  non_winner_stats an
  = filter (fun e => isin (non_winners an) (username_of cols e)) valid.
Proof.
  unfold analyze_frame.
  destruct (likes_error df); [discriminate|]. unfold analyze_after_likes.
  destruct (first_missing df mention_columns); [discriminate|].
  destruct (valid_entries df (add_comment_likes df)) eqn:Ev; [discriminate|].
  destruct (has_column df "username"); [|discriminate]. simpl negb. cbv iota.
  destruct (has_column df "profile_url"); [|discriminate]. simpl negb.
  cbv iota. intros H. injection H as <-.
  cbn [all_participants valid_winners non_winners winner_details
       non_winner_stats].
  rewrite totals64_keys, <- (totals_keys (columns df) (s :: l)).
  repeat split.
Qed.

(** ** Claims on the profile reference and on the groups *)

(** C9, as stated, fails: the series of profiles is built from every
    row of the frame, so the first comment of [u1], which is no valid
    entry, gives the profile that is printed. *)
Lemma profile_not_from_first_valid_entry :
  let df := read_csv default_na_values profile_drift in
  (exists a,
     pick_from_frame df (fun _ => 0%Q) = Some (Announced a) /\
     winners a = [("u1", Some "ig/old")] /\
     ~ profiles_from_first_valid_entry df (winners a)) /\
  (exists an,
     analyze_frame df ["u1"] = Finished an /\
     map (fun d => (ws_username d, ws_profile d)) (winner_details an)
     = [("u1", Some "ig/old")] /\
     ~ profiles_from_first_valid_entry df
         (map (fun d => (ws_username d, ws_profile d)) (winner_details an))).
Proof.
  intros df. split; eexists; (split; [vm_compute; reflexivity|]);
    (split; [reflexivity|]); intros C;
    specialize (C "u1" (Some "ig/old") (or_introl eq_refl));
    vm_compute in C; discriminate.
Qed.

(** C9, amended.  The profile printed for a winner, drawn or listed, is
    the profile cell of the first row of the loaded frame that carries
    the winner's user name, whether that row is a valid entry or not; no
    later row of the user changes it. *)
Theorem profile_is_from_first_record (df : DataFrame) :
  (forall rand a,
     unit_variates rand ->
     pick_from_frame df rand = Some (Announced a) ->
     forall u p, In (u, p) (winners a) -> first_record_profile df u p) /\
  (forall winner_usernames an,
     analyze_frame df winner_usernames = Finished an ->
     forall d, In d (winner_details an) ->
       first_record_profile df (ws_username d) (ws_profile d)).
Proof.
  split.
  - intros rand a Hrand H u p Hin.
    destruct (announced_winners df rand a Hrand H) as [Hw Hpart].
    rewrite Hw in Hin. apply in_map_iff in Hin.
    destruct Hin as (u' & E & Hu'). injection E as -> <-.
    apply winner_profile_first_record; [exact Hu'|].
    apply participant_has_row, Hpart, Hu'.
  - intros winner_usernames an H d Hd.
    destruct (analyze_frame_finished df winner_usernames an H)
      as (_ & Hvw & _ & Hdet & _).
    rewrite Hdet in Hd. apply in_map_iff in Hd.
    destruct Hd as (u & <- & Hu). cbn [ws_username ws_profile].
    apply winner_profile_first_record; [exact Hu|].
    apply participant_has_row. rewrite Hvw in Hu.
    apply filter_In in Hu. destruct Hu as [_ Hu]. unfold mem in Hu.
    destruct (in_dec string_dec u _); [assumption|discriminate].
Qed.

Lemma profile_is_from_first_record_witness :
  let df := read_csv default_na_values profile_drift in
  first_record_profile df "u1" (Some "ig/old").
Proof.
  intros df.
  exact (proj1 (profile_is_from_first_record df) (fun _ => 0%Q)
           {| fewer_warning := true; num_winners_to_pick := 1;
              winning_usernames := ["u1"];
              winners := [("u1", Some "ig/old")] |}
           unit_variates_zero eq_refl "u1" (Some "ig/old")
           (or_introl eq_refl)).
Defined.

(** C10.  The listed winners with a valid entry and the other
    participants split the participants in two: a participant is in the
    first group when the list names it and in the second when it does
    not, never in both; a listed name without a valid entry is in
    neither group, and none of its rows is among the entries that the
    statistics of either group are computed from. *)
Theorem groups_partition_participants
    (df : DataFrame) (winner_usernames : list string) (an : analysis) :
  analyze_frame df winner_usernames = Finished an ->
  let cols := columns df in
  let valid := valid_entries df (add_comment_likes df) in
  (forall u, In u (all_participants an) <->
     exists e, In e valid /\ username_of cols e = Some u) /\
  (forall u, In u (all_participants an) ->
     (In u winner_usernames ->
      In u (valid_winners an) /\ ~ In u (non_winners an)) /\
     (~ In u winner_usernames ->
      In u (non_winners an) /\ ~ In u (valid_winners an))) /\
  (forall u, In u (valid_winners an) \/ In u (non_winners an) ->
     In u (all_participants an)) /\
  (forall u, In u winner_usernames -> ~ In u (all_participants an) ->
     ~ In u (valid_winners an) /\ ~ In u (non_winners an) /\
     forall e, username_of cols e = Some u ->
       ~ In e (non_winner_stats an) /\
       forall d, In d (winner_details an) -> ~ In e (winner_stats d)).
Proof.
  intros H cols valid.
  destruct (analyze_frame_finished df winner_usernames an H)
    as (Hall & Hvw & Hnw & Hdet & Hnws).
  fold cols valid in Hall, Hvw, Hnw, Hdet, Hnws.
  assert (Hmem : forall u l, mem u l = true <-> In u l).
  { intros u l. unfold mem. destruct (in_dec string_dec u l);
      split; auto; discriminate. }
  assert (Hin_vw : forall u, In u (valid_winners an) <->
                     In u winner_usernames /\ In u (all_participants an)).
  { intros u. rewrite Hvw, filter_In, Hmem, Hall. tauto. }
  assert (Hin_nw : forall u, In u (non_winners an) <->
                     In u (all_participants an) /\ ~ In u winner_usernames).
  { intros u. rewrite Hnw, filter_In, negb_true_iff, Hall.
    rewrite <- not_true_iff_false, Hmem. tauto. }
  split; [|split; [|split]].
  - intros u. rewrite Hall. unfold cols, valid. rewrite totals_keys.
    apply group_keys_in.
  - intros u Hu. rewrite Hin_vw, Hin_nw. tauto.
  - intros u. rewrite Hin_vw, Hin_nw. tauto.
  - intros u Hu Hnot. rewrite Hin_vw, Hin_nw.
    split; [tauto|]. split; [tauto|].
    intros e He. split.
    + rewrite Hnws, filter_In, He. simpl.
      destruct (in_dec string_dec u (non_winners an)) as [Hin|_];
        [|intros [_ C]; discriminate].
      apply Hin_nw in Hin. tauto.
    + intros d Hd C. rewrite Hdet in Hd. apply in_map_iff in Hd.
      destruct Hd as (w & <- & Hw). cbn [winner_stats] in C.
      apply entries_of_in in C. destruct C as [_ C].
      assert (u = w) by congruence. subst w.
      apply Hin_vw in Hw. tauto.
Qed.

Lemma groups_partition_participants_witness :
  exists an,
    analyze_frame (read_csv default_na_values cleaned_scenario)
      ["u2"; "u3"; "nobody"] = Finished an /\
    all_participants an = ["u1"; "u2"] /\
    valid_winners an = ["u2"] /\
    non_winners an = ["u1"] /\
    (forall u, In u (valid_winners an) \/ In u (non_winners an) ->
       In u (all_participants an)).
Proof.
  eexists. split; [vm_compute; reflexivity|].
  split; [reflexivity|]. split; [reflexivity|]. split; [reflexivity|].
  exact (proj1 (proj2 (proj2 (groups_partition_participants
           (read_csv default_na_values cleaned_scenario)
           ["u2"; "u3"; "nobody"] _ eq_refl)))).
Defined.

(** ** The draw program read with a generator *)

Lemma batch_variates rand q : forall m t,
  batch variates vret vbind (vposition rand) m q t
  = (map (searchsorted_right (cdf q)) (map rand (seq t m)), (t + m)%nat).
Proof.
  induction m as [|m IH]; intros t; simpl.
  - unfold vret. now rewrite Nat.add_0_r.
  - unfold vbind, vposition at 1. rewrite IH. unfold vret.
    f_equal. lia.
Qed.

Lemma round_variates rand p size st :
  round variates vret vbind (vposition rand) p size (found st) (used st)
  = (found (choice_round rand p size st),
     used (choice_round rand p size st)).
Proof.
  unfold round, vbind. rewrite batch_variates. reflexivity.
Qed.

(** The program read with the generator [rand] finds what [choice_loop]
    finds. *)
Lemma loop_variates rand p size : forall fuel st,
  fst (loop variates vret vbind (vposition rand) fuel p size
         (found st) (used st))
  = option_map found (choice_loop fuel rand p size st).
Proof.
  induction fuel as [|fuel IH]; intros st; simpl;
    destruct (size <=? length (found st))%nat; try reflexivity.
  unfold vbind. rewrite round_variates. apply IH.
Qed.

(** ** Expectations *)

Lemma expect_ret {A} (a : A) g : (expect (dret A a) g == g a)%Q.
Proof. unfold expect, dret. simpl. ring. Qed.

Lemma expect_app {A} (d1 d2 : dist A) g :
  (expect (d1 ++ d2) g == expect d1 g + expect d2 g)%Q.
Proof.
  induction d1 as [|ar d1 IH]; simpl; [ring|].
  fold (expect (d1 ++ d2) g). fold (expect d1 g). rewrite IH. ring.
Qed.

Lemma expect_scale {A} q (d : dist A) g :
  (expect (dscale q d) g == q * expect d g)%Q.
Proof.
  induction d as [|ar d IH]; simpl; [ring|].
  fold (expect (dscale q d) g). fold (expect d g). rewrite IH. ring.
Qed.

Lemma expect_bind {A B} (d : dist A) (f : A -> dist B) g :
  (expect (dbind A B d f) g == expect d (fun a => expect (f a) g))%Q.
Proof.
  induction d as [|ar d IH]; simpl; [reflexivity|].
  fold (dbind A B d f). fold (expect d (fun a => expect (f a) g)).
  rewrite expect_app, expect_scale, IH. reflexivity.
Qed.

Lemma expect_ext_in {A} (d : dist A) g1 g2 :
  (forall a q, In (a, q) d -> (g1 a == g2 a)%Q) ->
  (expect d g1 == expect d g2)%Q.
Proof.
  induction d as [|[a q] d IH]; intros H; simpl; [reflexivity|].
  fold (expect d g1). fold (expect d g2).
  rewrite (H a q (or_introl eq_refl)), IH; [reflexivity|].
  intros a' q' Hin. apply (H a' q'). right. exact Hin.
Qed.

Lemma expect_ext {A} (d : dist A) g1 g2 :
  (forall a, (g1 a == g2 a)%Q) -> (expect d g1 == expect d g2)%Q.
Proof. intros H. apply expect_ext_in. intros a _ _. apply H. Qed.

(** ** The distribution of one position *)

Lemma expect_weighted_positions q : forall i (T : Q) h,
  Forall (fun w => 0 <= w) q ->
  (expect (map (fun iw : nat * Z =>
                  (fst iw, (inject_Z (snd iw) / T)%Q))
               (weighted_positions i q)) h
   == wsum i q h / T)%Q.
Proof.
  induction q as [|w q IH]; intros i T h Hq; simpl.
  - unfold Qdiv. ring.
  - inversion Hq as [|? ? Hw Hq']; subst.
    destruct (0 <? w) eqn:E; simpl.
    + fold (expect (map (fun iw : nat * Z =>
                           (fst iw, (inject_Z (snd iw) / T)%Q))
                        (weighted_positions (S i) q)) h).
      rewrite IH by assumption. unfold Qdiv. ring.
    + apply Z.ltb_ge in E. assert (w = 0) by lia. subst w.
      rewrite IH by assumption. unfold Qdiv. ring.
Qed.

Lemma expect_position q h :
  Forall (fun w => 0 <= w) q ->
  (expect (dposition q) h == wsum 0 q h / inject_Z (sum_Z q))%Q.
Proof. intros Hq. unfold dposition. now apply expect_weighted_positions. Qed.

Lemma weighted_positions_in q : forall i0 i w,
  In (i, w) (weighted_positions i0 q) ->
  (i0 <= i)%nat /\ nth (i - i0) q 0 = w /\ 0 < w.
Proof.
  induction q as [|w0 q IH]; intros i0 i w H; simpl in H; [contradiction|].
  assert (Hrec : In (i, w) (weighted_positions (S i0) q) ->
                 (i0 <= i)%nat /\ nth (i - i0) (w0 :: q) 0 = w /\ 0 < w).
  { intros H'. apply IH in H'. destruct H' as (H1 & H2 & H3).
    split; [lia|]. split; [|exact H3].
    replace (i - i0)%nat with (S (i - S i0)) by lia. exact H2. }
  destruct (0 <? w0) eqn:E; [|auto].
  destruct H as [H|H]; [|auto]. injection H as <- <-.
  apply Z.ltb_lt in E. rewrite Nat.sub_diag. simpl. auto.
Qed.

Lemma dposition_in q i pr : In (i, pr) (dposition q) -> 0 < nth i q 0.
Proof.
  unfold dposition. intros H. apply in_map_iff in H.
  destruct H as ([i' w] & E & Hin). simpl in E. injection E as <- _.
  apply weighted_positions_in in Hin. destruct Hin as (_ & H2 & H3).
  rewrite Nat.sub_0_r in H2. lia.
Qed.

Lemma dbind_in {A B} (d : dist A) (f : A -> dist B) b r :
  In (b, r) (dbind A B d f) ->
  exists a q r', In (a, q) d /\ In (b, r') (f a).
Proof.
  unfold dbind. intros H. apply in_flat_map in H.
  destruct H as ([a q] & Hin & Hb). unfold dscale in Hb. simpl in Hb.
  apply in_map_iff in Hb. destruct Hb as ([b' r'] & E & Hb).
  simpl in E. injection E as <- _. exists a, q, r'. auto.
Qed.

Lemma batch_in q : forall m l pr,
  In (l, pr) (batch dist dret dbind dposition m q) ->
  length l = m /\ forall i, In i l -> 0 < nth i q 0.
Proof.
  induction m as [|m IH]; intros l pr H; simpl in H.
  - destruct H as [H|[]]. injection H as <- _. split; [reflexivity|].
    intros i [].
  - apply dbind_in in H. destruct H as (i & qi & r1 & Hi & H).
    apply dbind_in in H. destruct H as (l' & ql & r2 & Hl' & H).
    destruct H as [H|[]]. injection H as <- _.
    apply dposition_in in Hi. destruct (IH _ _ Hl') as [Hlen Hall].
    split; [simpl; now rewrite Hlen|].
    intros j [<-|Hj]; [exact Hi|apply Hall, Hj].
Qed.

(** ** The weight that leaves the pool *)

Lemma sum_zero_from_mono p : forall i F cur,
  Forall (fun w => 0 <= w) p -> incl F cur ->
  sum_Z (zero_from i cur p) <= sum_Z (zero_from i F p).
Proof.
  induction p as [|w p IH]; intros i F cur Hp Hincl; simpl; [lia|].
  inversion Hp as [|? ? Hw Hp']; subst.
  specialize (IH (S i) F cur Hp' Hincl).
  destruct (in_dec Nat.eq_dec i cur) as [Hc|Hc];
    destruct (in_dec Nat.eq_dec i F) as [HF|HF];
    rewrite ?sum_Z_cons; try lia.
  exfalso. apply Hc, Hincl, HF.
Qed.

Lemma wsum_split p (X : Q) (Y : nat -> Q) F cur :
  incl F cur ->
  forall i,
    (wsum i (zero_from i F p)
          (fun k => if in_dec Nat.eq_dec k cur then X else Y k)
     == X * (inject_Z (sum_Z (zero_from i F p))
             - inject_Z (sum_Z (zero_from i cur p)))
        + wsum i (zero_from i cur p) Y)%Q.
Proof.
  intros Hincl. induction p as [|w p IH]; intros i; cbn [wsum zero_from].
  - simpl. ring.
  - rewrite IH, !sum_Z_cons, !inject_Z_plus.
    destruct (in_dec Nat.eq_dec i cur) as [Hc|Hc];
      destruct (in_dec Nat.eq_dec i F) as [HF|HF].
    + ring.
    + ring.
    + exfalso. apply Hc, Hincl, HF.
    + ring.
Qed.

Lemma pool_weight_positive p cur :
  Forall (fun w => 0 <= w) p ->
  (length cur < count_positive p)%nat ->
  0 < sum_Z (zero_at cur p).
Proof.
  intros Hp H. destruct (fresh_positive p cur H) as (k & _ & Hk & Hw).
  exact (zero_at_pos cur p k Hp Hk Hw).
Qed.

(** ** A batch with its repeats dropped is worth the draws one by one *)

Section SequentialValue.

Variable g : list nat -> Q.
Variable p : list Z.
Variable size : nat.
Hypothesis Hp : Forall (fun w => 0 <= w) p.
Hypothesis Hsize : (size <= count_positive p)%nat.

Lemma value_done cur :
  (size <= length cur)%nat -> (value g p size cur == g cur)%Q.
Proof.
  intros H. unfold value. replace (size - length cur)%nat with O by lia.
  simpl. apply expect_ret.
Qed.

Lemma value_step cur :
  (length cur < size)%nat ->
  (value g p size cur
   == wsum 0 (zero_at cur p) (fun i => value g p size (cur ++ [i]))
      / inject_Z (sum_Z (zero_at cur p)))%Q.
Proof.
  intros H. unfold value at 1.
  destruct (size - length cur)%nat as [|r] eqn:E; [lia|].
  simpl sequential_dist. rewrite expect_bind.
  rewrite <- expect_position by (apply zero_from_nonneg; exact Hp).
  apply expect_ext. intros i. unfold value.
  rewrite length_app. simpl length.
  replace (size - (length cur + 1))%nat with r by lia. reflexivity.
Qed.

Lemma batch_value : forall n F cur,
  incl F cur -> (n <= size - length cur)%nat ->
  (expect (batch dist dret dbind dposition n (zero_at F p))
          (fun rest => value g p size (cur ++ unique_from cur rest))
   == value g p size cur)%Q.
Proof.
  induction n as [|n IH]; intros F cur Hincl Hn.
  - cbn [batch]. rewrite expect_ret. cbn [unique_from].
    rewrite app_nil_r. reflexivity.
  - cbn [batch]. rewrite expect_bind.
    set (X := value g p size cur).
    set (Y := fun i => value g p size (cur ++ [i])).
    rewrite (expect_ext _ _
               (fun k => if in_dec Nat.eq_dec k cur then X else Y k)).
    2:{ intros i. rewrite expect_bind.
        transitivity
          (expect (batch dist dret dbind dposition n (zero_at F p))
                  (fun l => value g p size
                              (cur ++ unique_from cur (i :: l)))).
        { apply expect_ext. intros l.
          apply (expect_ret (i :: l)
                   (fun rest => value g p size
                                  (cur ++ unique_from cur rest))). }
        simpl unique_from.
        destruct (in_dec Nat.eq_dec i cur) as [Hi|Hi].
        - apply IH; [exact Hincl|lia].
        - unfold Y. rewrite <- (IH F (cur ++ [i])).
          + apply expect_ext. intros l.
            rewrite <- app_assoc. simpl.
            rewrite (unique_from_ext l (i :: cur) (cur ++ [i]));
              [reflexivity|].
            intros j. rewrite in_app_iff. simpl. tauto.
          + intros j Hj. apply in_app_iff. left. apply Hincl, Hj.
          + rewrite length_app. simpl. lia. }
    rewrite expect_position by (apply zero_from_nonneg; exact Hp).
    unfold zero_at. rewrite (wsum_split p X Y F cur Hincl O).
    fold (zero_at F p). fold (zero_at cur p).
    assert (Hcur : 0 < sum_Z (zero_at cur p))
      by (apply pool_weight_positive; [exact Hp|lia]).
    assert (HF : 0 < sum_Z (zero_at F p)).
    { pose proof (sum_zero_from_mono p O F cur Hp Hincl).
      unfold zero_at. unfold zero_at in Hcur. lia. }
    assert (HX : (X == wsum 0 (zero_at cur p) Y
                       / inject_Z (sum_Z (zero_at cur p)))%Q)
      by (apply value_step; lia).
    set (WY := wsum 0 (zero_at cur p) Y) in *.
    set (TF := inject_Z (sum_Z (zero_at F p))).
    set (TC := inject_Z (sum_Z (zero_at cur p))) in *.
    assert (HTC : ~ (TC == 0)%Q).
    { unfold TC. intros C. apply (Qeq_bool_neq (inject_Z _) 0 ) in C;
        [exact C|]. unfold Qeq_bool, inject_Z. simpl.
      rewrite Z.mul_1_r. apply Z.eqb_neq. lia. }
    assert (HTF : ~ (TF == 0)%Q).
    { unfold TF. intros C. apply (Qeq_bool_neq (inject_Z _) 0 ) in C;
        [exact C|]. unfold Qeq_bool, inject_Z. simpl.
      rewrite Z.mul_1_r. apply Z.eqb_neq. lia. }
    assert (HWY : (WY == X * TC)%Q) by (rewrite HX; field; exact HTC).
    rewrite HWY. field. exact HTF.
Qed.

(** The loop of [numpy.random.choice] is worth what the draws one by
    one are worth, whatever is asked of the positions found. *)
Lemma loop_value : forall fuel F,
  (size - length F <= fuel)%nat ->
  (expect (loop dist dret dbind dposition fuel p size F) (on_found g)
   == value g p size F)%Q.
Proof.
  induction fuel as [|fuel IH]; intros F Hfuel; simpl;
    destruct (size <=? length F)%nat eqn:E.
  - apply Nat.leb_le in E. rewrite expect_ret, value_done by exact E.
    reflexivity.
  - apply Nat.leb_gt in E. lia.
  - apply Nat.leb_le in E. rewrite expect_ret, value_done by exact E.
    reflexivity.
  - apply Nat.leb_gt in E. unfold round. rewrite !expect_bind.
    rewrite <- (batch_value (size - length F) F F);
      [|apply incl_refl|lia].
    apply expect_ext_in. intros new pr Hin.
    apply batch_in in Hin. destruct Hin as [Hlen Hall].
    rewrite expect_ret.
    assert (Hfresh : forall i, In i new -> ~ In i F).
    { intros i Hi HF. apply Hall in Hi. unfold zero_at in Hi.
      rewrite zero_from_nth in Hi. simpl in Hi.
      destruct (in_dec Nat.eq_dec i F); [lia|contradiction]. }
    assert (Huniq : unique_first new = unique_from F new).
    { unfold unique_first.
      rewrite <- (unique_from_fresh new [] F Hfresh), app_nil_r.
      reflexivity. }
    rewrite Huniq. apply IH. rewrite length_app.
    destruct new as [|i new']; [simpl in Hlen; lia|]. simpl.
    destruct (in_dec Nat.eq_dec i F) as [Hi|_].
    + exfalso. exact (Hfresh i (or_introl eq_refl) Hi).
    + simpl. lia.
Qed.

End SequentialValue.

(** ** One variate falls in the interval of its position *)

Lemma cdf_bound_le (c T : Z) (x : Q) :
  0 < T ->
  ((share c T <= x)%Q <-> c * QDen x <= Qnum x * T).
Proof.
  intros HT. unfold share. rewrite <- Qle_bool_iff. now apply cdf_entry_le.
Qed.

Lemma cdf_bound_lt (c T : Z) (x : Q) :
  0 < T ->
  ((x < share c T)%Q <-> Qnum x * T < c * QDen x).
Proof.
  intros HT. split.
  - intros H. apply Qlt_not_le in H.
    rewrite (cdf_bound_le c T x HT) in H. lia.
  - intros H. apply Qnot_le_lt. rewrite (cdf_bound_le c T x HT). lia.
Qed.

(** A variate of the unit interval gives position [i] exactly when it
    lies between the share of the weight in front of [i] and that share
    increased by the share of [i] itself. *)
Lemma variate_position (q : list Z) (x : Q) (i : nat) :
  Forall (fun w => 0 <= w) q -> 0 < sum_Z q -> (0 <= x < 1)%Q ->
  (searchsorted_right (cdf q) x = i <->
   (i < length q)%nat /\
   (share (prefix_sum i q) (sum_Z q) <= x)%Q /\
   (x < share (prefix_sum i q + nth i q 0%Z) (sum_Z q))%Q).
Proof.
  intros Hq HT Hx.
  destruct (searchsorted_cdf q x Hq HT Hx) as (H1 & H2 & H3 & _).
  set (k := searchsorted_right (cdf q) x) in *.
  rewrite (prefix_sum_S _ _ H1) in H3.
  split.
  - intros <-. split; [exact H1|].
    split; [apply cdf_bound_le|apply cdf_bound_lt]; assumption.
  - intros (Hi & Hlo & Hhi).
    apply (cdf_bound_le _ _ _ HT) in Hlo.
    apply (cdf_bound_lt _ _ _ HT) in Hhi.
    rewrite <- (prefix_sum_S _ _ Hi) in Hhi.
    rewrite <- (prefix_sum_S _ _ H1) in H3.
    assert (0 < QDen x) by lia.
    destruct (Nat.lt_trichotomy k i) as [Hlt|[Heq|Hgt]]; [|exact Heq|].
    + pose proof (prefix_sum_mono q (S k) i Hq ltac:(lia)). nia.
    + pose proof (prefix_sum_mono q (S i) k Hq ltac:(lia)). nia.
Qed.

(** ** The probability of one position, and the total probability *)

Lemma wsum_indicator_before q : forall i0 i,
  (i < i0)%nat ->
  (wsum i0 q (fun k => if Nat.eqb i k then 1 else 0) == 0)%Q.
Proof.
  induction q as [|w q IH]; intros i0 i H; cbn [wsum]; [reflexivity|].
  rewrite IH by lia.
  destruct (Nat.eqb i i0) eqn:E; [apply Nat.eqb_eq in E; lia|]. ring.
Qed.

Lemma wsum_indicator q : forall i0 i,
  (i0 <= i)%nat ->
  (wsum i0 q (fun k => if Nat.eqb i k then 1 else 0)
   == inject_Z (nth (i - i0) q 0%Z))%Q.
Proof.
  induction q as [|w q IH]; intros i0 i H; cbn [wsum].
  - destruct (i - i0)%nat; reflexivity.
  - destruct (Nat.eqb i i0) eqn:E.
    + apply Nat.eqb_eq in E. subst i0.
      rewrite wsum_indicator_before by lia.
      rewrite Nat.sub_diag. simpl nth. ring.
    + apply Nat.eqb_neq in E. rewrite IH by lia.
      replace (i - i0)%nat with (S (i - S i0)) by lia. simpl nth. ring.
Qed.

Lemma wsum_const q (c : Q) : forall i0,
  (wsum i0 q (fun _ => c) == inject_Z (sum_Z q) * c)%Q.
Proof.
  induction q as [|w q IH]; intros i0; cbn [wsum].
  - simpl. ring.
  - rewrite IH, sum_Z_cons, inject_Z_plus. ring.
Qed.

Lemma inject_Z_nonzero (T : Z) : 0 < T -> ~ (inject_Z T == 0)%Q.
Proof.
  intros HT C. unfold Qeq, inject_Z in C. simpl in C. lia.
Qed.

(** The probability of a position is the share of its weight in the
    weight of the pool; a position found earlier has none. *)
Lemma dposition_prob p fnd i :
  Forall (fun w => 0 <= w) p ->
  (prob (dposition (zero_at fnd p)) (Nat.eqb i)
   == if in_dec Nat.eq_dec i fnd then 0
      else share (nth i p 0%Z) (sum_Z (zero_at fnd p)))%Q.
Proof.
  intros Hp. unfold prob.
  rewrite expect_position by (apply zero_from_nonneg; exact Hp).
  rewrite wsum_indicator by lia. rewrite Nat.sub_0_r.
  unfold zero_at at 1. rewrite zero_from_nth. simpl.
  destruct (in_dec Nat.eq_dec i fnd); [|reflexivity].
  unfold Qdiv. ring.
Qed.

(** The draws one by one give their outcomes a total probability of
    one. *)
Lemma sequential_mass p : forall k fnd,
  Forall (fun w => 0 <= w) p ->
  (length fnd + k <= count_positive p)%nat ->
  (expect (sequential_dist k p fnd) (fun _ => 1) == 1)%Q.
Proof.
  induction k as [|k IH]; intros fnd Hp Hk; cbn [sequential_dist].
  - exact (expect_ret fnd (fun _ => 1%Q)).
  - rewrite expect_bind.
    transitivity (expect (dposition (zero_at fnd p)) (fun _ => 1%Q)).
    { apply expect_ext. intros i. apply IH; [exact Hp|].
      rewrite length_app. simpl. lia. }
    rewrite expect_position by (apply zero_from_nonneg; exact Hp).
    rewrite wsum_const. field. apply inject_Z_nonzero.
    apply pool_weight_positive; [exact Hp|lia].
Qed.

(** One winner drawn from the weights 4 and 2: the first position when
    the variate is below 4/6, the second from 4/6 on. *)
Lemma sample_one_scenario rand :
  sample scenario_weights 1 rand
  = Some (inr [searchsorted_right (cdf scenario_weights) (rand O)]).
Proof. reflexivity. Qed.

Lemma scenario_one_draw rand :
  unit_variates rand ->
  (sample scenario_weights 1 rand = Some (inr [0%nat])
   <-> (rand O < 4 # 6)%Q) /\
  (sample scenario_weights 1 rand = Some (inr [1%nat])
   <-> (4 # 6 <= rand O)%Q).
Proof.
  intros Hrand. rewrite sample_one_scenario.
  assert (Hq : Forall (fun w => 0 <= w) scenario_weights)
    by (repeat constructor; lia).
  assert (HT : 0 < sum_Z scenario_weights) by reflexivity.
  pose proof (variate_position scenario_weights (rand O) 0 Hq HT (Hrand O))
    as H0.
  pose proof (variate_position scenario_weights (rand O) 1 Hq HT (Hrand O))
    as H1.
  destruct (Hrand O) as [Hlo Hhi].
  assert (E46 : (share 4 6 == 4 # 6)%Q) by reflexivity.
  assert (E06 : (share 0 6 == 0)%Q) by reflexivity.
  assert (E66 : (share 6 6 == 1)%Q) by reflexivity.
  split.
  - split.
    + intros H. injection H as H. apply H0 in H.
      destruct H as (_ & _ & H). simpl in H. rewrite E46 in H. exact H.
    + intros H. f_equal. f_equal. f_equal. apply H0.
      split; [simpl; lia|]. simpl. rewrite E06, E46. auto.
  - split.
    + intros H. injection H as H. apply H1 in H.
      destruct H as (_ & H & _). simpl in H. rewrite E46 in H. exact H.
    + intros H. f_equal. f_equal. f_equal. apply H1.
      split; [simpl; lia|]. simpl. rewrite E46, E66. auto.
Qed.

(** ** Claim on the distribution of the draw *)

(** C1.  The draw is a sequence of weighted draws without replacement.
    One variate takes a position of the pool exactly when it falls in
    an interval whose length is the weight of the position over the
    weight of the pool, which is the probability that the position has
    in the distribution of one draw; a position found earlier has no
    weight in the pool.  The program that [choice_loop] runs on a
    generator, read as a distribution, gives every outcome the
    probability that [size] draws one after the other give it, each
    draw made with the shares of the weights still in the pool, and
    these probabilities add up to one; so it is for the draw of the
    script on the total weights of any frame.  With the weights 4 and
    2, one draw gives the first position when the variate is below 4/6
    and the second otherwise, so with the probabilities 4/6 and 2/6;
    two draws give the two orders with these probabilities. *)
Theorem draw_is_sequential_weighted_sampling :
  (forall (p : list Z) (fnd : list nat) (x : Q) (i : nat),
     Forall (fun w => 0 <= w) p ->
     0 < sum_Z (zero_at fnd p) ->
     (0 <= x < 1)%Q ->
     let q := zero_at fnd p in
     nth i q 0 = (if in_dec Nat.eq_dec i fnd then 0 else nth i p 0) /\
     (searchsorted_right (cdf q) x = i <->
      (i < length p)%nat /\
      (share (prefix_sum i q) (sum_Z q) <= x)%Q /\
      (x < share (prefix_sum i q + nth i q 0%Z) (sum_Z q))%Q) /\
     (share (prefix_sum i q + nth i q 0%Z) (sum_Z q)
      - share (prefix_sum i q) (sum_Z q)
      == share (nth i q 0%Z) (sum_Z q))%Q /\
     (prob (dposition q) (Nat.eqb i) == share (nth i q 0%Z) (sum_Z q))%Q) /\
  (forall (rand : nat -> Q) (p : list Z) (size fuel : nat),
     fst (loop variates vret vbind (vposition rand) fuel p size [] O)
     = option_map found (choice_loop fuel rand p size (mkDraw [] 0 []))) /\
  (forall (p : list Z) (size : nat) (g : list nat -> Q),
     Forall (fun w => 0 <= w) p ->
     (size <= count_positive p)%nat ->
     (expect (choice_dist p size) (on_found g)
      == expect (sequential_dist size p []) g)%Q /\
     (expect (choice_dist p size) (on_found (fun _ => 1)) == 1)%Q) /\
  (forall (df : DataFrame) (g : list nat -> Q),
     let totals := user_total_weights (columns df)
                     (valid_entries df (add_comment_likes df)) in
     let num := if (length totals <? 10)%nat then length totals
                else 10%nat in
     (expect (choice_dist (map snd totals) num) (on_found g)
      == expect (sequential_dist num (map snd totals) []) g)%Q) /\
  (forall rand : nat -> Q,
     unit_variates rand ->
     (sample scenario_weights 1 rand = Some (inr [0%nat])
      <-> (rand O < 4 # 6)%Q) /\
     (sample scenario_weights 1 rand = Some (inr [1%nat])
      <-> (4 # 6 <= rand O)%Q)) /\
  (prob (choice_dist scenario_weights 1) (finds [0%nat]) == 4 # 6)%Q /\
  (prob (choice_dist scenario_weights 1) (finds [1%nat]) == 2 # 6)%Q /\
  (prob (choice_dist scenario_weights 2) (finds [0%nat; 1%nat]) == 4 # 6)%Q /\
  (prob (choice_dist scenario_weights 2) (finds [1%nat; 0%nat]) == 2 # 6)%Q.
Proof.
  assert (Hloop : forall p size g,
            Forall (fun w => 0 <= w) p ->
            (size <= count_positive p)%nat ->
            (expect (choice_dist p size) (on_found g)
             == expect (sequential_dist size p []) g)%Q).
  { intros p size g Hp Hsize. unfold choice_dist.
    rewrite (loop_value g p size Hp Hsize size []) by (simpl; lia).
    unfold value. simpl length. rewrite Nat.sub_0_r. reflexivity. }
  split; [|split; [|split; [|split; [|split]]]].
  - intros p fnd x i Hp HT Hx q.
    assert (Hnth : nth i q 0
                   = if in_dec Nat.eq_dec i fnd then 0 else nth i p 0)
      by (unfold q, zero_at; rewrite zero_from_nth; reflexivity).
    split; [exact Hnth|]. split; [|split].
    + assert (Hlen : length q = length p)
        by (unfold q, zero_at; apply zero_from_length).
      rewrite <- Hlen. apply variate_position; auto.
      apply zero_from_nonneg. exact Hp.
    + unfold share. rewrite inject_Z_plus. unfold Qdiv. ring.
    + unfold q. rewrite (dposition_prob p fnd i Hp). fold q. rewrite Hnth.
      destruct (in_dec Nat.eq_dec i fnd); [|reflexivity].
      unfold share, Qdiv. simpl. ring.
  - intros rand p size fuel.
    apply (loop_variates rand p size fuel (mkDraw [] 0 [])).
  - intros p size g Hp Hsize. split; [now apply Hloop|].
    rewrite Hloop by assumption. apply sequential_mass; [exact Hp|].
    simpl. lia.
  - intros df g totals num.
    pose proof (totals_all_positive df) as Hpos. fold totals in Hpos.
    apply Hloop.
    + apply (Forall_impl _ (P := fun w => 1 <= w)); [intros; lia|exact Hpos].
    + rewrite (count_positive_all _ Hpos), length_map. unfold num.
      destruct (length totals <? 10)%nat eqn:E; [lia|].
      apply Nat.ltb_ge in E. lia.
  - exact scenario_one_draw.
  - repeat split; vm_compute; reflexivity.
Qed.

Lemma draw_is_sequential_weighted_sampling_witness :
  (expect (choice_dist scenario_weights 2)
          (on_found (fun l => if is_positions [1%nat; 0%nat] l
                              then 1 else 0))
   == expect (sequential_dist 2 scenario_weights [])
             (fun l => if is_positions [1%nat; 0%nat] l then 1 else 0))%Q /\
  (searchsorted_right (cdf (zero_at [] scenario_weights)) (5 # 6) = 1%nat <->
   (1 < 2)%nat /\
   (share 4 6 <= 5 # 6)%Q /\
   (5 # 6 < share (4 + 2) 6)%Q).
Proof.
  split.
  - apply (proj1 (proj2 (proj2 draw_is_sequential_weighted_sampling))
             scenario_weights 2%nat).
    + repeat constructor; lia.
    + vm_compute. lia.
  - apply (proj1 (proj2 (proj1 draw_is_sequential_weighted_sampling
                    scenario_weights [] (5 # 6) 1%nat
                    ltac:(repeat constructor; lia)
                    ltac:(vm_compute; reflexivity)
                    ltac:(split; [unfold Qle; simpl; lia|reflexivity])))).
Defined.

(* ================================================================== *)
(** * Part III. Further properties of the scripts *)
(* ================================================================== *)

(** ** The cleaner: what is kept and what is counted *)

Lemma keep_new_cons seen r rs :
  keep_new seen (r :: rs)
  = if in_dec row_eq_dec r seen then keep_new (r :: seen) rs
    else r :: keep_new (r :: seen) rs.
Proof.
  unfold keep_new. simpl. destruct (in_dec row_eq_dec r seen); reflexivity.
Qed.

Lemma keep_new_in rs : forall seen r,
  In r (keep_new seen rs) <-> In r rs /\ ~ In r seen.
Proof.
  induction rs as [|r0 rs IH]; intros seen r.
  - unfold keep_new. simpl. tauto.
  - rewrite keep_new_cons.
    destruct (in_dec row_eq_dec r0 seen) as [Hin|Hout]; simpl; rewrite IH;
      simpl.
    + split; [tauto|]. intros [[<-|H] Hs]; [contradiction|].
      split; [exact H|]. intros [<-|C]; contradiction.
    + split.
      * intros [<-|[H Hs]]; [tauto|]. split; [tauto|]. tauto.
      * intros [[<-|H] Hs]; [tauto|].
        destruct (row_eq_dec r0 r) as [->|Hne]; [tauto|].
        right. split; [exact H|]. intros [C|C]; [congruence|contradiction].
Qed.

Lemma keep_new_ext rs : forall seen seen',
  (forall r, In r seen <-> In r seen') ->
  keep_new seen rs = keep_new seen' rs.
Proof.
  induction rs as [|r0 rs IH]; intros seen seen' H; [reflexivity|].
  rewrite !keep_new_cons.
  assert (Hrec : keep_new (r0 :: seen) rs = keep_new (r0 :: seen') rs).
  { apply IH. intros r. simpl. rewrite H. tauto. }
  destruct (in_dec row_eq_dec r0 seen) as [Hin|Hout];
    destruct (in_dec row_eq_dec r0 seen') as [Hin'|Hout'];
    rewrite ?Hrec; try reflexivity.
  - exfalso. apply Hout'. apply H. exact Hin.
  - exfalso. apply Hout. apply H. exact Hin'.
Qed.

Lemma keep_new_app l1 : forall seen l2,
  keep_new seen (l1 ++ l2) = keep_new seen l1 ++ keep_new (l1 ++ seen) l2.
Proof.
  induction l1 as [|r l1 IH]; intros seen l2; [reflexivity|].
  simpl app. rewrite !keep_new_cons, IH.
  assert (E : keep_new (l1 ++ r :: seen) l2
              = keep_new (r :: l1 ++ seen) l2).
  { apply keep_new_ext. intros x. simpl. rewrite !in_app_iff. simpl. tauto. }
  rewrite E. destruct (in_dec row_eq_dec r seen); reflexivity.
Qed.

Lemma select_count {A} (mask : list bool) : forall l : list A,
  length mask = length l ->
  (length (select (map negb mask) l) + mask_sum mask)%nat = length l.
Proof.
  unfold mask_sum.
  induction mask as [|b mask IH]; intros [|x l] H; try discriminate;
    [reflexivity|].
  simpl in H. specialize (IH l ltac:(lia)).
  destruct b; cbn [map negb select filter length]; lia.
Qed.

Lemma clean_frame_columns_range df rep :
  clean_frame df = Finished rep -> (3 <= length (columns df) <= 14)%nat.
Proof.
  intros H. pose proof (clean_frame_finished df rep H) as (Hn & _).
  split; [|exact Hn].
  destruct (Nat.lt_ge_cases (length (columns df)) 3) as [Hlt|Hge];
    [|exact Hge].
  rewrite (clean_frame_no_username_column df Hlt) in H. discriminate.
Qed.

Lemma clean_frame_full_columns df :
  length (columns df) = 14%nat ->
  exists rep, clean_frame df = Finished rep /\ warned rep = false /\
    columns (df_cleaned rep) = new_column_names.
Proof.
  intros H. unfold clean_frame, set_columns.
  change (length new_column_names) with 14%nat. rewrite H. simpl.
  eexists. split; [reflexivity|]. split; reflexivity.
Qed.

(** X1.  The rows of the cleaned frame are pairwise different and are
    the rows of the input: no content is lost and none is left twice.
    The counts of the report agree: the rows read are the rows kept
    plus the duplicates found, and the rows removed are the duplicates
    found. *)
Theorem cleaned_rows_distinct_and_accounted
    (df : DataFrame) (rep : clean_report) :
  clean_frame df = Finished rep ->
  NoDup (rows (df_cleaned rep)) /\
  (forall r, In r (rows (df_cleaned rep)) <-> In r (rows df)) /\
  original_rows rep = (cleaned_rows rep + num_duplicates rep)%nat /\
  total_rows_removed rep = num_duplicates rep /\
  (cleaned_rows rep <= original_rows rep)%nat.
Proof.
  intros H.
  pose proof (clean_frame_finished df rep H)
    as (_ & _ & _ & Hrows & Hnum & Horig & Hcl & Htot & _).
  assert (Hcount : (length (rows (df_cleaned rep)) + num_duplicates rep)%nat
                   = length (rows df)).
  { rewrite Hrows, Hnum. apply select_count.
    unfold duplicated. apply duplicated_from_length. }
  split; [rewrite Hrows; apply drop_duplicate_rows_NoDup|].
  split.
  - intros r. rewrite Hrows.
    change (drop_duplicate_rows (rows df)) with (keep_new [] (rows df)).
    rewrite keep_new_in. simpl. tauto.
  - rewrite Htot, Horig, Hcl. lia.
Qed.

Lemma cleaned_rows_distinct_and_accounted_witness :
  exists rep,
    clean_frame (read_csv default_na_values scenario) = Finished rep /\
    original_rows rep = 5%nat /\ cleaned_rows rep = 4%nat /\
    num_duplicates rep = 1%nat /\
    NoDup (rows (df_cleaned rep)) /\
    original_rows rep = (cleaned_rows rep + num_duplicates rep)%nat.
Proof.
  eexists. split; [vm_compute; reflexivity|].
  split; [reflexivity|]. split; [reflexivity|]. split; [reflexivity|].
  pose proof (cleaned_rows_distinct_and_accounted
                (read_csv default_na_values scenario) _ eq_refl)
    as (H1 & _ & H3 & _).
  split; [exact H1|exact H3].
Defined.

Lemma nodup_length_members (l l' : list string) :
  (forall x, In x l <-> In x l') ->
  length (nodup string_dec l) = length (nodup string_dec l').
Proof.
  intros H. apply Permutation_length.
  apply NoDup_Permutation; try apply NoDup_nodup.
  intros x. rewrite !nodup_In. apply H.
Qed.

Lemma present_length cs : (length (present cs) <= length cs)%nat.
Proof.
  induction cs as [|[s|] cs IH]; simpl; lia.
Qed.

Lemma nodup_length_le (l : list string) :
  (length (nodup string_dec l) <= length l)%nat.
Proof.
  induction l as [|x l IH]; simpl; [lia|].
  destruct (in_dec string_dec x l); simpl; lia.
Qed.

(** X2.  Cleaning loses no participant: the number of participants that
    the report prints is the number of distinct user names, NaN not
    counted, in the third column of the file as it was loaded; it is at
    most the number of rows kept. *)
Theorem cleaning_keeps_every_participant
    (df : DataFrame) (rep : clean_report) :
  clean_frame df = Finished rep ->
  unique_participants rep = nunique (map (fun r => nth 2 r None) (rows df)) /\
  (unique_participants rep <= cleaned_rows rep)%nat.
Proof.
  intros H.
  pose proof (clean_frame_columns_range df rep H) as [H3 _].
  pose proof (clean_frame_finished df rep H)
    as (_ & _ & Hcols & Hrows & _ & _ & Hcl & _).
  assert (Hu : unique_participants rep
               = nunique (map (get (columns (df_cleaned rep)) "username")
                              (rows (df_cleaned rep)))).
  { revert H. unfold clean_frame.
    destruct (if Nat.eqb _ _ then _ else _) as [e|df']; [discriminate|].
    destruct (has_column _ "username"); [|discriminate].
    intros H. injection H as <-. reflexivity. }
  assert (Hget : forall r, get (columns (df_cleaned rep)) "username" r
                           = nth 2 r None).
  { intros r. unfold get. rewrite Hcols, index_of_firstn_username by lia.
    reflexivity. }
  rewrite Hu, (map_ext _ _ Hget). split.
  - unfold nunique. apply nodup_length_members. intros x.
    rewrite !present_in, !in_map_iff. rewrite Hrows.
    change (drop_duplicate_rows (rows df)) with (keep_new [] (rows df)).
    split; intros (r & Hr & Hin); exists r; (split; [exact Hr|]).
    + apply keep_new_in in Hin. tauto.
    + apply keep_new_in. simpl. tauto.
  - rewrite Hcl. unfold nunique.
    pose proof (nodup_length_le
                  (present (map (fun r : row => nth 2 r None)
                                (rows (df_cleaned rep))))).
    pose proof (present_length (map (fun r : row => nth 2 r None)
                                    (rows (df_cleaned rep)))).
    rewrite length_map in *. lia.
Qed.

Lemma cleaning_keeps_every_participant_witness :
  exists rep,
    clean_frame (read_csv default_na_values scenario) = Finished rep /\
    unique_participants rep = 3%nat /\
    nunique (map (fun r => nth 2 r None)
                 (rows (read_csv default_na_values scenario))) = 3%nat.
Proof.
  eexists. split; [vm_compute; reflexivity|]. split; [reflexivity|].
  rewrite <- (proj1 (cleaning_keeps_every_participant
                       (read_csv default_na_values scenario) _ eq_refl)).
  reflexivity.
Defined.

Lemma clean_frame_by_columns (df : DataFrame) :
  let n := length (columns df) in
  ((n < 3)%nat -> clean_frame df = Raised (KeyError "username")) /\
  ((3 <= n <= 14)%nat ->
   exists rep, clean_frame df = Finished rep /\
     warned rep = negb (Nat.eqb n 14) /\
     columns (df_cleaned rep) = firstn n new_column_names).
Proof.
  intros n.
  split; [apply clean_frame_no_username_column|].
  intros Hn. destruct (Nat.eq_dec n 14) as [E|NE].
  - destruct (clean_frame_full_columns df E) as (rep & H & Hw & Hc).
    exists rep. split; [exact H|]. rewrite E. split; [exact Hw|exact Hc].
  - destruct (clean_frame_fewer_columns df) as (rep & H & Hw);
      [subst n; lia|].
    exists rep. split; [exact H|].
    pose proof (clean_frame_finished df rep H) as (_ & Hw' & Hc & _).
    split; [exact Hw'|exact Hc].
Qed.

(** X3.  What a run of the cleaner comes to is settled by the number of
    columns of the file.  With fewer than three columns there is no
    [username] column after the renaming and the statistics raise
    [KeyError]; with three to fourteen columns the run finishes, the
    columns get the first labels of the list, and the warning is printed
    unless there are fourteen of them.  No other file is cleaned. *)
Theorem clean_outcome_by_column_count (df : DataFrame) :
  let n := length (columns df) in
  ((n < 3)%nat -> clean_frame df = Raised (KeyError "username")) /\
  ((3 <= n <= 14)%nat ->
   exists rep, clean_frame df = Finished rep /\
     warned rep = negb (Nat.eqb n 14) /\
     columns (df_cleaned rep) = firstn n new_column_names) /\
  ((exists rep, clean_frame df = Finished rep) <-> (3 <= n <= 14)%nat).
Proof.
  intros n. destruct (clean_frame_by_columns df) as [Hlow Hfin].
  fold n in Hlow, Hfin.
  split; [exact Hlow|]. split; [exact Hfin|].
  split.
  - intros (rep & H). exact (clean_frame_columns_range df rep H).
  - intros Hn. destruct (Hfin Hn) as (rep & H & _). exists rep. exact H.
Qed.

Lemma clean_outcome_by_column_count_witness :
  clean_frame (mkDF ["a"; "b"] [[Some "x"; Some "y"]])
  = Raised (KeyError "username") /\
  exists rep,
    clean_frame (mkDF ["a"; "b"; "c"] [[Some "x"; Some "y"; Some "z"]])
    = Finished rep /\ warned rep = true /\
    columns (df_cleaned rep) = ["profile_url"; "profile_picture_url";
                                "username"].
Proof.
  split.
  - apply (clean_outcome_by_column_count
             (mkDF ["a"; "b"] [[Some "x"; Some "y"]])). simpl. lia.
  - apply (clean_outcome_by_column_count
             (mkDF ["a"; "b"; "c"] [[Some "x"; Some "y"; Some "z"]])).
    simpl. lia.
Defined.

(** X4.  A row that repeats an earlier row of the file changes nothing
    of what is saved: with or without it the cleaned frame and the file
    written are the same, and the count of duplicates is one more with
    it. *)
Theorem repeated_row_is_dropped
    (cols : list string) (l1 l2 : list row) (r : row) (rep : clean_report) :
  In r l1 ->
  clean_frame (mkDF cols (l1 ++ r :: l2)) = Finished rep ->
  exists rep',
    clean_frame (mkDF cols (l1 ++ l2)) = Finished rep' /\
    df_cleaned rep' = df_cleaned rep /\
    saved rep' = saved rep /\
    num_duplicates rep = S (num_duplicates rep').
Proof.
  intros Hin H.
  pose proof (clean_frame_columns_range _ _ H) as Hn.
  destruct (proj2 (clean_frame_by_columns
                     (mkDF cols (l1 ++ l2))) Hn)
    as (rep' & H' & _).
  exists rep'. split; [exact H'|].
  pose proof (clean_frame_finished _ _ H)
    as (_ & _ & Hc & Hr & Hd & _ & _ & _ & Hs).
  pose proof (clean_frame_finished _ _ H')
    as (_ & _ & Hc' & Hr' & Hd' & _ & _ & _ & Hs').
  cbn [columns rows] in *.
  assert (Hrows : drop_duplicate_rows (l1 ++ r :: l2)
                  = drop_duplicate_rows (l1 ++ l2)).
  { change (keep_new [] (l1 ++ r :: l2) = keep_new [] (l1 ++ l2)).
    rewrite !keep_new_app, keep_new_cons.
    destruct (in_dec row_eq_dec r (l1 ++ [])) as [_|C].
    - f_equal. apply keep_new_ext. intros x. simpl.
      rewrite !in_app_iff. simpl. split; [|tauto].
      intros [<-|[Hx|[]]]; tauto.
    - exfalso. apply C. apply in_or_app. left. exact Hin. }
  assert (Hdf : df_cleaned rep' = df_cleaned rep).
  { destruct (df_cleaned rep') as [c' r'], (df_cleaned rep) as [c0 r0].
    cbn [columns rows] in *. congruence. }
  split; [exact Hdf|]. split; [congruence|].
  pose proof (select_count (duplicated (l1 ++ r :: l2)) (l1 ++ r :: l2)
                (duplicated_from_length _ _)) as E.
  pose proof (select_count (duplicated (l1 ++ l2)) (l1 ++ l2)
                (duplicated_from_length _ _)) as E'.
  fold (drop_duplicate_rows (l1 ++ r :: l2)) in E.
  fold (drop_duplicate_rows (l1 ++ l2)) in E'.
  rewrite Hrows in E. rewrite <- Hd in E. rewrite <- Hd' in E'.
  rewrite !length_app in *. cbn [length] in E. lia.
Qed.

Lemma repeated_row_is_dropped_witness :
  let parse := map (parse_cell default_na_values) in
  let l1 := [ parse (comment_record "ig/u1" "u1" "a" "b" "c" "Reply");
              parse (comment_record "ig/u1" "u1" "d" "e" "f" "2 likes") ] in
  let r := parse (comment_record "ig/u1" "u1" "d" "e" "f" "2 likes") in
  let l2 := [ parse (comment_record "ig/u2" "u2" "a" "b" "c" "1 like") ] in
  In r l1 /\
  exists rep rep',
    clean_frame (mkDF raw_header (l1 ++ r :: l2)) = Finished rep /\
    clean_frame (mkDF raw_header (l1 ++ l2)) = Finished rep' /\
    saved rep' = saved rep /\ num_duplicates rep = 1%nat.
Proof.
  intros parse l1 r l2.
  split; [right; left; reflexivity|].
  eexists.
  destruct (repeated_row_is_dropped raw_header l1 l2 r _
              (or_intror (or_introl eq_refl)) eq_refl)
    as (rep' & H' & _ & Hs & _).
  exists rep'. split; [reflexivity|]. split; [exact H'|].
  split; [exact Hs|reflexivity].
Defined.

(** ** From the cleaner to the other scripts *)

Lemma first_missing_columns df df' names :
  columns df = columns df' ->
  first_missing df names = first_missing df' names.
Proof.
  intros E. induction names as [|n names IH]; [reflexivity|].
  simpl. unfold has_column. rewrite E, IH. reflexivity.
Qed.

Lemma first_missing_in df names n :
  first_missing df names = Some n ->
  In n names /\ has_column df n = false.
Proof.
  induction names as [|m names IH]; [discriminate|].
  simpl. destruct (has_column df m) eqn:E.
  - intros H. destruct (IH H). tauto.
  - intros H. injection H as <-. tauto.
Qed.

Lemma decimal_lt s :
  all_digits s -> decimal s < 10 ^ Z.of_nat (String.length s).
Proof.
  unfold all_digits. induction s as [|c s IH]; simpl String.length;
    intros H; [simpl; lia|].
  cbn [string_forall] in H. apply andb_true_iff in H.
  destruct H as [Hc Hs]. pose proof (is_digit_value c Hc).
  specialize (IH Hs). cbn [decimal].
  rewrite Nat2Z.inj_succ, Z.pow_succ_r by lia.
  assert (0 < 10 ^ Z.of_nat (String.length s))
    by (apply Z.pow_pos_nonneg; lia).
  nia.
Qed.

(** A count in range is a number that [int64] holds. *)
Lemma plain_not_too_large c : plain_cell c = true -> too_large c = false.
Proof.
  unfold too_large. destruct c as [s|]; [|intros _; reflexivity].
  cbn [plain_cell str_extract]. intros H. apply andb_true_iff in H.
  destruct H as [_ H]. unfold short_run in H.
  destruct (search_digits s) as [run|] eqn:E; [|reflexivity].
  cbn [fillna0_astype_int]. apply Z.leb_gt.
  apply Nat.leb_le in H. apply search_digits_run in E.
  destruct E as (_ & Hd & _).
  rewrite int_of_digits_decimal. pose proof (decimal_lt run Hd).
  assert (10 ^ Z.of_nat (String.length run) <= 10 ^ 18)
    by (apply Z.pow_le_mono_r; lia).
  lia.
Qed.

Lemma counts_in_range_likes df :
  counts_in_range df = true ->
  likes_error df
  = if has_column df "action_type" && negb (text_column (action_cells df))
    then Some AttributeError else None.
Proof.
  unfold counts_in_range, likes_error. intros H.
  apply andb_true_iff in H. destruct H as [H _].
  destruct (has_column df "action_type"); [|reflexivity]. cbn [andb].
  destruct (text_column (action_cells df)); [|reflexivity]. cbn [negb].
  assert (E : existsb too_large (action_cells df) = false).
  { induction (action_cells df) as [|c cells IH]; [reflexivity|].
    cbn [forallb existsb] in *. apply andb_true_iff in H.
    destruct H as [Hc H]. rewrite (plain_not_too_large c Hc).
    exact (IH H). }
  rewrite E. reflexivity.
Qed.

Lemma likes_error_cases df e :
  likes_error df = Some e ->
  has_column df "action_type" = true /\
  (e = AttributeError \/ e = OverflowError).
Proof.
  unfold likes_error. destruct (has_column df "action_type");
    [|discriminate].
  destruct (text_column (action_cells df)); cbn [negb].
  - destruct (existsb too_large (action_cells df)); [|discriminate].
    intros H. injection H as <-. auto.
  - intros H. injection H as <-. auto.
Qed.

Lemma sample_raises weights n rand e :
  sample weights n rand = Some (inl e) -> e = ValueError.
Proof.
  unfold sample, sample_state.
  destruct (existsb _ weights); [intros H; injection H as <-; reflexivity|].
  destruct (sum_Z weights =? 0);
    [intros H; injection H as <-; reflexivity|].
  destruct (length weights <? n)%nat;
    [intros H; injection H as <-; reflexivity|].
  destruct (count_positive weights <? n)%nat;
    [intros H; injection H as <-; reflexivity|].
  destruct (choice_loop _ _ _ _ _); discriminate.
Qed.

(** The [KeyError] of a run names a column that the script reads and
    the frame lacks. *)
Lemma pick_key_error df rand n :
  pick_from_frame df rand = Some (PickRaised (KeyError n)) ->
  has_column df n = false /\
  In n (mention_columns ++ ["username"; "profile_url"]).
Proof.
  unfold pick_from_frame.
  destruct (likes_error df) as [e|] eqn:El.
  { intros H. injection H as ->.
    destruct (likes_error_cases df _ El) as [_ [C|C]]; discriminate. }
  unfold pick_after_likes.
  destruct (first_missing df mention_columns) as [m|] eqn:Hm.
  { intros H. injection H as ->.
    destruct (first_missing_in _ _ _ Hm) as [Hin Hc].
    split; [exact Hc|]. apply in_or_app. left. exact Hin. }
  destruct (valid_entries df (add_comment_likes df)) as [|e es];
    [discriminate|].
  destruct (has_column df "username") eqn:Hun; cbn [negb].
  2:{ intros H. injection H as <-. split; [exact Hun|].
      apply in_or_app. right. left. reflexivity. }
  destruct (Nat.eqb _ 0); [discriminate|].
  destruct (sample _ _ rand) as [[err|positions]|] eqn:Es;
    [|idtac|discriminate].
  { intros H. injection H as ->. apply sample_raises in Es.
    discriminate. }
  destruct (has_column df "profile_url") eqn:Hp; cbn [negb];
    [discriminate|].
  intros H. injection H as <-. split; [exact Hp|].
  apply in_or_app. right. right. left. reflexivity.
Qed.

Lemma analyze_key_error df names n :
  analyze_frame df names = Raised (KeyError n) ->
  has_column df n = false /\
  In n (mention_columns ++ ["username"; "profile_url"]).
Proof.
  unfold analyze_frame.
  destruct (likes_error df) as [e|] eqn:El.
  { intros H. injection H as ->.
    destruct (likes_error_cases df _ El) as [_ [C|C]]; discriminate. }
  unfold analyze_after_likes.
  destruct (first_missing df mention_columns) as [m|] eqn:Hm.
  { intros H. injection H as ->.
    destruct (first_missing_in _ _ _ Hm) as [Hin Hc].
    split; [exact Hc|]. apply in_or_app. left. exact Hin. }
  destruct (valid_entries df (add_comment_likes df)) as [|e es];
    [discriminate|].
  destruct (has_column df "username") eqn:Hun; cbn [negb].
  2:{ intros H. injection H as <-. split; [exact Hun|].
      apply in_or_app. right. left. reflexivity. }
  destruct (has_column df "profile_url") eqn:Hp; cbn [negb];
    [discriminate|].
  intros H. injection H as <-. split; [exact Hp|].
  apply in_or_app. right. right. left. reflexivity.
Qed.

(** When line 33 raises nothing, a run on a loaded frame comes to a
    result for variates of [0, 1), and what it raises is a
    [KeyError]. *)
Lemma pick_after_likes_reports df rand :
  unit_variates rand ->
  exists res, pick_after_likes df rand = Some res /\
    forall e, res = PickRaised e -> exists n, e = KeyError n.
Proof.
  intros Hu. unfold pick_after_likes.
  destruct (first_missing df mention_columns) as [n|] eqn:Hm.
  { eexists. split; [reflexivity|]. intros e E. injection E as <-.
    eexists. reflexivity. }
  destruct (valid_entries df (add_comment_likes df)) as [|e es] eqn:Hv.
  { eexists. split; [reflexivity|]. discriminate. }
  destruct (has_column df "username") eqn:Hun; cbn [negb].
  2:{ eexists. split; [reflexivity|]. intros e' E. injection E as <-.
      eexists. reflexivity. }
  set (totals := user_total_weights (columns df) (e :: es)).
  set (num := if (length totals <? 10)%nat then length totals else 10%nat).
  destruct (Nat.eqb num 0) eqn:Hz.
  { eexists. split; [reflexivity|]. discriminate. }
  assert (Hne : totals <> []).
  { intros E. apply Nat.eqb_neq in Hz. apply Hz. subst num.
    rewrite E. reflexivity. }
  pose proof (draw_on_totals df rand Hu) as Hd. cbv zeta in Hd.
  rewrite Hv in Hd. fold totals in Hd. fold num in Hd.
  destruct (Hd Hne) as (st & _ & Hs & _).
  rewrite Hs.
  destruct (has_column df "profile_url") eqn:Hp; cbn [negb].
  - eexists. split; [reflexivity|]. discriminate.
  - eexists. split; [reflexivity|]. intros e' E. injection E as <-.
    eexists. reflexivity.
Qed.

(** X5.  The file that the cleaner saves is read back by the other
    scripts as the cleaned frame itself, so running them on the file is
    running them on that frame.  When the scraped file has the fourteen
    columns expected, the saved file has every column that the picker
    and the analysis look up: neither raises [KeyError] on it. *)
Theorem cleaned_file_feeds_the_picker
    (na : list string) (f : csv) (rep : clean_report) :
  In "" na ->
  advanced_clean_instagram_csv na (Some f) = Finished rep ->
  read_csv na (saved rep) = df_cleaned rep /\
  (forall rand,
     pick_giveaway_winners na (Some (saved rep)) rand
     = pick_from_frame (df_cleaned rep) rand) /\
  (forall names,
     analyze_giveaway_results na (Some (saved rep)) names
     = analyze_frame (df_cleaned rep) names) /\
  (length (header f) = 14%nat ->
   columns (df_cleaned rep) = new_column_names /\
   (forall rand n,
      pick_giveaway_winners na (Some (saved rep)) rand
      <> Some (PickRaised (KeyError n))) /\
   (forall names n,
      analyze_giveaway_results na (Some (saved rep)) names
      <> Raised (KeyError n))).
Proof.
  intros Hna H. cbn [advanced_clean_instagram_csv] in H.
  pose proof (clean_frame_finished _ _ H)
    as (_ & _ & Hc & Hr & _ & _ & _ & _ & Hs).
  assert (E : read_csv na (saved rep) = df_cleaned rep).
  { rewrite Hs. apply read_to_csv; [exact Hna|].
    intros r Hin. rewrite Hr in Hin.
    change (drop_duplicate_rows ?l) with (keep_new [] l) in Hin.
    apply keep_new_in in Hin. destruct Hin as [Hin _].
    exact (read_csv_no_na_token na f r Hin). }
  split; [exact E|].
  split; [intros rand; cbn [pick_giveaway_winners]; rewrite E; reflexivity|].
  split; [intros names; cbn [analyze_giveaway_results]; rewrite E;
          reflexivity|].
  intros H14.
  cbn [read_csv columns] in Hc. rewrite H14 in Hc.
  change (firstn 14 new_column_names) with new_column_names in Hc.
  assert (Hcols : forall n,
            has_column (df_cleaned rep) n = false ->
            In n (mention_columns ++ ["username"; "profile_url"]) ->
            False).
  { intros n Hcol Hin. unfold has_column in Hcol. rewrite Hc in Hcol.
    simpl in Hin.
    destruct Hin as [<-|[<-|[<-|[<-|[<-|[]]]]]]; discriminate Hcol. }
  split; [exact Hc|]. split.
  - intros rand n. cbn [pick_giveaway_winners]. rewrite E. intros Hk.
    destruct (pick_key_error _ _ _ Hk) as [Hcol Hin].
    exact (Hcols n Hcol Hin).
  - intros names n. cbn [analyze_giveaway_results]. rewrite E. intros Hk.
    destruct (analyze_key_error _ _ _ Hk) as [Hcol Hin].
    exact (Hcols n Hcol Hin).
Qed.

Lemma cleaned_file_feeds_the_picker_witness :
  exists rep,
    advanced_clean_instagram_csv default_na_values (Some scenario)
    = Finished rep /\
    read_csv default_na_values (saved rep) = df_cleaned rep.
Proof.
  eexists. split; [vm_compute; reflexivity|].
  apply (cleaned_file_feeds_the_picker default_na_values scenario _
           (or_introl eq_refl) eq_refl).
Defined.

(** ** The picker: how many winners, and what a run comes to *)

Lemma index_of_None name cols :
  index_of name cols = None -> ~ In name cols.
Proof.
  induction cols as [|c cols IH]; simpl; [tauto|].
  destruct (String.eqb name c) eqn:E; [discriminate|].
  destruct (index_of name cols); [discriminate|].
  intros _ [H|H]; [|exact (IH eq_refl H)].
  subst c. rewrite String.eqb_refl in E. discriminate.
Qed.

(** X6.  On a frame whose likes are read without an exception and whose
    counts are in range, with ten participants or more, a run on a
    frame that has the columns read announces exactly ten winners, all
    different, and prints no warning. *)
Theorem ten_winners_from_a_larger_field (df : DataFrame) (rand : nat -> Q) :
  unit_variates rand ->
  likes_error df = None ->
  counts_in_range df = true ->
  first_missing df mention_columns = None ->
  has_column df "username" = true ->
  has_column df "profile_url" = true ->
  (10 <= length (user_total_weights64 (columns df)
                   (valid_entries df (add_comment_likes df))))%nat ->
  exists a,
    pick_from_frame df rand = Some (Announced a) /\
    fewer_warning a = false /\
    num_winners_to_pick a = 10%nat /\
    length (winning_usernames a) = 10%nat /\
    length (winners a) = 10%nat /\
    NoDup (winning_usernames a).
Proof.
  intros Hu Hl Hr Hm Hn Hp H10.
  rewrite (int64_totals_of_frame df Hr) in H10.
  pose proof (pick_from_frame_cases df rand Hu Hl Hm Hn Hp) as Hc.
  cbv zeta in Hc.
  set (totals := user_total_weights (columns df)
                   (valid_entries df (add_comment_likes df))) in *.
  assert (Hlt : (length totals <? 10)%nat = false)
    by (apply Nat.ltb_ge; exact H10).
  rewrite Hlt in Hc.
  destruct Hc as [[Hv _]|[(_ & Ht & _)|(_ & st & _ & Hinv & Hlen & Hpick)]].
  - exfalso. subst totals. rewrite Hv in H10. simpl in H10. lia.
  - exfalso. rewrite Ht in H10. simpl in H10. lia.
  - eexists. split; [exact Hpick|]. cbn.
    split; [reflexivity|]. split; [reflexivity|].
    rewrite !length_map. split; [exact Hlen|]. split; [exact Hlen|].
    destruct Hinv as (Hnd & Hrange & _).
    apply names_NoDup; [|exact Hnd|].
    + subst totals. rewrite totals_keys. apply group_keys_NoDup.
    + intros i Hi. destruct (Hrange i Hi) as [Hi' _].
      rewrite length_map in *. exact Hi'.
Qed.

Lemma ten_winners_from_a_larger_field_witness :
  exists a,
    pick_from_frame (read_csv default_na_values crowd) (fun _ => 0%Q)
    = Some (Announced a) /\
    fewer_warning a = false /\
    num_winners_to_pick a = 10%nat /\
    length (winning_usernames a) = 10%nat /\
    length (winners a) = 10%nat /\
    NoDup (winning_usernames a).
Proof.
  apply (ten_winners_from_a_larger_field
           (read_csv default_na_values crowd) (fun _ => 0%Q)
           unit_variates_zero eq_refl eq_refl eq_refl eq_refl eq_refl).
  vm_compute. lia.
Defined.

(** X7.  On a file whose counts are in range, a run of the picker comes
    to a result when the variates are numbers of [0, 1): the draw loop
    ends, and the checks of the sampler never fail, so neither
    [ValueError] nor [OverflowError] is raised.  [AttributeError] is
    raised exactly when the file has an [action_type] column that
    holds no text.  A [KeyError] names one of the five columns read,
    and that column is not in the file. *)
Theorem picker_always_reports
    (na : list string) (file : option csv) (rand : nat -> Q) :
  unit_variates rand ->
  (forall f, file = Some f -> counts_in_range (read_csv na f) = true) ->
  exists res,
    pick_giveaway_winners na file rand = Some res /\
    res <> PickRaised ValueError /\
    res <> PickRaised OverflowError /\
    (res = PickRaised AttributeError <->
     exists f, file = Some f /\
       In "action_type" (header f) /\
       text_column (action_cells (read_csv na f)) = false) /\
    forall n, res = PickRaised (KeyError n) ->
      In n (mention_columns ++ ["username"; "profile_url"]) /\
      exists f, file = Some f /\ ~ In n (header f).
Proof.
  intros Hu Hr. destruct file as [f|]; cbn [pick_giveaway_winners].
  2:{ exists NotLoaded. split; [reflexivity|].
      split; [discriminate|]. split; [discriminate|].
      split; [|discriminate].
      split; [discriminate|]. intros (f & C & _). discriminate. }
  specialize (Hr f eq_refl). set (df := read_csv na f) in *.
  assert (Hkey : forall res n,
            pick_from_frame df rand = Some res ->
            res = PickRaised (KeyError n) ->
            In n (mention_columns ++ ["username"; "profile_url"]) /\
            exists f', Some f = Some f' /\ ~ In n (header f')).
  { intros res n Hres ->. destruct (pick_key_error _ _ _ Hres) as [Hc Hin].
    split; [exact Hin|]. exists f. split; [reflexivity|].
    apply index_of_None. unfold has_column in Hc.
    destruct (index_of n (columns df)) eqn:E; [discriminate|exact E]. }
  assert (Hcol : has_column df "action_type" = true <->
                 In "action_type" (header f)).
  { unfold has_column. change (columns df) with (header f).
    destruct (index_of "action_type" (header f)) eqn:E.
    - split; [|reflexivity]. intros _.
      destruct (in_dec string_dec "action_type" (header f)) as [Hin|Hout];
        [exact Hin|].
      exfalso. clear - E Hout. revert n E.
      induction (header f) as [|c cols IH]; intros n E; [discriminate|].
      cbn [index_of] in E.
      destruct (String.eqb "action_type" c) eqn:Ec.
      + apply String.eqb_eq in Ec. apply Hout. left. symmetry. exact Ec.
      + destruct (index_of "action_type" cols) eqn:E'; [|discriminate].
        apply (IH (fun H => Hout (or_intror H)) n0 eq_refl).
    - split; [discriminate|]. intros Hin.
      exfalso. exact (index_of_None _ _ E Hin). }
  pose proof (counts_in_range_likes df Hr) as Hl.
  destruct (has_column df "action_type" && negb (text_column (action_cells df)))
    eqn:Eb.
  - exists (PickRaised AttributeError).
    assert (Hres : pick_from_frame df rand
                   = Some (PickRaised AttributeError))
      by (unfold pick_from_frame; rewrite Hl; reflexivity).
    split; [exact Hres|]. split; [discriminate|]. split; [discriminate|].
    split; [|intros n C; discriminate].
    split; [|reflexivity]. intros _. exists f.
    apply andb_true_iff in Eb. destruct Eb as [Hc Ht].
    split; [reflexivity|]. split; [apply Hcol; exact Hc|].
    apply negb_true_iff. exact Ht.
  - destruct (pick_after_likes_reports df rand Hu) as (res & Hres & Hk).
    assert (Hres' : pick_from_frame df rand = Some res)
      by (rewrite (pick_from_frame_likes df rand Hl); exact Hres).
    exists res. split; [exact Hres'|].
    split; [intros C; destruct (Hk _ C); discriminate|].
    split; [intros C; destruct (Hk _ C); discriminate|].
    split; [|intros n C; exact (Hkey res n Hres' C)].
    split; [intros C; destruct (Hk _ C); discriminate|].
    intros (f' & Ef & Hin & Ht). injection Ef as <-.
    apply Hcol in Hin. fold df in Ht. rewrite Hin, Ht in Eb. discriminate.
Qed.

Lemma picker_always_reports_witness :
  (exists res,
     pick_giveaway_winners default_na_values (Some cleaned_scenario)
       high_then_low = Some res /\
     res <> PickRaised ValueError /\
     res <> PickRaised OverflowError) /\
  pick_giveaway_winners default_na_values (Some blank_likes) high_then_low
  = Some (PickRaised AttributeError).
Proof.
  split.
  - destruct (picker_always_reports default_na_values
                (Some cleaned_scenario) high_then_low
                unit_variates_high_then_low
                ltac:(intros f E; injection E as <-; reflexivity))
      as (res & H & Hv & Ho & _).
    exists res. split; [exact H|]. split; [exact Hv|exact Ho].
  - destruct (picker_always_reports default_na_values
                (Some blank_likes) high_then_low
                unit_variates_high_then_low
                ltac:(intros f E; injection E as <-; reflexivity))
      as (res & H & _ & _ & Ha & _).
    rewrite H. f_equal. apply Ha. exists blank_likes.
    split; [reflexivity|]. split; [|reflexivity].
    vm_compute. tauto.
Defined.

(** ** The picker: total weights *)

Lemma sum_Z_zeros {A} (l : list A) : sum_Z (map (fun _ => 0) l) = 0.
Proof.
  induction l as [|x l IH]; [reflexivity|].
  cbn [map]. rewrite sum_Z_cons. lia.
Qed.

Lemma sum_Z_map_add {A} (g h : A -> Z) (l : list A) :
  sum_Z (map (fun x => g x + h x) l) = sum_Z (map g l) + sum_Z (map h l).
Proof.
  induction l as [|x l IH]; [reflexivity|].
  cbn [map]. rewrite !sum_Z_cons, IH. lia.
Qed.

Lemma sum_Z_one_user (u0 : string) (c : Z) (us : list string) :
  NoDup us ->
  sum_Z (map (fun u => if string_dec u u0 then c else 0) us)
  = if in_dec string_dec u0 us then c else 0.
Proof.
  induction 1 as [|u us Hu Hnd IH]; [reflexivity|].
  cbn [map]. rewrite sum_Z_cons, IH.
  destruct (string_dec u u0) as [->|Hne].
  - destruct (in_dec string_dec u0 us); [contradiction|].
    destruct (in_dec string_dec u0 (u0 :: us)) as [_|C]; [lia|].
    exfalso. apply C. left. reflexivity.
  - destruct (in_dec string_dec u0 us) as [Hin|Hout];
      destruct (in_dec string_dec u0 (u :: us)) as [Hin'|Hout'];
      try lia.
    + exfalso. apply Hout'. right. exact Hin.
    + exfalso. destruct Hin' as [E|Hin']; [exact (Hne E)|exact (Hout Hin')].
Qed.

Lemma entries_of_cons cols u e es :
  entries_of cols u (e :: es)
  = if cell_eq_dec (username_of cols e) (Some u)
    then e :: entries_of cols u es else entries_of cols u es.
Proof.
  unfold entries_of. cbn [filter].
  destruct (cell_eq_dec (username_of cols e) (Some u)); reflexivity.
Qed.

(** Summing over the users one by one is summing over the entries that
    carry one of their names. *)
Lemma sum_over_users_entries cols (f : scored -> Z) us : forall es,
  NoDup us ->
  sum_over_users cols f us es
  = sum_Z (map f (filter (fun e => isin us (username_of cols e)) es)).
Proof.
  intros es Hnd. unfold sum_over_users.
  induction es as [|e es IH].
  - cbn [filter map]. apply sum_Z_zeros.
  - cbn [filter]. destruct (username_of cols e) as [u0|] eqn:Eu.
    + rewrite (map_ext _
         (fun u => (if string_dec u u0 then f e else 0)
                   + sum_Z (map f (entries_of cols u es)))).
      2:{ intros u. rewrite entries_of_cons, Eu.
          destruct (cell_eq_dec (Some u0) (Some u)) as [E|NE];
            destruct (string_dec u u0) as [E'|NE']; try congruence.
          - cbn [map]. rewrite sum_Z_cons. reflexivity.
          - lia. }
      rewrite sum_Z_map_add, IH, sum_Z_one_user by exact Hnd.
      cbn [isin]. destruct (in_dec string_dec u0 us).
      * cbn [map]. rewrite sum_Z_cons. reflexivity.
      * lia.
    + cbn [isin]. rewrite <- IH. f_equal. apply map_ext. intros u.
      rewrite entries_of_cons, Eu.
      destruct (cell_eq_dec None (Some u)); [discriminate|reflexivity].
Qed.

Lemma filter_ext_in_list {A} (f g : A -> bool) (l : list A) :
  (forall x, In x l -> f x = g x) -> filter f l = filter g l.
Proof.
  induction l as [|x l IH]; intros H; [reflexivity|].
  cbn [filter]. rewrite (H x (or_introl eq_refl)), IH; [reflexivity|].
  intros y Hy. apply H. right. exact Hy.
Qed.

Lemma named_by_keys cols es :
  filter (fun e => isin (group_keys cols es) (username_of cols e)) es
  = named cols es.
Proof.
  unfold named. apply filter_ext_in_list. intros e He.
  destruct (username_of cols e) as [u|] eqn:Eu; [|reflexivity].
  cbn [isin notna]. destruct (in_dec string_dec u (group_keys cols es))
    as [_|C]; [reflexivity|].
  exfalso. apply C. apply group_keys_in. exists e. tauto.
Qed.

Lemma sum_weight_split es :
  sum_Z (map weight es)
  = Z.of_nat (length es) + sum_Z (map comment_likes es).
Proof.
  induction es as [|e es IH]; [reflexivity|].
  cbn [map length]. rewrite !sum_Z_cons, IH, Nat2Z.inj_succ.
  unfold weight. lia.
Qed.

(** X8.  On a frame whose counts are in range, the total weight that
    the script computes for a participant is the number of its valid
    entries plus the likes on them, and a participant has one valid
    entry at least.  Grouping loses nothing: the total weights add up to
    the number of valid entries that carry a user name plus the likes on
    these entries. *)
Theorem total_weight_is_entries_plus_likes (df : DataFrame) :
  counts_in_range df = true ->
  let cols := columns df in
  let valid := valid_entries df (add_comment_likes df) in
  let totals := user_total_weights64 cols valid in
  (forall u w, In (u, w) totals ->
     w = Z.of_nat (length (entries_of cols u valid))
         + sum_Z (map comment_likes (entries_of cols u valid)) /\
     (1 <= length (entries_of cols u valid))%nat /\
     0 <= sum_Z (map comment_likes (entries_of cols u valid))) /\
  sum_Z (map snd totals)
  = Z.of_nat (length (named cols valid))
    + sum_Z (map comment_likes (named cols valid)).
Proof.
  intros Hr cols valid totals. subst totals. unfold cols, valid.
  rewrite (int64_totals_of_frame df Hr). fold cols valid.
  set (totals := user_total_weights cols valid). split.
  - intros u w Hin. apply totals_in in Hin. destruct Hin as [Hk ->].
    split; [apply sum_weight_split|].
    split.
    + apply group_keys_in in Hk. destruct Hk as (e & He & Hu).
      assert (Hin : In e (entries_of cols u valid))
        by (apply entries_of_in; tauto).
      destruct (entries_of cols u valid); [contradiction|simpl; lia].
    + apply sum_Z_nonneg. apply Forall_forall. intros z Hz.
      apply in_map_iff in Hz. destruct Hz as (e & <- & He).
      apply entries_of_in in He. destruct He as [He _].
      pose proof (valid_weight_floor df e He). unfold weight in *. lia.
  - subst totals. unfold user_total_weights. rewrite map_map. cbn [snd].
    change (sum_Z (map (fun u => sum_Z (map weight (entries_of cols u valid)))
                       (group_keys cols valid)))
      with (sum_over_users cols weight (group_keys cols valid) valid).
    rewrite sum_over_users_entries by apply group_keys_NoDup.
    rewrite named_by_keys. apply sum_weight_split.
Qed.

Lemma total_weight_is_entries_plus_likes_witness :
  let df := read_csv default_na_values cleaned_scenario in
  user_total_weights64 (columns df)
    (valid_entries df (add_comment_likes df))
  = [("u1", 4); ("u2", 2)] /\
  4 = Z.of_nat (length (entries_of (columns df) "u1"
                          (valid_entries df (add_comment_likes df))))
      + sum_Z (map comment_likes
                   (entries_of (columns df) "u1"
                      (valid_entries df (add_comment_likes df)))).
Proof.
  intros df. split; [reflexivity|].
  pose proof (total_weight_is_entries_plus_likes df eq_refl) as H.
  cbv zeta in H. destruct H as [H _].
  apply (H "u1" 4). left. reflexivity.
Defined.

Lemma sum_Z_all_zero l : (forall z, In z l -> z = 0) -> sum_Z l = 0.
Proof.
  induction l as [|z l IH]; intros H; [reflexivity|].
  rewrite sum_Z_cons, (H z (or_introl eq_refl)), IH; [reflexivity|].
  intros y Hy. apply H. right. exact Hy.
Qed.

(** X9.  On a frame without the [action_type] column every comment
    counts no likes: each valid entry weighs one, and the total weight
    of a participant is the number of its valid entries. *)
Theorem entries_alone_count_without_action_type (df : DataFrame) :
  has_column df "action_type" = false ->
  let cols := columns df in
  let valid := valid_entries df (add_comment_likes df) in
  (forall e, In e valid -> comment_likes e = 0 /\ weight e = 1) /\
  (forall u w, In (u, w) (user_total_weights cols valid) ->
     w = Z.of_nat (length (entries_of cols u valid))).
Proof.
  intros Hc cols valid.
  assert (H0 : forall e, In e valid -> comment_likes e = 0).
  { intros e He. apply valid_entries_spec in He. destruct He as [He _].
    unfold add_comment_likes in He. rewrite Hc in He.
    apply in_map_iff in He. destruct He as (r & <- & _). reflexivity. }
  split.
  - intros e He. unfold weight. rewrite (H0 e He). split; reflexivity.
  - intros u w Hin. apply totals_in in Hin. destruct Hin as [_ ->].
    rewrite sum_weight_split, sum_Z_all_zero; [lia|].
    intros z Hz. apply in_map_iff in Hz. destruct Hz as (e & <- & He).
    apply entries_of_in in He. apply H0. tauto.
Qed.

Lemma entries_alone_count_without_action_type_witness :
  has_column no_action_type "action_type" = false /\
  user_total_weights (columns no_action_type)
    (valid_entries no_action_type (add_comment_likes no_action_type))
  = [("u1", 2)] /\
  2 = Z.of_nat
        (length (entries_of (columns no_action_type) "u1"
                   (valid_entries no_action_type
                      (add_comment_likes no_action_type)))).
Proof.
  split; [reflexivity|]. split; [reflexivity|].
  apply (entries_alone_count_without_action_type no_action_type eq_refl).
  left. reflexivity.
Defined.

(** X10.  Nobody wins without a valid entry: for every name announced
    the frame has a row of that user whose three mention cells all hold
    a text. *)
Theorem winner_has_a_valid_entry
    (df : DataFrame) (rand : nat -> Q) (a : announcement) :
  unit_variates rand ->
  pick_from_frame df rand = Some (Announced a) ->
  forall u, In u (winning_usernames a) ->
    exists r, In r (rows df) /\
      get (columns df) "username" r = Some u /\
      forall m, In m mention_columns ->
        exists s, get (columns df) m r = Some s.
Proof.
  intros Hu Hp u Hin.
  destruct (announced_winners df rand a Hu Hp) as [_ Hw].
  specialize (Hw u Hin). rewrite totals_keys in Hw.
  apply group_keys_in in Hw. destruct Hw as (e & He & Hname).
  apply valid_entries_spec in He. destruct He as [He Hv].
  apply add_comment_likes_spec in He. destruct He as [Hr _].
  exists (s_row e). split; [exact Hr|]. split; [exact Hname|].
  apply all_mentions_notna_spec. exact Hv.
Qed.

Lemma winner_has_a_valid_entry_witness :
  exists r,
    In r (rows (read_csv default_na_values cleaned_scenario)) /\
    get new_column_names "username" r = Some "u1" /\
    forall m, In m mention_columns ->
      exists s, get new_column_names m r = Some s.
Proof.
  apply (winner_has_a_valid_entry
           (read_csv default_na_values cleaned_scenario) (fun _ => 0%Q) _
           unit_variates_zero eq_refl "u1").
  left. reflexivity.
Defined.

(** ** The picker: the order of the rows *)

Lemma leb_string_cases a b :
  leb_string a b <-> a = b \/ OrderedTypeEx.String_as_OT.lt a b.
Proof.
  unfold leb_string, String.leb.
  pose proof (OrderedTypeEx.String_as_OT.cmp_eq a b) as He.
  pose proof (OrderedTypeEx.String_as_OT.cmp_lt a b) as Hl.
  unfold OrderedTypeEx.String_as_OT.cmp in *.
  destruct (String.compare a b); split; intros H; try reflexivity.
  - left. apply He. reflexivity.
  - right. apply Hl. reflexivity.
  - discriminate.
  - destruct H as [H|H]; [apply He in H|apply Hl in H]; discriminate.
Qed.

Lemma leb_string_trans a b c :
  leb_string a b -> leb_string b c -> leb_string a c.
Proof.
  rewrite !leb_string_cases. intros [->|H1] [->|H2]; auto.
  right. exact (OrderedTypeEx.String_as_OT.lt_trans _ _ _ H1 H2).
Qed.

Lemma insert_sorted_sorted u l :
  StronglySorted leb_string l -> StronglySorted leb_string (insert_sorted u l).
Proof.
  induction 1 as [|v l Hs IH Hv]; simpl.
  - constructor; constructor.
  - destruct (String.leb u v) eqn:E.
    + constructor; [constructor; assumption|].
      constructor; [exact E|].
      eapply Forall_impl; [|exact Hv].
      intros w Hw. exact (leb_string_trans u v w E Hw).
    + constructor; [exact IH|].
      apply Forall_forall. intros w Hw.
      apply (Permutation_in _ (insert_sorted_perm u l)) in Hw.
      destruct Hw as [<-|Hw].
      * destruct (String.leb_total u v) as [C|C]; [congruence|exact C].
      * rewrite Forall_forall in Hv. apply Hv. exact Hw.
Qed.

Lemma sort_strings_sorted l : StronglySorted leb_string (sort_strings l).
Proof.
  induction l as [|u l IH]; simpl; [constructor|].
  apply insert_sorted_sorted. exact IH.
Qed.

Lemma sorted_permutation_eq l : forall l',
  StronglySorted leb_string l -> StronglySorted leb_string l' ->
  Permutation l l' -> l = l'.
Proof.
  induction l as [|a l IH]; intros l' Hs Hs' Hp.
  - apply Permutation_nil in Hp. symmetry. exact Hp.
  - destruct l' as [|b l'].
    { apply Permutation_sym, Permutation_nil in Hp. discriminate. }
    inversion Hs as [|? ? Hs1 Ha]; subst.
    inversion Hs' as [|? ? Hs1' Hb]; subst.
    assert (E : a = b).
    { assert (Ha' : In a (b :: l'))
        by (apply (Permutation_in _ Hp); left; reflexivity).
      assert (Hb' : In b (a :: l))
        by (apply (Permutation_in _ (Permutation_sym Hp)); left;
            reflexivity).
      destruct Ha' as [->|Ha']; [reflexivity|].
      destruct Hb' as [->|Hb']; [reflexivity|].
      rewrite Forall_forall in Ha, Hb.
      apply String.leb_antisym; [apply Ha; exact Hb'|apply Hb; exact Ha']. }
    subst b. f_equal. apply IH; try assumption.
    exact (Permutation_cons_inv Hp).
Qed.

Lemma sort_strings_permutation l l' :
  Permutation l l' -> sort_strings l = sort_strings l'.
Proof.
  intros Hp. apply sorted_permutation_eq; try apply sort_strings_sorted.
  rewrite !sort_strings_perm. exact Hp.
Qed.

Lemma filter_permutation {A} (f : A -> bool) l l' :
  Permutation l l' -> Permutation (filter f l) (filter f l').
Proof.
  induction 1 as [|x l l' _ IH|x y l|l l' l'' _ IH1 _ IH2]; cbn [filter].
  - constructor.
  - destruct (f x); [constructor|]; exact IH.
  - destruct (f x), (f y); try reflexivity. apply perm_swap.
  - etransitivity; eassumption.
Qed.

Lemma present_permutation cs cs' :
  Permutation cs cs' -> Permutation (present cs) (present cs').
Proof.
  induction 1 as [|x l l' _ IH|x y l|l l' l'' _ IH1 _ IH2]; cbn [present].
  - constructor.
  - destruct x; [constructor|]; exact IH.
  - destruct x, y; try reflexivity. apply perm_swap.
  - etransitivity; eassumption.
Qed.

Lemma sum_Z_permutation l l' : Permutation l l' -> sum_Z l = sum_Z l'.
Proof.
  induction 1 as [|x l l' _ IH|x y l|l l' l'' _ IH1 _ IH2].
  - reflexivity.
  - rewrite !sum_Z_cons, IH. reflexivity.
  - rewrite !sum_Z_cons. lia.
  - congruence.
Qed.

Lemma nodup_permutation (l l' : list string) :
  Permutation l l' ->
  Permutation (nodup string_dec l) (nodup string_dec l').
Proof.
  intros Hp. apply NoDup_Permutation; try apply NoDup_nodup.
  intros x. rewrite !nodup_In. split; apply Permutation_in;
    [exact Hp|apply Permutation_sym; exact Hp].
Qed.

Lemma user_total_weights_permutation cols es es' :
  Permutation es es' ->
  user_total_weights cols es = user_total_weights cols es'.
Proof.
  intros Hp. unfold user_total_weights.
  assert (Hk : group_keys cols es = group_keys cols es').
  { unfold group_keys. apply sort_strings_permutation, nodup_permutation,
      present_permutation, Permutation_map. exact Hp. }
  rewrite Hk. apply map_ext. intros u. f_equal.
  apply sum_Z_permutation, Permutation_map.
  unfold entries_of. apply filter_permutation. exact Hp.
Qed.

Lemma valid_entries_permutation cols rs rs' :
  Permutation rs rs' ->
  Permutation
    (valid_entries (mkDF cols rs) (add_comment_likes (mkDF cols rs)))
    (valid_entries (mkDF cols rs') (add_comment_likes (mkDF cols rs'))).
Proof.
  intros Hp. unfold valid_entries, add_comment_likes, has_column.
  cbn [columns rows]. apply filter_permutation.
  destruct (index_of "action_type" cols); apply Permutation_map; exact Hp.
Qed.

Lemma forallb_permutation {A} (f : A -> bool) l l' :
  Permutation l l' -> forallb f l = forallb f l'.
Proof.
  induction 1 as [|x l l' _ IH|x y l|l l' l'' _ IH1 _ IH2];
    cbn [forallb].
  - reflexivity.
  - rewrite IH. reflexivity.
  - destruct (f x), (f y); reflexivity.
  - congruence.
Qed.

Lemma existsb_permutation {A} (f : A -> bool) l l' :
  Permutation l l' -> existsb f l = existsb f l'.
Proof.
  induction 1 as [|x l l' _ IH|x y l|l l' l'' _ IH1 _ IH2];
    cbn [existsb].
  - reflexivity.
  - rewrite IH. reflexivity.
  - destruct (f x), (f y); reflexivity.
  - congruence.
Qed.

Lemma text_column_permutation cells cells' :
  Permutation cells cells' -> text_column cells = text_column cells'.
Proof.
  intros Hp. unfold text_column.
  rewrite (forallb_permutation numeric_cell _ _ Hp),
    (forallb_permutation bool_cell _ _ Hp).
  destruct cells as [|c cells]; destruct cells' as [|c' cells'];
    try reflexivity.
  - apply Permutation_nil in Hp. discriminate.
  - apply Permutation_sym, Permutation_nil in Hp. discriminate.
Qed.

(** The exception of line 33 does not depend on the order of the
    rows. *)
Lemma likes_error_permutation cols rs rs' :
  Permutation rs rs' ->
  likes_error (mkDF cols rs) = likes_error (mkDF cols rs').
Proof.
  intros Hp. unfold likes_error, has_column, action_cells.
  cbn [columns rows].
  pose proof (Permutation_map (get cols "action_type") Hp) as Hc.
  rewrite (text_column_permutation _ _ Hc),
    (existsb_permutation too_large _ _ Hc).
  reflexivity.
Qed.

Lemma pick_without_profiles df df' rand :
  columns df = columns df' ->
  likes_error df = likes_error df' ->
  Permutation (valid_entries df (add_comment_likes df))
              (valid_entries df' (add_comment_likes df')) ->
  option_map without_profiles (pick_from_frame df rand)
  = option_map without_profiles (pick_from_frame df' rand).
Proof.
  intros Hc Hl Hp. unfold pick_from_frame. rewrite <- Hl.
  destruct (likes_error df); [reflexivity|]. unfold pick_after_likes.
  rewrite (first_missing_columns df df' mention_columns Hc).
  destruct (first_missing df' mention_columns); [reflexivity|].
  pose proof (user_total_weights_permutation (columns df) _ _ Hp) as Ht.
  rewrite Hc in Ht.
  destruct (valid_entries df (add_comment_likes df)) as [|e es];
    destruct (valid_entries df' (add_comment_likes df')) as [|e' es'].
  - reflexivity.
  - apply Permutation_nil in Hp. discriminate.
  - apply Permutation_sym, Permutation_nil in Hp. discriminate.
  - unfold has_column. rewrite Hc, Ht.
    destruct (index_of "username" (columns df')); cbn [negb]; [|reflexivity].
    set (totals := user_total_weights (columns df') (e' :: es')).
    destruct (Nat.eqb _ 0); [reflexivity|].
    destruct (sample _ _ rand) as [[err|positions]|]; try reflexivity.
    destruct (index_of "profile_url" (columns df')); cbn [negb];
      reflexivity.
Qed.

(** X11.  Who wins does not depend on the order of the rows of the
    file: two frames with the same columns and the same rows in another
    order give the same total weights, and with the same variates the
    same outcome and the same winners in the same order.  Only the
    profile links may differ. *)
Theorem winners_do_not_depend_on_row_order
    (cols : list string) (rs rs' : list row) (rand : nat -> Q) :
  Permutation rs rs' ->
  let df := mkDF cols rs in
  let df' := mkDF cols rs' in
  user_total_weights cols (valid_entries df (add_comment_likes df))
  = user_total_weights cols (valid_entries df' (add_comment_likes df')) /\
  option_map without_profiles (pick_from_frame df rand)
  = option_map without_profiles (pick_from_frame df' rand).
Proof.
  intros Hp df df'.
  pose proof (valid_entries_permutation cols rs rs' Hp) as Hv.
  split.
  - apply user_total_weights_permutation. exact Hv.
  - apply pick_without_profiles;
      [reflexivity|apply likes_error_permutation; exact Hp|exact Hv].
Qed.

Lemma winners_do_not_depend_on_row_order_witness :
  let parse := map (parse_cell default_na_values) in
  let r1 := parse (comment_record "ig/u1" "u1" "a" "b" "c" "Reply") in
  let r2 := parse (comment_record "ig/u2" "u2" "a" "b" "c" "1 like") in
  option_map without_profiles
    (pick_from_frame (mkDF new_column_names [r1; r2]) high_then_low)
  = option_map without_profiles
      (pick_from_frame (mkDF new_column_names [r2; r1]) high_then_low).
Proof.
  intros parse r1 r2.
  apply (winners_do_not_depend_on_row_order new_column_names
           [r1; r2] [r2; r1] high_then_low (perm_swap r2 r1 [])).
Defined.

(** ** The analysis of a list of winners *)

Lemma analyze_frame_notes df winner_usernames an :
  analyze_frame df winner_usernames = Finished an ->
  excluded_note an
  = (length (valid_winners an) <? length winner_usernames)%nat /\
  summary an
  = match non_winners an with
    | [] => None
    | _ :: _ =>
        Some {| total_non_winners := length (non_winners an);
                total_entries := length (non_winner_stats an);
                non_winner_likes :=
                  sum64 (map comment_likes (non_winner_stats an)) |}
    end.
Proof.
  unfold analyze_frame.
  destruct (likes_error df); [discriminate|]. unfold analyze_after_likes.
  destruct (first_missing df mention_columns); [discriminate|].
  destruct (valid_entries df (add_comment_likes df)) eqn:Ev; [discriminate|].
  destruct (has_column df "username"); [|discriminate]. simpl negb. cbv iota.
  destruct (has_column df "profile_url"); [|discriminate]. simpl negb.
  cbv iota. intros H. injection H as <-. cbn. split; reflexivity.
Qed.

Lemma analyze_frame_columns df winner_usernames an :
  analyze_frame df winner_usernames = Finished an ->
  first_missing df mention_columns = None /\
  has_column df "username" = true /\
  has_column df "profile_url" = true /\
  valid_entries df (add_comment_likes df) <> [].
Proof.
  unfold analyze_frame.
  destruct (likes_error df); [discriminate|]. unfold analyze_after_likes.
  destruct (first_missing df mention_columns); [discriminate|].
  destruct (valid_entries df (add_comment_likes df)) eqn:Ev; [discriminate|].
  destruct (has_column df "username"); [|discriminate]. simpl negb. cbv iota.
  destruct (has_column df "profile_url"); [|discriminate].
  intros _. repeat split. discriminate.
Qed.

Lemma mem_true u l : mem u l = true <-> In u l.
Proof.
  unfold mem. destruct (in_dec string_dec u l); split; auto; discriminate.
Qed.

Lemma participant_total cols es u :
  In u (group_keys cols es) ->
  weights_get (user_total_weights cols es) u
  = Z.of_nat (length (entries_of cols u es))
    + sum_Z (map comment_likes (entries_of cols u es)) /\
  (1 <= length (entries_of cols u es))%nat.
Proof.
  intros Hk. split.
  - rewrite <- sum_weight_split. apply weights_get_in.
    + rewrite totals_keys. apply group_keys_NoDup.
    + apply totals_in. split; [exact Hk|reflexivity].
  - apply group_keys_in in Hk. destruct Hk as (e & He & Hu).
    assert (Hin : In e (entries_of cols u es))
      by (apply entries_of_in; tauto).
    destruct (entries_of cols u es); [contradiction|simpl; lia].
Qed.

(** On a frame whose counts are in range the likes of a part of the
    valid entries add up in [int64] to their exact sum. *)
Lemma likes64_part_exact df (f : scored -> bool) :
  counts_in_range df = true ->
  sum64 (map comment_likes
             (filter f (valid_entries df (add_comment_likes df))))
  = sum_Z (map comment_likes
               (filter f (valid_entries df (add_comment_likes df)))).
Proof.
  intros Hr. apply sum64_part_exact; [apply valid_likes_nonneg|].
  pose proof (counts_in_range_sum df Hr) as Hb.
  pose proof (sum_weight_split (valid_entries df (add_comment_likes df))).
  lia.
Qed.

(** X12.  On a frame whose counts are in range, for every winner that
    the analysis lists, the final score is the number of the winner's
    valid entries plus the likes on them; the winner is a name of the
    list given and has one valid entry at least, so the score is never
    the default [0] of the lookup. *)
Theorem winner_score_is_entries_plus_likes
    (df : DataFrame) (winner_usernames : list string) (an : analysis) :
  counts_in_range df = true ->
  analyze_frame df winner_usernames = Finished an ->
  forall d, In d (winner_details an) ->
    In (ws_username d) winner_usernames /\
    total_score d = Z.of_nat (total_valid_comments d) + total_likes d /\
    (1 <= total_valid_comments d)%nat /\
    0 <= total_likes d /\
    1 <= total_score d.
Proof.
  intros Hr H d Hd.
  pose proof (analyze_frame_finished df winner_usernames an H) as Hf.
  cbv zeta in Hf. destruct Hf as (_ & Hvw & _ & Hdet & _).
  rewrite Hdet in Hd. apply in_map_iff in Hd. destruct Hd as (u & <- & Hu).
  cbn [ws_username total_score total_valid_comments total_likes].
  rewrite (int64_totals_of_frame df Hr).
  assert (Hl64 : sum64 (map comment_likes
                     (entries_of (columns df) u
                        (valid_entries df (add_comment_likes df))))
                 = sum_Z (map comment_likes
                     (entries_of (columns df) u
                        (valid_entries df (add_comment_likes df)))))
    by (unfold entries_of; apply likes64_part_exact; exact Hr).
  rewrite Hl64.
  rewrite Hvw in Hu. apply filter_In in Hu. destruct Hu as [Hin Hm].
  apply mem_true in Hm. rewrite totals_keys in Hm.
  destruct (participant_total _ _ u Hm) as [Hs Hl].
  assert (Hlikes : 0 <= sum_Z (map comment_likes
                     (entries_of (columns df) u
                        (valid_entries df (add_comment_likes df))))).
  { apply sum_Z_nonneg. apply Forall_forall. intros z Hz.
    apply in_map_iff in Hz. destruct Hz as (e & <- & He).
    apply entries_of_in in He. destruct He as [He _].
    pose proof (valid_weight_floor df e He). unfold weight in *. lia. }
  split; [exact Hin|]. split; [exact Hs|]. split; [exact Hl|].
  split; [exact Hlikes|]. rewrite Hs. lia.
Qed.

Lemma winner_score_is_entries_plus_likes_witness :
  exists an d,
    analyze_frame (read_csv default_na_values cleaned_scenario) ["u1"; "zz"]
    = Finished an /\
    In d (winner_details an) /\
    ws_username d = "u1" /\ total_score d = 4 /\
    total_score d = Z.of_nat (total_valid_comments d) + total_likes d.
Proof.
  eexists. eexists. split; [vm_compute; reflexivity|].
  split; [left; reflexivity|]. split; [reflexivity|]. split; [reflexivity|].
  apply (winner_score_is_entries_plus_likes
           (read_csv default_na_values cleaned_scenario) ["u1"; "zz"] _
           eq_refl eq_refl _ (or_introl eq_refl)).
Defined.

Lemma filter_length_lt {A} (f : A -> bool) (l : list A) :
  (length (filter f l) < length l)%nat <-> exists x, In x l /\ f x = false.
Proof.
  induction l as [|x l IH]; cbn [filter length].
  - split; [lia|]. intros (x & [] & _).
  - pose proof (filter_length_le f l) as Hle.
    destruct (f x) eqn:E; cbn [length].
    + rewrite <- Nat.succ_lt_mono, IH. split.
      * intros (y & Hy & Hf). exists y. split; [right; exact Hy|exact Hf].
      * intros (y & [<-|Hy] & Hf); [congruence|]. exists y. tauto.
    + split; [|lia]. intros _. exists x. split; [left; reflexivity|exact E].
Qed.

(** X13.  The note on excluded names is printed exactly when the list
    given has a name that is no participant, that is, a name without a
    valid entry in the file. *)
Theorem excluded_note_iff_unknown_name
    (df : DataFrame) (winner_usernames : list string) (an : analysis) :
  analyze_frame df winner_usernames = Finished an ->
  (excluded_note an = true <->
   exists u, In u winner_usernames /\
     ~ exists e, In e (valid_entries df (add_comment_likes df)) /\
                 username_of (columns df) e = Some u).
Proof.
  intros H.
  pose proof (analyze_frame_finished df winner_usernames an H) as Hf.
  cbv zeta in Hf. destruct Hf as (_ & Hvw & _).
  destruct (analyze_frame_notes df winner_usernames an H) as [Hn _].
  rewrite Hn, Hvw, Nat.ltb_lt, filter_length_lt.
  split; intros (u & Hin & Hu); exists u; (split; [exact Hin|]).
  - intros He. apply group_keys_in in He. rewrite <- totals_keys in He.
    apply mem_true in He. congruence.
  - destruct (mem u _) eqn:E; [|reflexivity].
    exfalso. apply Hu. apply group_keys_in. rewrite <- totals_keys.
    apply mem_true. exact E.
Qed.

Lemma excluded_note_iff_unknown_name_witness :
  exists an,
    analyze_frame (read_csv default_na_values cleaned_scenario) ["u1"; "u3"]
    = Finished an /\
    excluded_note an = true /\
    exists u, In u ["u1"; "u3"] /\
      ~ exists e,
          In e (valid_entries (read_csv default_na_values cleaned_scenario)
                  (add_comment_likes
                     (read_csv default_na_values cleaned_scenario))) /\
          username_of new_column_names e = Some u.
Proof.
  eexists. split; [vm_compute; reflexivity|]. split; [reflexivity|].
  apply (excluded_note_iff_unknown_name
           (read_csv default_na_values cleaned_scenario) ["u1"; "u3"] _
           eq_refl).
  reflexivity.
Defined.

Lemma sum_Z_ones {A} (l : list A) :
  sum_Z (map (fun _ => 1) l) = Z.of_nat (length l).
Proof.
  induction l as [|x l IH]; [reflexivity|].
  cbn [map length]. rewrite sum_Z_cons, IH. lia.
Qed.

Lemma sum_filter_split {A} (k : A -> Z) (f g h : A -> bool) (l : list A) :
  (forall x, In x l -> h x = f x || g x /\ f x && g x = false) ->
  sum_Z (map k (filter f l)) + sum_Z (map k (filter g l))
  = sum_Z (map k (filter h l)).
Proof.
  induction l as [|x l IH]; intros H; [reflexivity|].
  cbn [filter]. destruct (H x (or_introl eq_refl)) as [Hh Hd].
  rewrite Hh. specialize (IH (fun y Hy => H y (or_intror Hy))).
  destruct (f x), (g x); try discriminate; cbn [orb map];
    rewrite ?sum_Z_cons; lia.
Qed.

Lemma filter_negb_length {A} (f : A -> bool) (l : list A) :
  (length (filter f l) + length (filter (fun x => negb (f x)) l))%nat
  = length l.
Proof.
  induction l as [|x l IH]; [reflexivity|].
  cbn [filter]. destruct (f x); cbn [negb length]; lia.
Qed.

Lemma isin_true names u :
  isin names (Some u) = true <-> In u names.
Proof.
  cbn [isin]. destruct (in_dec string_dec u names); split; auto;
    discriminate.
Qed.

Lemma NoDup_map_Some {A} (l : list A) : NoDup l -> NoDup (map Some l).
Proof.
  induction 1 as [|x l Hx Hnd IH]; cbn [map]; constructor; [|exact IH].
  intros Hin. apply in_map_iff in Hin. destruct Hin as (y & E & Hy).
  injection E as ->. contradiction.
Qed.

(** The valid entries of the listed winners and those of the other
    participants are, between them, the valid entries with a user
    name. *)
Lemma groups_split_entries df winner_usernames an :
  analyze_frame df winner_usernames = Finished an ->
  forall e, In e (valid_entries df (add_comment_likes df)) ->
    notna (username_of (columns df) e)
    = isin (valid_winners an) (username_of (columns df) e)
      || isin (non_winners an) (username_of (columns df) e) /\
    isin (valid_winners an) (username_of (columns df) e)
    && isin (non_winners an) (username_of (columns df) e) = false.
Proof.
  intros H e He.
  pose proof (analyze_frame_finished df winner_usernames an H) as Hf.
  cbv zeta in Hf. destruct Hf as (_ & Hvw & Hnw & _).
  destruct (username_of (columns df) e) as [u|] eqn:Eu;
    [|split; reflexivity].
  assert (Hp : In u (map fst (user_total_weights (columns df)
                       (valid_entries df (add_comment_likes df))))).
  { rewrite totals_keys. apply group_keys_in. exists e. tauto. }
  cbn [notna].
  destruct (in_dec string_dec u winner_usernames) as [Hin|Hout].
  - assert (E1 : isin (valid_winners an) (Some u) = true).
    { apply isin_true. rewrite Hvw. apply filter_In.
      split; [exact Hin|]. apply mem_true. exact Hp. }
    assert (E2 : isin (non_winners an) (Some u) = false).
    { destruct (isin (non_winners an) (Some u)) eqn:E; [|reflexivity].
      apply isin_true in E. rewrite Hnw in E. apply filter_In in E.
      destruct E as [_ E]. apply negb_true_iff in E.
      apply mem_true in Hin. congruence. }
    rewrite E1, E2. split; reflexivity.
  - assert (E1 : isin (valid_winners an) (Some u) = false).
    { destruct (isin (valid_winners an) (Some u)) eqn:E; [|reflexivity].
      apply isin_true in E. rewrite Hvw in E. apply filter_In in E.
      destruct E as [E _]. contradiction. }
    assert (E2 : isin (non_winners an) (Some u) = true).
    { apply isin_true. rewrite Hnw. apply filter_In.
      split; [exact Hp|]. apply negb_true_iff.
      destruct (mem u winner_usernames) eqn:E; [|reflexivity].
      apply mem_true in E. contradiction. }
    rewrite E1, E2. split; reflexivity.
Qed.

(** X14.  On a frame whose counts are in range, when the list given
    names nobody twice, the analysis accounts for every valid entry
    with a user name once: the entries counted for the listed winners
    and those counted for the other participants add up to all of them,
    and so do the likes; the two groups together are as many as the
    participants.  The summary of the other participants, when printed,
    is over one participant at least. *)
Theorem analysis_accounts_for_every_entry
    (df : DataFrame) (winner_usernames : list string) (an : analysis) :
  counts_in_range df = true ->
  NoDup winner_usernames ->
  analyze_frame df winner_usernames = Finished an ->
  let cols := columns df in
  let valid := valid_entries df (add_comment_likes df) in
  sum_Z (map (fun d => Z.of_nat (total_valid_comments d)) (winner_details an))
  + Z.of_nat (length (non_winner_stats an))
  = Z.of_nat (length (named cols valid)) /\
  sum_Z (map total_likes (winner_details an))
  + sum_Z (map comment_likes (non_winner_stats an))
  = sum_Z (map comment_likes (named cols valid)) /\
  (length (valid_winners an) + length (non_winners an))%nat
  = length (all_participants an) /\
  (forall s, summary an = Some s ->
     total_non_winners s = length (non_winners an) /\
     (1 <= total_non_winners s)%nat /\
     total_entries s = length (non_winner_stats an) /\
     (total_non_winners s <= total_entries s)%nat /\
     non_winner_likes s = sum_Z (map comment_likes (non_winner_stats an))).
Proof.
  intros Hr Hnd H cols valid.
  pose proof (analyze_frame_finished df winner_usernames an H) as Hf.
  cbv zeta in Hf. destruct Hf as (Hall & Hvw & Hnw & Hdet & Hns).
  fold cols in Hall, Hvw, Hnw, Hdet, Hns.
  fold valid in Hall, Hvw, Hnw, Hdet, Hns.
  pose proof (groups_split_entries df winner_usernames an H) as Hsplit.
  fold cols valid in Hsplit.
  assert (Hndv : NoDup (valid_winners an))
    by (rewrite Hvw; apply NoDup_filter; exact Hnd).
  assert (Hndp : NoDup (map fst (user_total_weights cols valid)))
    by (rewrite totals_keys; apply group_keys_NoDup).
  assert (Hndn : NoDup (non_winners an))
    by (rewrite Hnw; apply NoDup_filter; exact Hndp).
  assert (Hw : forall f : scored -> Z,
             sum_Z (map (fun u => sum_Z (map f (entries_of cols u valid)))
                        (valid_winners an))
             + sum_Z (map f (non_winner_stats an))
             = sum_Z (map f (named cols valid))).
  { intros f.
    change (sum_Z (map (fun u => sum_Z (map f (entries_of cols u valid)))
                       (valid_winners an)))
      with (sum_over_users cols f (valid_winners an) valid).
    rewrite sum_over_users_entries by exact Hndv.
    rewrite Hns. unfold named. apply sum_filter_split. exact Hsplit. }
  split; [|split; [|split]].
  - rewrite Hdet, map_map. cbn [total_valid_comments].
    rewrite <- !sum_Z_ones, <- (Hw (fun _ => 1)). f_equal. f_equal.
    apply map_ext. intros u. symmetry. apply sum_Z_ones.
  - rewrite Hdet, map_map. cbn [total_likes].
    rewrite <- (Hw comment_likes). f_equal. f_equal.
    apply map_ext. intros u. unfold entries_of.
    apply likes64_part_exact. exact Hr.
  - rewrite Hall, Hnw.
    rewrite <- (filter_negb_length (fun u => mem u winner_usernames)
                  (map fst (user_total_weights cols valid))).
    f_equal. apply Permutation_length. apply NoDup_Permutation.
    + exact Hndv.
    + apply NoDup_filter. exact Hndp.
    + intros u. rewrite Hvw, !filter_In, !mem_true. tauto.
  - intros s Hs.
    destruct (analyze_frame_notes df winner_usernames an H) as [_ Hsum].
    (* every other participant has an entry among the entries counted *)
    assert (Hsub : forall v, In v (non_winners an) ->
              In (Some v) (map (username_of cols) (non_winner_stats an))).
    { intros v Hv. pose proof Hv as Hv'. rewrite Hnw in Hv'.
      apply filter_In in Hv'. destruct Hv' as [Hp _].
      rewrite totals_keys in Hp. apply group_keys_in in Hp.
      destruct Hp as (e & He & Hu). apply in_map_iff. exists e.
      split; [exact Hu|]. rewrite Hns. apply filter_In.
      split; [exact He|]. rewrite Hu. apply isin_true. exact Hv. }
    assert (Hle : (length (non_winners an)
                   <= length (non_winner_stats an))%nat).
    { rewrite <- (length_map (username_of cols) (non_winner_stats an)).
      rewrite <- (length_map Some (non_winners an)).
      apply NoDup_incl_length.
      - apply NoDup_map_Some. exact Hndn.
      - intros c Hc. apply in_map_iff in Hc. destruct Hc as (v & <- & Hv).
        apply Hsub. exact Hv. }
    rewrite Hsum in Hs.
    destruct (non_winners an) as [|u nw]; [discriminate|].
    injection Hs as <-.
    cbn [total_non_winners total_entries non_winner_likes].
    split; [reflexivity|]. split; [cbn [length]; lia|].
    split; [reflexivity|]. split; [exact Hle|].
    rewrite Hns. apply likes64_part_exact. exact Hr.
Qed.

Lemma analysis_accounts_for_every_entry_witness :
  exists an,
    analyze_frame (read_csv default_na_values cleaned_scenario) ["u1"]
    = Finished an /\
    map total_valid_comments (winner_details an) = [2%nat] /\
    length (non_winner_stats an) = 1%nat /\
    sum_Z (map (fun d => Z.of_nat (total_valid_comments d))
               (winner_details an))
    + Z.of_nat (length (non_winner_stats an))
    = Z.of_nat
        (length (named new_column_names
                   (valid_entries
                      (read_csv default_na_values cleaned_scenario)
                      (add_comment_likes
                         (read_csv default_na_values cleaned_scenario))))).
Proof.
  eexists. split; [vm_compute; reflexivity|].
  split; [reflexivity|]. split; [reflexivity|].
  apply (analysis_accounts_for_every_entry
           (read_csv default_na_values cleaned_scenario) ["u1"] _
           eq_refl
           (NoDup_cons "u1" (@in_nil string "u1") (NoDup_nil string))
           eq_refl).
Defined.

(** ** From the picker to the analysis *)

(** X15.  The analysis of the names that the picker announced, run on
    the same frame, finishes; it lists the same winners in the same
    order with the same profile links, excludes none of them, and the
    other participants are the participants that were not drawn. *)
Theorem analysis_of_the_announced_winners
    (df : DataFrame) (rand : nat -> Q) (a : announcement) :
  unit_variates rand ->
  pick_from_frame df rand = Some (Announced a) ->
  exists an,
    analyze_frame df (winning_usernames a) = Finished an /\
    valid_winners an = winning_usernames a /\
    map (fun d => (ws_username d, ws_profile d)) (winner_details an)
    = winners a /\
    excluded_note an = false /\
    (length (non_winners an)
     = length (all_participants an) - length (winning_usernames a))%nat.
Proof.
  intros Hu Hp.
  destruct (pick_from_frame_columns df rand a Hp) as (Hlk & Hm & Hn & Hpr).
  destruct (announced_winners df rand a Hu Hp) as [Hw Hpart].
  assert (Hv : valid_entries df (add_comment_likes df) <> []).
  { intros E. rewrite (pick_from_frame_likes df rand Hlk) in Hp.
    unfold pick_after_likes in Hp. rewrite Hm, E in Hp.
    discriminate. }
  assert (Hfin : exists an,
            analyze_frame df (winning_usernames a) = Finished an).
  { unfold analyze_frame. rewrite Hlk. unfold analyze_after_likes.
    rewrite Hm, Hn, Hpr.
    destruct (valid_entries df (add_comment_likes df));
      [contradiction|]. cbn [negb]. eexists. reflexivity. }
  destruct Hfin as (an & Han). exists an. split; [exact Han|].
  pose proof (analyze_frame_finished df _ an Han) as Hf.
  cbv zeta in Hf. destruct Hf as (Hall & Hvw & Hnw & Hdet & _).
  destruct (analyze_frame_notes df _ an Han) as [Hnote _].
  assert (Hsame : valid_winners an = winning_usernames a).
  { rewrite Hvw. apply filter_all_true. intros u Hin.
    apply mem_true. apply Hpart. exact Hin. }
  split; [exact Hsame|]. split; [|split].
  - rewrite Hdet, map_map. cbn [ws_username ws_profile].
    rewrite Hw, Hsame. reflexivity.
  - rewrite Hnote, Hsame. apply Nat.ltb_irrefl.
  - assert (Hnd : NoDup (winning_usernames a)).
    { rewrite <- Hsame, Hvw. rewrite <- Hsame in Hpart.
      rewrite Hvw in Hsame.
      destruct (pick_from_frame_cases df rand Hu Hlk Hm Hn Hpr)
        as [[_ C]|[(_ & _ & C)|(_ & st & _ & Hinv & _ & Hpick)]];
        try (rewrite Hp in C; discriminate).
      cbv zeta in Hpick. rewrite Hp in Hpick. injection Hpick as ->.
      cbn [winning_usernames] in *. rewrite Hsame.
      destruct Hinv as (Hnd & Hrange & _).
      apply names_NoDup; [|exact Hnd|].
      - rewrite totals_keys. apply group_keys_NoDup.
      - intros i Hi. destruct (Hrange i Hi) as [Hi' _].
        rewrite length_map in *. exact Hi'. }
    assert (Hndp : NoDup (map fst (user_total_weights (columns df)
                            (valid_entries df (add_comment_likes df)))))
      by (rewrite totals_keys; apply group_keys_NoDup).
    rewrite Hall, Hnw.
    pose proof (filter_negb_length
                  (fun u => mem u (winning_usernames a))
                  (map fst (user_total_weights (columns df)
                              (valid_entries df (add_comment_likes df)))))
      as Hlen.
    assert (Hl : length (filter (fun u => mem u (winning_usernames a))
                   (map fst (user_total_weights (columns df)
                               (valid_entries df (add_comment_likes df)))))
                 = length (winning_usernames a)).
    { apply Permutation_length. apply NoDup_Permutation.
      - apply NoDup_filter. exact Hndp.
      - exact Hnd.
      - intros u. rewrite filter_In, mem_true. split; [tauto|].
        intros Hin. split; [apply Hpart|]; exact Hin. }
    cbv beta in Hlen. lia.
Qed.

Lemma analysis_of_the_announced_winners_witness :
  exists an,
    analyze_frame (read_csv default_na_values cleaned_scenario) ["u2"; "u1"]
    = Finished an /\
    valid_winners an = ["u2"; "u1"] /\
    excluded_note an = false.
Proof.
  destruct (analysis_of_the_announced_winners
              (read_csv default_na_values cleaned_scenario) high_then_low _
              unit_variates_high_then_low eq_refl)
    as (an & H & Hv & _ & Hn & _).
  exists an. split; [exact H|]. split; [exact Hv|exact Hn].
Defined.

(** ** The report on the users with many entries *)

Lemma distinct_from_in l : forall seen u,
  In u (distinct_from seen l) <-> In u l /\ ~ In u seen.
Proof.
  induction l as [|v l IH]; intros seen u; cbn [distinct_from].
  - simpl. tauto.
  - destruct (in_dec string_dec v seen) as [Hin|Hout].
    + rewrite IH. simpl. split; [tauto|].
      intros [[<-|H] Hs]; [contradiction|tauto].
    + simpl. rewrite IH. simpl. split.
      * intros [<-|[H Hs]]; tauto.
      * intros [[<-|H] Hs]; [tauto|].
        destruct (string_dec v u) as [->|Hne]; [tauto|].
        right. split; [exact H|]. intros [C|C]; [congruence|contradiction].
Qed.

Lemma distinct_from_NoDup l : forall seen, NoDup (distinct_from seen l).
Proof.
  induction l as [|v l IH]; intros seen; cbn [distinct_from].
  - constructor.
  - destruct (in_dec string_dec v seen); [apply IH|].
    constructor; [|apply IH].
    intros C. apply distinct_from_in in C. destruct C as [_ C].
    apply C. left. reflexivity.
Qed.

Lemma insert_count_perm uc l : Permutation (insert_count uc l) (uc :: l).
Proof.
  induction l as [|vc l IH]; cbn [insert_count]; [reflexivity|].
  destruct (snd vc <=? snd uc)%nat; [reflexivity|].
  rewrite IH. apply perm_swap.
Qed.

Lemma fold_insert_count_perm l :
  Permutation (fold_right insert_count [] l) l.
Proof.
  induction l as [|uc l IH]; cbn [fold_right]; [reflexivity|].
  rewrite insert_count_perm. constructor. exact IH.
Qed.

Lemma insert_count_sorted uc l :
  StronglySorted (fun a b : string * nat => (snd b <= snd a)%nat) l ->
  StronglySorted (fun a b : string * nat => (snd b <= snd a)%nat)
                 (insert_count uc l).
Proof.
  induction 1 as [|vc l Hs IH Hv]; cbn [insert_count].
  - constructor; constructor.
  - destruct (snd vc <=? snd uc)%nat eqn:E.
    + apply Nat.leb_le in E.
      constructor; [constructor; assumption|].
      constructor; [exact E|].
      eapply Forall_impl; [|exact Hv]. cbv beta. intros w Hw. lia.
    + apply Nat.leb_gt in E.
      constructor; [exact IH|].
      apply Forall_forall. intros w Hw.
      apply (Permutation_in _ (insert_count_perm uc l)) in Hw.
      destruct Hw as [<-|Hw]; [lia|].
      rewrite Forall_forall in Hv. apply Hv. exact Hw.
Qed.

Lemma value_counts_sorted cols es :
  StronglySorted (fun a b : string * nat => (snd b <= snd a)%nat)
                 (value_counts cols es).
Proof.
  unfold value_counts.
  induction (map _ _) as [|uc l IH]; cbn [fold_right]; [constructor|].
  apply insert_count_sorted. exact IH.
Qed.

Lemma value_counts_in cols es u c :
  In (u, c) (value_counts cols es) <->
  (exists e, In e es /\ username_of cols e = Some u) /\
  c = length (entries_of cols u es).
Proof.
  unfold value_counts. split.
  - intros H. apply (Permutation_in _ (fold_insert_count_perm _)) in H.
    apply in_map_iff in H. destruct H as (v & E & Hv).
    injection E as -> <-. split; [|reflexivity].
    apply distinct_from_in in Hv. destruct Hv as [Hv _].
    apply present_in, in_map_iff in Hv. destruct Hv as (e & Hu & He).
    exists e. tauto.
  - intros [(e & He & Hu) ->].
    apply (Permutation_in _ (Permutation_sym (fold_insert_count_perm _))).
    apply in_map_iff. exists u. split; [reflexivity|].
    apply distinct_from_in. split; [|simpl; tauto].
    apply present_in, in_map_iff. exists e. tauto.
Qed.

Lemma value_counts_NoDup cols es : NoDup (map fst (value_counts cols es)).
Proof.
  unfold value_counts.
  apply (Permutation_NoDup
           (Permutation_map fst
              (Permutation_sym (fold_insert_count_perm _)))).
  rewrite map_map. cbn [fst]. rewrite map_id. apply distinct_from_NoDup.
Qed.

Lemma NoDup_map_filter {A B} (g : A -> B) (f : A -> bool) (l : list A) :
  NoDup (map g l) -> NoDup (map g (filter f l)).
Proof.
  induction l as [|x l IH]; cbn [map filter]; intros H; [constructor|].
  inversion H as [|? ? Hx Hnd]; subst.
  destruct (f x); cbn [map]; [|apply IH; exact Hnd].
  constructor; [|apply IH; exact Hnd].
  intros C. apply Hx. apply in_map_iff in C. destruct C as (y & E & Hy).
  apply filter_In in Hy. apply in_map_iff. exists y. tauto.
Qed.

Lemma StronglySorted_filter {A} (R : A -> A -> Prop) (f : A -> bool) l :
  StronglySorted R l -> StronglySorted R (filter f l).
Proof.
  induction 1 as [|x l Hs IH Hx]; cbn [filter]; [constructor|].
  destruct (f x); [|exact IH]. constructor; [exact IH|].
  apply Forall_forall. intros y Hy. apply filter_In in Hy.
  rewrite Forall_forall in Hx. apply Hx. tauto.
Qed.

Lemma StronglySorted_map {A B} (R : B -> B -> Prop) (g : A -> B) l :
  StronglySorted (fun x y => R (g x) (g y)) l -> StronglySorted R (map g l).
Proof.
  induction 1 as [|x l Hs IH Hx]; cbn [map]; constructor; [exact IH|].
  apply Forall_forall. intros y Hy. apply in_map_iff in Hy.
  destruct Hy as (z & <- & Hz). rewrite Forall_forall in Hx.
  apply Hx. exact Hz.
Qed.

(** What a finished run of the report holds. *)
Lemma analyze_high_entries_finished df winner_usernames h :
  analyze_high_entries df winner_usernames = Finished h ->
  let cols := columns df in
  let valid := valid_entries df (add_comment_likes df) in
  let high := filter (fun uc => (HIGH_ENTRY_THRESHOLD <? snd uc)%nat)
                     (value_counts cols valid) in
  analyze_frame df winner_usernames = Finished (base h) /\
  user_entry_counts h = value_counts cols valid /\
  high_volume_users h
  = map (fun uc =>
           {| hv_username := fst uc;
              hv_count := snd uc;
              hv_sample :=
                map (report_line_of cols)
                    (firstn 10 (entries_of cols (fst uc) valid)) |})
        high /\
  report_saved h = match high with [] => false | _ :: _ => true end /\
  summary_saved h
  = match winner_details (base h) with [] => false | _ :: _ => true end.
Proof.
  unfold analyze_high_entries.
  destruct (analyze_frame df winner_usernames) as [|e|an]; try discriminate.
  cbv zeta.
  destruct (filter _ (value_counts _ _)) as [|uc high] eqn:Eh.
  - intros H. injection H as <-. cbn. repeat split.
  - destruct (has_column df "time_elapsed"); [|discriminate].
    destruct (has_column df "comment_text"); [|discriminate].
    cbn [negb]. intros H. injection H as <-. cbn. repeat split.
Qed.

Lemma heavy_user_listed cols es u c :
  In (u, c) (filter (fun uc => (HIGH_ENTRY_THRESHOLD <? snd uc)%nat)
                    (value_counts cols es)) <->
  c = length (entries_of cols u es) /\ (50 < c)%nat.
Proof.
  rewrite filter_In, value_counts_in. cbn [snd].
  unfold HIGH_ENTRY_THRESHOLD. rewrite Nat.ltb_lt. split; [tauto|].
  intros [-> Hc]. split; [|exact Hc]. split; [|reflexivity].
  destruct (entries_of cols u es) as [|e l] eqn:E; [simpl in Hc; lia|].
  assert (He : In e (entries_of cols u es)) by (rewrite E; left; reflexivity).
  apply entries_of_in in He. exists e. exact He.
Qed.

(** X16.  The report of [highentryrep.py] names a user exactly when the
    user has more than fifty valid entries, each user once and the
    larger counts first; the count printed is the number of the user's
    valid entries and the sample is made of the first ten of them, in
    the order of the file.  The report file is written exactly when
    there is such a user, and the summary table of the winners exactly
    when a listed winner has a valid entry. *)
Theorem report_names_the_users_above_fifty
    (df : DataFrame) (winner_usernames : list string)
    (h : high_entry_analysis) :
  analyze_high_entries df winner_usernames = Finished h ->
  let cols := columns df in
  let valid := valid_entries df (add_comment_likes df) in
  (forall u, In u (map hv_username (high_volume_users h)) <->
     (50 < length (entries_of cols u valid))%nat) /\
  (forall hv, In hv (high_volume_users h) ->
     hv_count hv = length (entries_of cols (hv_username hv) valid) /\
     hv_sample hv
     = map (report_line_of cols)
           (firstn 10 (entries_of cols (hv_username hv) valid)) /\
     length (hv_sample hv) = 10%nat) /\
  NoDup (map hv_username (high_volume_users h)) /\
  StronglySorted (fun x y => (hv_count y <= hv_count x)%nat)
                 (high_volume_users h) /\
  (report_saved h = true <->
   exists u, (50 < length (entries_of cols u valid))%nat) /\
  (summary_saved h = true <-> valid_winners (base h) <> []).
Proof.
  intros H cols valid.
  pose proof (analyze_high_entries_finished df winner_usernames h H) as Hf.
  cbv zeta in Hf. fold cols valid in Hf.
  destruct Hf as (Han & _ & Hhigh & Hrep & Hsum).
  set (high := filter (fun uc => (HIGH_ENTRY_THRESHOLD <? snd uc)%nat)
                      (value_counts cols valid)) in *.
  assert (Hnames : map hv_username (high_volume_users h) = map fst high).
  { rewrite Hhigh, map_map. reflexivity. }
  assert (Hiff : forall u, In u (map fst high) <->
                   (50 < length (entries_of cols u valid))%nat).
  { intros u. rewrite in_map_iff. split.
    - intros ([v c] & E & Hin). cbn [fst] in E. subst v.
      apply heavy_user_listed in Hin. destruct Hin as [-> Hc]. exact Hc.
    - intros Hc. exists (u, length (entries_of cols u valid)).
      split; [reflexivity|]. apply heavy_user_listed. tauto. }
  split; [intros u; rewrite Hnames; apply Hiff|].
  split; [|split; [|split; [|split]]].
  - intros hv Hhv. rewrite Hhigh in Hhv. apply in_map_iff in Hhv.
    destruct Hhv as ([u c] & <- & Hin).
    cbn [hv_count hv_username hv_sample fst snd].
    apply heavy_user_listed in Hin. destruct Hin as [Hc H50].
    split; [exact Hc|]. split; [reflexivity|].
    rewrite length_map, length_firstn. lia.
  - rewrite Hnames. apply NoDup_map_filter. apply value_counts_NoDup.
  - rewrite Hhigh. apply StronglySorted_map. cbn [hv_count].
    apply StronglySorted_filter. apply value_counts_sorted.
  - rewrite Hrep. split.
    + destruct high as [|[u c] high'] eqn:E; [discriminate|].
      intros _. exists u. apply Hiff. left. reflexivity.
    + intros (u & Hu). apply Hiff in Hu.
      destruct high; [contradiction|reflexivity].
  - rewrite Hsum.
    pose proof (analyze_frame_finished df winner_usernames (base h) Han)
      as Hb.
    cbv zeta in Hb. destruct Hb as (_ & _ & _ & Hdet & _).
    rewrite Hdet.
    destruct (valid_winners (base h)); cbn [map]; split;
      congruence || discriminate.
Qed.

Lemma report_names_the_users_above_fifty_witness :
  exists h,
    analyze_high_entries (read_csv default_na_values busy_fan) ["u2"]
    = Finished h /\
    map hv_username (high_volume_users h) = ["fan"] /\
    map hv_count (high_volume_users h) = [51%nat] /\
    report_saved h = true /\
    NoDup (map hv_username (high_volume_users h)).
Proof.
  eexists. split; [vm_compute; reflexivity|].
  split; [reflexivity|]. split; [reflexivity|]. split; [reflexivity|].
  match goal with
  | |- NoDup (map _ (high_volume_users ?h)) =>
      assert (H : analyze_high_entries (read_csv default_na_values busy_fan)
                    ["u2"] = Finished h)
        by (vm_compute; reflexivity);
      apply (report_names_the_users_above_fifty
               (read_csv default_na_values busy_fan) ["u2"] h H)
  end.
Defined.

(** X17.  The lines of the report read the columns [time_elapsed] and
    [comment_text].  When no user has more than fifty valid entries no
    line is written: the run finishes whatever the columns and saves no
    report.  When some user has, a frame without one of the two columns
    makes the run raise [KeyError] on the first of them that is
    missing. *)
Theorem report_reads_time_and_comment
    (df : DataFrame) (winner_usernames : list string) (an : analysis) :
  analyze_frame df winner_usernames = Finished an ->
  let cols := columns df in
  let valid := valid_entries df (add_comment_likes df) in
  ((forall u, (length (entries_of cols u valid) <= 50)%nat) ->
   exists h, analyze_high_entries df winner_usernames = Finished h /\
     base h = an /\ high_volume_users h = [] /\ report_saved h = false) /\
  ((exists u, (50 < length (entries_of cols u valid))%nat) ->
   (has_column df "time_elapsed" = false ->
    analyze_high_entries df winner_usernames
    = Raised (KeyError "time_elapsed")) /\
   (has_column df "time_elapsed" = true ->
    has_column df "comment_text" = false ->
    analyze_high_entries df winner_usernames
    = Raised (KeyError "comment_text")) /\
   (has_column df "time_elapsed" = true ->
    has_column df "comment_text" = true ->
    exists h, analyze_high_entries df winner_usernames = Finished h /\
      base h = an /\ report_saved h = true)).
Proof.
  intros H cols valid. unfold analyze_high_entries. rewrite H. cbv zeta.
  fold cols valid.
  destruct (filter _ (value_counts cols valid)) as [|[u c] high] eqn:Eh.
  - split.
    + intros _. eexists. split; [reflexivity|]. repeat split.
    + intros (u & Hu). exfalso.
      assert (Hin : In (u, length (entries_of cols u valid))
                       (filter (fun uc => (HIGH_ENTRY_THRESHOLD <? snd uc)%nat)
                               (value_counts cols valid)))
        by (apply heavy_user_listed; tauto).
      rewrite Eh in Hin. exact Hin.
  - assert (Hin : In (u, c)
                     (filter (fun uc => (HIGH_ENTRY_THRESHOLD <? snd uc)%nat)
                             (value_counts cols valid)))
      by (rewrite Eh; left; reflexivity).
    apply heavy_user_listed in Hin. destruct Hin as [-> H50].
    split.
    + intros Hall. specialize (Hall u). lia.
    + intros _. split; [|split].
      * intros ->. reflexivity.
      * intros -> ->. reflexivity.
      * intros -> ->. cbn [negb]. eexists. split; [reflexivity|].
        split; reflexivity.
Qed.

Lemma report_reads_time_and_comment_witness :
  analyze_high_entries no_time_column ["u2"]
  = Raised (KeyError "time_elapsed").
Proof.
  assert (H : exists an, analyze_frame no_time_column ["u2"] = Finished an)
    by (eexists; vm_compute; reflexivity).
  destruct H as (an & H).
  apply (report_reads_time_and_comment no_time_column ["u2"] an H).
  - exists "fan". vm_compute. lia.
  - reflexivity.
Defined.

(** ** Names and mentions that read as NaN *)

(** X18.  A user name that is one of the tokens that [read_csv] reads as
    NaN, such as [null] or [NA], is no user name in the loaded frame:
    such a user is no participant, whatever the comments, and is never
    announced as a winner. *)
Theorem na_named_user_never_wins
    (na : list string) (f : csv) (s : string) :
  In s na ->
  let df := read_csv na f in
  ~ In s (map fst (user_total_weights (columns df)
                     (valid_entries df (add_comment_likes df)))) /\
  forall rand a,
    unit_variates rand ->
    pick_giveaway_winners na (Some f) rand = Some (Announced a) ->
    ~ In s (winning_usernames a).
Proof.
  intros Hs df.
  assert (Hno : ~ In s (map fst (user_total_weights (columns df)
                          (valid_entries df (add_comment_likes df))))).
  { intros Hin. apply participant_has_row in Hin.
    destruct Hin as (r & Hr & Hu). apply get_Some_in in Hu.
    exact (read_csv_no_na_token na f r Hr (Some s) s Hu eq_refl Hs). }
  split; [exact Hno|].
  intros rand a Hu Hp Hin. cbn [pick_giveaway_winners] in Hp.
  destruct (announced_winners df rand a Hu Hp) as [_ Hw].
  exact (Hno (Hw s Hin)).
Qed.

Lemma na_named_user_never_wins_witness :
  let df := read_csv default_na_values null_user in
  map fst (user_total_weights (columns df)
             (valid_entries df (add_comment_likes df))) = ["u2"] /\
  ~ In "null" (map fst (user_total_weights (columns df)
                          (valid_entries df (add_comment_likes df)))).
Proof.
  split; [reflexivity|].
  apply (na_named_user_never_wins default_na_values null_user "null").
  vm_compute. tauto.
Defined.

Lemma pick_after_likes_no_eligible (df : DataFrame) (rand : nat -> Q) :
  pick_after_likes df rand = Some NoEligibleParticipants <->
  first_missing df mention_columns = None /\
  has_column df "username" = true /\
  valid_entries df (add_comment_likes df) <> [] /\
  forall e, In e (valid_entries df (add_comment_likes df)) ->
    username_of (columns df) e = None.
Proof.
  unfold pick_after_likes.
  destruct (first_missing df mention_columns) as [n|];
    [split; [discriminate|intros [C _]; discriminate]|].
  destruct (valid_entries df (add_comment_likes df)) as [|e0 es] eqn:Ev;
    [split; [discriminate|intros (_ & _ & C & _); contradiction]|].
  destruct (has_column df "username"); cbn [negb];
    [|split; [discriminate|intros (_ & C & _); discriminate]].
  set (totals := user_total_weights (columns df) (e0 :: es)).
  assert (Hkeys : totals = [] <->
            forall e, In e (e0 :: es) -> username_of (columns df) e = None).
  { split.
    - intros E e He.
      destruct (username_of (columns df) e) as [u|] eqn:Eu; [|reflexivity].
      assert (Hin : In u (map fst totals)).
      { subst totals. rewrite totals_keys. apply group_keys_in.
        exists e. tauto. }
      rewrite E in Hin. contradiction.
    - intros Hall. destruct totals as [|[u w] totals'] eqn:Et;
        [reflexivity|].
      assert (Hin : In u (map fst totals))
        by (rewrite Et; left; reflexivity).
      subst totals. rewrite totals_keys in Hin. apply group_keys_in in Hin.
      destruct Hin as (e & He & Hu). rewrite (Hall e He) in Hu.
      discriminate. }
  destruct (Nat.eqb _ 0) eqn:Ez.
  - split; [|reflexivity]. intros _.
    split; [reflexivity|]. split; [reflexivity|]. split; [discriminate|].
    apply Hkeys. apply Nat.eqb_eq in Ez.
    destruct (length totals <? 10)%nat; [|discriminate].
    destruct totals; [reflexivity|discriminate].
  - split.
    + destruct (sample _ _ rand) as [[err|positions]|]; try discriminate.
      destruct (negb (has_column df "profile_url")); discriminate.
    + intros (_ & _ & _ & Hall). apply Hkeys in Hall.
      rewrite Hall in Ez. discriminate.
Qed.

(** X19.  On a frame whose counts are in range, the message that no
    eligible participant was found is what a run comes to exactly when
    the [action_type] column, if there is one, holds text, the frame
    has the columns read and valid entries, and no valid entry carries
    a user name. *)
Theorem no_eligible_iff_no_user_name (df : DataFrame) (rand : nat -> Q) :
  counts_in_range df = true ->
  (pick_from_frame df rand = Some NoEligibleParticipants <->
   (has_column df "action_type" = true ->
    text_column (action_cells df) = true) /\
   first_missing df mention_columns = None /\
   has_column df "username" = true /\
   valid_entries df (add_comment_likes df) <> [] /\
   forall e, In e (valid_entries df (add_comment_likes df)) ->
     username_of (columns df) e = None).
Proof.
  intros Hr. unfold pick_from_frame.
  rewrite (counts_in_range_likes df Hr).
  destruct (has_column df "action_type"); cbn [andb].
  - destruct (text_column (action_cells df)); cbn [negb].
    2:{ split; [discriminate|]. intros [C _].
        specialize (C eq_refl). discriminate. }
    transitivity
      (first_missing df mention_columns = None /\
       has_column df "username" = true /\
       valid_entries df (add_comment_likes df) <> [] /\
       forall e, In e (valid_entries df (add_comment_likes df)) ->
         username_of (columns df) e = None);
      [|tauto].
    apply pick_after_likes_no_eligible.
  - transitivity
      (first_missing df mention_columns = None /\
       has_column df "username" = true /\
       valid_entries df (add_comment_likes df) <> [] /\
       forall e, In e (valid_entries df (add_comment_likes df)) ->
         username_of (columns df) e = None).
    + apply pick_after_likes_no_eligible.
    + split; [|tauto]. intros H. split; [discriminate|exact H].
Qed.

Lemma no_eligible_iff_no_user_name_witness :
  pick_from_frame (read_csv default_na_values nameless) (fun _ => 0%Q)
  = Some NoEligibleParticipants.
Proof.
  apply (no_eligible_iff_no_user_name
           (read_csv default_na_values nameless) (fun _ => 0%Q) eq_refl).
  split; [reflexivity|]. split; [reflexivity|]. split; [reflexivity|].
  split; [vm_compute; discriminate|].
  intros e He. vm_compute in He. destruct He as [<-|[]]. reflexivity.
Defined.

(** ** Duplicate rows and the draw *)

(** The [comment_likes] column is computed row by row. *)
Lemma add_comment_likes_map cols :
  exists g : row -> scored,
    (forall rs, add_comment_likes (mkDF cols rs) = map g rs) /\
    (forall r, 0 <= comment_likes (g r)).
Proof.
  unfold add_comment_likes, has_column. cbn [columns rows].
  destruct (index_of "action_type" cols).
  - eexists. split; [intros rs; reflexivity|].
    intros r. cbn [comment_likes]. apply likes_of_cell_spec.
  - eexists. split; [intros rs; reflexivity|].
    intros r. cbn [comment_likes]. lia.
Qed.

Lemma keep_new_sum (k : row -> Z) (f : row -> bool) :
  (forall r, 0 <= k r) ->
  forall rs seen,
    sum_Z (map k (filter f (keep_new seen rs)))
    <= sum_Z (map k (filter f rs)).
Proof.
  intros Hk. induction rs as [|r rs IH]; intros seen.
  - unfold keep_new. simpl. lia.
  - rewrite keep_new_cons. specialize (IH (r :: seen)).
    destruct (in_dec row_eq_dec r seen); cbn [filter];
      destruct (f r); cbn [map]; rewrite ?sum_Z_cons;
      pose proof (Hk r); lia.
Qed.

Lemma sum_filter_map {A B} (k : B -> Z) (P V : B -> bool) (g : A -> B) l :
  sum_Z (map k (filter P (filter V (map g l))))
  = sum_Z (map (fun r => k (g r))
               (filter (fun r => V (g r) && P (g r)) l)).
Proof.
  induction l as [|x l IH]; [reflexivity|].
  cbn [map filter]. destruct (V (g x)); cbn [andb filter]; [|exact IH].
  destruct (P (g x)); cbn [map]; rewrite ?sum_Z_cons, ?IH; reflexivity.
Qed.

Lemma group_keys_members cols es es' :
  (forall u, (exists e, In e es /\ username_of cols e = Some u) <->
             (exists e, In e es' /\ username_of cols e = Some u)) ->
  group_keys cols es = group_keys cols es'.
Proof.
  intros H. apply sorted_permutation_eq.
  - apply sort_strings_sorted.
  - apply sort_strings_sorted.
  - apply NoDup_Permutation; try apply group_keys_NoDup.
    intros u. rewrite !group_keys_in. apply H.
Qed.

Lemma keep_new_sum_map {B} (k : B -> Z) (V : B -> bool) (g : row -> B) :
  (forall r, 0 <= k (g r)) ->
  forall rs seen,
    sum_Z (map k (filter V (map g (keep_new seen rs))))
    <= sum_Z (map k (filter V (map g rs))).
Proof.
  intros Hk. induction rs as [|r rs IH]; intros seen.
  - unfold keep_new. simpl. lia.
  - rewrite keep_new_cons. specialize (IH (r :: seen)).
    destruct (in_dec row_eq_dec r seen); cbn [map filter];
      destruct (V (g r)); cbn [map]; rewrite ?sum_Z_cons;
      pose proof (Hk r); lia.
Qed.

(** The cleaned frame against the frame read, in exact sums. *)
Lemma cleaned_against_read (df : DataFrame) (rep : clean_report) :
  clean_frame df = Finished rep ->
  let cols := columns (df_cleaned rep) in
  let read := mkDF cols (rows df) in
  let totals_read :=
    user_total_weights cols (valid_entries read (add_comment_likes read)) in
  let totals_cleaned :=
    user_total_weights cols
      (valid_entries (df_cleaned rep) (add_comment_likes (df_cleaned rep))) in
  map fst totals_cleaned = map fst totals_read /\
  (forall u w, In (u, w) totals_cleaned ->
     exists w', In (u, w') totals_read /\ 1 <= w <= w') /\
  sum_Z (map weight (valid_entries (df_cleaned rep)
                       (add_comment_likes (df_cleaned rep))))
  <= sum_Z (map weight (valid_entries read (add_comment_likes read))) /\
  (forall c, In c (action_cells (df_cleaned rep)) ->
     In c (action_cells read)).
Proof.
  intros H cols read totals_read totals_cleaned.
  pose proof (clean_frame_finished df rep H) as (_ & _ & _ & Hr & _).
  assert (Hdf : df_cleaned rep = mkDF cols (keep_new [] (rows df))).
  { subst cols. destruct (df_cleaned rep) as [c r]. cbn [columns rows] in *.
    rewrite Hr. reflexivity. }
  destruct (add_comment_likes_map cols) as (g & Hg & Hlikes).
  assert (Hvr : valid_entries read (add_comment_likes read)
                = filter (fun e => all_mentions_notna cols (s_row e))
                         (map g (rows df))).
  { unfold valid_entries. subst read. rewrite Hg. reflexivity. }
  assert (Hvc : valid_entries (df_cleaned rep)
                  (add_comment_likes (df_cleaned rep))
                = filter (fun e => all_mentions_notna cols (s_row e))
                         (map g (keep_new [] (rows df)))).
  { rewrite Hdf. unfold valid_entries. rewrite Hg. reflexivity. }
  assert (Hkeys : group_keys cols (valid_entries (df_cleaned rep)
                                     (add_comment_likes (df_cleaned rep)))
                  = group_keys cols (valid_entries read
                                       (add_comment_likes read))).
  { apply group_keys_members. intros u. rewrite Hvr, Hvc.
    split; intros (e & He & Hu); exists e; (split; [|exact Hu]);
      apply filter_In in He; destruct He as [He Hv]; apply filter_In;
      (split; [|exact Hv]); apply in_map_iff in He;
      destruct He as (r & <- & Hin); apply in_map_iff; exists r;
      (split; [reflexivity|]).
    - apply keep_new_in in Hin. tauto.
    - apply keep_new_in. simpl. tauto. }
  assert (Hw : forall r, 0 <= weight (g r))
    by (intros r; unfold weight; pose proof (Hlikes r); lia).
  split; [|split; [|split]].
  - subst totals_cleaned totals_read. rewrite !totals_keys. exact Hkeys.
  - intros u w Hin. subst totals_cleaned totals_read.
    pose proof (totals_positive cols _ u w
                  (fun e He => valid_weight_floor (df_cleaned rep) e He)
                  Hin) as Hpos.
    apply totals_in in Hin. destruct Hin as [Hk ->].
    eexists. split.
    + apply totals_in. split; [rewrite <- Hkeys; exact Hk|reflexivity].
    + split; [exact Hpos|].
      rewrite Hvr, Hvc. unfold entries_of. rewrite !sum_filter_map.
      apply keep_new_sum. exact Hw.
  - rewrite Hvr, Hvc. apply keep_new_sum_map. exact Hw.
  - intros c Hc. unfold action_cells in *. rewrite Hdf in Hc.
    cbn [columns rows] in *. apply in_map_iff in Hc.
    destruct Hc as (r & <- & Hin). apply in_map_iff. exists r.
    split; [reflexivity|]. apply keep_new_in in Hin. tauto.
Qed.

(** X20.  Dropping the duplicate rows changes no participant and adds
    no weight.  When the counts of the frame that the cleaner read are
    in range under its new labels, so are the counts of the frame that
    it saves; the saved frame has the same participants, and the total
    weight of each is at most what the rows read would give, a repeated
    comment counting once. *)
Theorem duplicates_only_add_weight (df : DataFrame) (rep : clean_report) :
  clean_frame df = Finished rep ->
  counts_in_range (mkDF (columns (df_cleaned rep)) (rows df)) = true ->
  let cols := columns (df_cleaned rep) in
  let read := mkDF cols (rows df) in
  let totals_read :=
    user_total_weights64 cols
      (valid_entries read (add_comment_likes read)) in
  let totals_cleaned :=
    user_total_weights64 cols
      (valid_entries (df_cleaned rep) (add_comment_likes (df_cleaned rep))) in
  counts_in_range (df_cleaned rep) = true /\
  map fst totals_cleaned = map fst totals_read /\
  forall u w, In (u, w) totals_cleaned ->
    exists w', In (u, w') totals_read /\ 1 <= w <= w'.
Proof.
  intros H Hr cols read totals_read totals_cleaned.
  pose proof (cleaned_against_read df rep H) as Hc. cbv zeta in Hc.
  fold cols in Hc. fold read in Hc.
  destruct Hc as (Hkeys & Hle & Hsum & Hcells).
  fold cols read in Hr.
  assert (Hrc : counts_in_range (df_cleaned rep) = true).
  { unfold counts_in_range in *. apply andb_true_iff in Hr.
    destruct Hr as [Hplain Hb]. apply andb_true_iff. split.
    - apply forallb_forall. intros c Hin.
      rewrite forallb_forall in Hplain. apply Hplain, Hcells. exact Hin.
    - apply Z.ltb_lt. apply Z.ltb_lt in Hb. lia. }
  split; [exact Hrc|].
  subst totals_read totals_cleaned.
  pose proof (int64_totals_of_frame read Hr) as Er.
  pose proof (int64_totals_of_frame (df_cleaned rep) Hrc) as Ec.
  change (columns read) with cols in Er. fold cols in Ec.
  rewrite Er, Ec.
  split; [exact Hkeys|exact Hle].
Qed.

Lemma duplicates_only_add_weight_witness :
  exists rep,
    clean_frame (read_csv default_na_values scenario) = Finished rep /\
    user_total_weights64 (columns (df_cleaned rep))
      (valid_entries (df_cleaned rep) (add_comment_likes (df_cleaned rep)))
    = [("u1", 4); ("u2", 2)] /\
    user_total_weights64 (columns (df_cleaned rep))
      (valid_entries
         (mkDF (columns (df_cleaned rep))
               (rows (read_csv default_na_values scenario)))
         (add_comment_likes
            (mkDF (columns (df_cleaned rep))
                  (rows (read_csv default_na_values scenario)))))
    = [("u1", 7); ("u2", 2)] /\
    exists w', In ("u1", w')
                 (user_total_weights64 (columns (df_cleaned rep))
                    (valid_entries
                       (mkDF (columns (df_cleaned rep))
                             (rows (read_csv default_na_values scenario)))
                       (add_comment_likes
                          (mkDF (columns (df_cleaned rep))
                                (rows (read_csv default_na_values
                                         scenario)))))) /\
               1 <= 4 <= w'.
Proof.
  eexists. split; [vm_compute; reflexivity|].
  split; [reflexivity|]. split; [reflexivity|].
  pose proof (duplicates_only_add_weight
                (read_csv default_na_values scenario) _ eq_refl eq_refl)
    as Hw.
  cbv zeta in Hw. destruct Hw as (_ & _ & Hw).
  apply (Hw "u1" 4). left. reflexivity.
Defined.
